(** * File Browser: directory listing, live refresh and recursive search

    A shallow embedding of the listing worker (filemodelworker.cpp), the
    directory model (filemodel.cpp) and the search worker (searchworker.cpp),
    with the properties the specification states about them. *)

From Stdlib Require Import List String Ascii ZArith Bool Arith Lia.
Import ListNotations.

Local Open Scope string_scope.
Local Open Scope list_scope.
Local Open Scope Z_scope.

(** ** Entry snapshots *)

(** Modelled from the spec: the class StatFileInfo (statfileinfo.h) is not
    among the sources.  The record holds the attributes the data model lists:
    the identity-bearing ones read by [filesContains] and the three transient
    flags with their plain setters.  Sizes, permission bits and time stamps
    are integers; two time stamps are equal when they denote the same
    instant. *)
Record StatFileInfo : Type := mkInfo {
  absoluteFilePath : string;
  fileName : string;
  size : Z;
  permissions : Z;
  lastModified : Z;
  created : Z;
  isSymLink : bool;
  symLinkTarget : string;
  isDirAtEnd : bool;
  kind : string;
  isSelected : bool;
  isMatched : bool;
  isDoomed : bool
}.

Definition setSelected (selected : bool) (f : StatFileInfo) : StatFileInfo :=
  mkInfo (absoluteFilePath f) (fileName f) (size f) (permissions f)
         (lastModified f) (created f) (isSymLink f) (symLinkTarget f)
         (isDirAtEnd f) (kind f) selected (isMatched f) (isDoomed f).

Definition setFilterMatched (matched : bool) (f : StatFileInfo) : StatFileInfo :=
  mkInfo (absoluteFilePath f) (fileName f) (size f) (permissions f)
         (lastModified f) (created f) (isSymLink f) (symLinkTarget f)
         (isDirAtEnd f) (kind f) (isSelected f) matched (isDoomed f).

Definition setDoomed (doomed : bool) (f : StatFileInfo) : StatFileInfo :=
  mkInfo (absoluteFilePath f) (fileName f) (size f) (permissions f)
         (lastModified f) (created f) (isSymLink f) (symLinkTarget f)
         (isDirAtEnd f) (kind f) (isSelected f) (isMatched f) doomed.

(** ** QList operations used by the code (Qt 5) *)

Module QList.
Section Ops.
Context {A : Type}.

(** [QList::removeAt(i)]: removes the item at [i]; outside the list nothing
    happens. *)
Fixpoint removeAt (i : nat) (l : list A) : list A :=
  match l, i with
  | [], _ => []
  | _ :: t, O => t
  | x :: t, S j => x :: removeAt j t
  end.

(** [QList::insert(i, v)]: inserts before index [i]; an index at or past the
    end appends. *)
Fixpoint insert (i : nat) (v : A) (l : list A) : list A :=
  match i, l with
  | O, _ => v :: l
  | S _, [] => [v]
  | S j, x :: t => x :: insert j v t
  end.

(** [operator[](i) = v]: replaces the item at a valid index. *)
Fixpoint replace (i : nat) (v : A) (l : list A) : list A :=
  match l, i with
  | [], _ => []
  | _ :: t, O => v :: t
  | x :: t, S j => x :: replace j v t
  end.
End Ops.
End QList.

(** ** Identity of entries *)

(** The comparison inside the loop of [filesContains]; the two classes carry
    the same text. *)
Definition sameEntry (f fileData : StatFileInfo) : bool :=
  String.eqb (fileName f) (fileName fileData) &&
  Z.eqb (size f) (size fileData) &&
  Z.eqb (permissions f) (permissions fileData) &&
  Z.eqb (lastModified f) (lastModified fileData) &&
  Bool.eqb (isSymLink f) (isSymLink fileData) &&
  Bool.eqb (isDirAtEnd f) (isDirAtEnd fileData).

(** [FileModelWorker::filesContains] and [FileModel::filesContains]. *)
Fixpoint filesContains (files : list StatFileInfo) (fileData : StatFileInfo) : bool :=
  match files with
  | [] => false
  | f :: rest => if sameEntry f fileData then true else filesContains rest fileData
  end.

(** The six attributes compared by [sameEntry]. *)
Definition identity (f : StatFileInfo) : string * Z * Z * Z * bool * bool :=
  (fileName f, size f, permissions f, lastModified f, isSymLink f, isDirAtEnd f).

(** Two lists with the same members, up to identity. *)
Definition sameMembers (l1 l2 : list StatFileInfo) : Prop :=
  forall e, filesContains l1 e = filesContains l2 e.

(** ** The cancellation flag and the record of a task

    A worker runs on its own thread; the owner may call [cancel()] at any
    moment.  A task is recorded as the sequence of its signal emissions and of
    its atomic loads of the flag.  [cancelAt = Some k] says that the other
    thread stored [Cancelled] when the record had [k] items, [None] that it
    never did during the task. *)

Inductive Flag : Type := KeepRunning | Cancelled.

Inductive action (S : Type) : Type :=
| Emit (s : S)
| LoadAcquire (v : Flag).
Arguments Emit {S} s.
Arguments LoadAcquire {S} v.

Definition flagAt {S : Type} (cancelAt : option nat) (log : list (action S)) : Flag :=
  match cancelAt with
  | Some k => if (k <=? List.length log)%nat then Cancelled else KeepRunning
  | None => KeepRunning
  end.

Definition isCancelled (v : Flag) : bool :=
  match v with Cancelled => true | KeepRunning => false end.

Fixpoint emitted {S : Type} (log : list (action S)) : list S :=
  match log with
  | [] => []
  | Emit s :: rest => s :: emitted rest
  | LoadAcquire _ :: rest => emitted rest
  end.

(** ** The listing worker (filemodelworker.cpp) *)

Module FileModelWorker.

Inductive Mode : Type := NoneMode | FullMode | DiffMode.

Inductive signal : Type :=
| done (mode : Mode) (entries : list StatFileInfo)
| entryAdded (index : Z) (entry : StatFileInfo)
| entryRemoved (index : Z) (entry : StatFileInfo)
| error (message : string)
| alreadyRunning.

(** What the worker asks of the file system.  [entryInfos dir] is the result
    of [entryList()] on the directory handle, each name already passed through
    the StatFileInfo constructor; the filter and the order chosen by
    [applySettings] are part of this answer. *)
Record DirEnv : Type := {
  exists_ : string -> bool;
  isReadable : string -> bool;
  canonicalPath : string -> string;
  entryInfos : string -> list StatFileInfo
}.

Record Worker : Type := mkWorker {
  m_settings : bool;            (* the Settings pointer is not null *)
  m_mode : Mode;
  m_finalEntries : list StatFileInfo;
  m_oldEntries : list StatFileInfo;
  m_dir : string;
  m_nameFilter : string;
  m_cachedDir : string;
  isRunning : bool;
  cancelAt : option nat;
  log : list (action signal)
}.

Definition withFinal (l : list StatFileInfo) (w : Worker) : Worker :=
  mkWorker (m_settings w) (m_mode w) l (m_oldEntries w) (m_dir w)
           (m_nameFilter w) (m_cachedDir w) (isRunning w) (cancelAt w) (log w).

Definition withOld (l : list StatFileInfo) (w : Worker) : Worker :=
  mkWorker (m_settings w) (m_mode w) (m_finalEntries w) l (m_dir w)
           (m_nameFilter w) (m_cachedDir w) (isRunning w) (cancelAt w) (log w).

Definition withCachedDir (d : string) (w : Worker) : Worker :=
  mkWorker (m_settings w) (m_mode w) (m_finalEntries w) (m_oldEntries w) (m_dir w)
           (m_nameFilter w) d (isRunning w) (cancelAt w) (log w).

Definition record (a : action signal) (w : Worker) : Worker :=
  mkWorker (m_settings w) (m_mode w) (m_finalEntries w) (m_oldEntries w) (m_dir w)
           (m_nameFilter w) (m_cachedDir w) (isRunning w) (cancelAt w) (log w ++ [a]).

Definition emit (s : signal) (w : Worker) : Worker := record (Emit s) w.

(** [cancelIfCancelled]: one atomic load of the flag. *)
Definition cancelIfCancelled (w : Worker) : bool * Worker :=
  let v := flagAt (cancelAt w) (log w) in
  (isCancelled v, record (LoadAcquire v) w).

(** [verifyOrAbort]; [tr] is the translation of a user-visible text. *)
Definition verifyOrAbort (tr : string -> string) (env : DirEnv) (w : Worker)
  : bool * Worker :=
  if String.eqb (m_dir w) "" then
    (false, emit (error "Internal worker error: empty directory name") w)
  else if negb (exists_ env (m_dir w)) then
    (false, emit (error (tr "Folder does not exist")) w)
  else if negb (isReadable env (m_dir w)) then
    (false, emit (error (tr "No permission to read the folder")) w)
  else (true, w).

(** [applySettings]: the settings only reconfigure the directory handle, whose
    answer is [entryInfos]; what remains here are the cancellation checks. *)
Definition applySettings (w : Worker) : bool * Worker :=
  let (c1, w) := cancelIfCancelled w in
  if c1 then (false, w)
  else if negb (m_settings w) then (true, w)
  else
    let (c2, w) := cancelIfCancelled w in
    if c2 then (false, w)
    else
      let (c3, w) := cancelIfCancelled w in
      if c3 then (false, w) else (true, w).

(** The loop of [doReadFull]; [true] when it returned on cancellation. *)
Fixpoint readFullLoop (fileList : list StatFileInfo) (w : Worker) : bool * Worker :=
  match fileList with
  | [] => (false, w)
  | info :: rest =>
      let w := withFinal (m_finalEntries w ++ [info]) w in
      let (c, w) := cancelIfCancelled w in
      if c then (true, w) else readFullLoop rest w
  end.

Definition doReadFull (env : DirEnv) (w : Worker) : Worker :=
  let (ok, w) := applySettings w in
  if negb ok then w
  else
    let (c, w) := readFullLoop (entryInfos env (m_cachedDir w)) w in
    if c then w else emit (done (m_mode w) (m_finalEntries w)) w.

(** The first loop of [doReadDiff]; [None] when it returned on cancellation. *)
Fixpoint readDiffLoop (fileList newFiles : list StatFileInfo) (w : Worker)
  : option (list StatFileInfo) * Worker :=
  match fileList with
  | [] => (Some newFiles, w)
  | info :: rest =>
      let newFiles := newFiles ++ [info] in
      let (c, w) := cancelIfCancelled w in
      if c then (None, w) else readDiffLoop rest newFiles w
  end.

(** The removal loop, [i] running from [n - 1] down to [0]; the result is
    [haveRemoved], or [None] when the loop returned early. *)
Fixpoint removeLoop (newFiles : list StatFileInfo) (n : nat) (haveRemoved : bool)
    (w : Worker) : option bool * Worker :=
  match n with
  | O => (Some haveRemoved, w)
  | S i =>
      match nth_error (m_oldEntries w) i with
      | None => (None, w)     (* [at(i)] outside the list; [i < count] here *)
      | Some data =>
          if negb (filesContains newFiles data) then
            let w := emit (entryRemoved (Z.of_nat i) data) w in
            let w := withFinal (QList.removeAt i (m_finalEntries w)) w in
            let (c, w) := cancelIfCancelled w in
            if c then (None, w) else removeLoop newFiles i true w
          else removeLoop newFiles i haveRemoved w
      end
  end.

(** The insertion loop, [i] running upwards with [k] indices left; [true]
    when it returned early. *)
Fixpoint insertLoop (newFiles : list StatFileInfo) (k i : nat) (w : Worker)
  : bool * Worker :=
  match k with
  | O => (false, w)
  | S k' =>
      match nth_error newFiles i with
      | None => (true, w)     (* [at(i)] outside the list; [i < count] here *)
      | Some data =>
          if negb (filesContains (m_oldEntries w) data) then
            let w := emit (entryAdded (Z.of_nat i) data) w in
            let w := withFinal (QList.insert i data (m_finalEntries w)) w in
            let (c, w) := cancelIfCancelled w in
            if c then (true, w) else insertLoop newFiles k' (S i) w
          else insertLoop newFiles k' (S i) w
      end
  end.

Definition doReadDiff (env : DirEnv) (w : Worker) : Worker :=
  let (ok, w) := applySettings w in
  if negb ok then w
  else
    match readDiffLoop (entryInfos env (m_cachedDir w)) [] w with
    | (None, w) => w
    | (Some newFiles, w) =>
        let w := withFinal (m_oldEntries w) w in
        match removeLoop newFiles (List.length (m_oldEntries w)) false w with
        | (None, w) => w
        | (Some haveRemoved, w) =>
            let w := if haveRemoved then withOld (m_finalEntries w) w else w in
            let (c, w) := insertLoop newFiles (List.length newFiles) O w in
            if c then w
            else
              let (c', w) := cancelIfCancelled w in
              if c' then w else emit (done (m_mode w) (m_finalEntries w)) w
        end
    end.

Definition run (tr : string -> string) (env : DirEnv) (w : Worker) : Worker :=
  let (ok, w) := verifyOrAbort tr env w in
  if negb ok then w
  else
    let w :=
      if negb (String.eqb (canonicalPath env (m_cachedDir w))
                          (canonicalPath env (m_dir w)))
      then withCachedDir (m_dir w) w else w in
    match m_mode w with
    | FullMode => doReadFull env w
    | DiffMode => doReadDiff env w
    | NoneMode => w
    end.

(** [doStartThread].  [start()] is the task itself, run to its end; the
    record of the task starts empty, and [cancel] is the moment at which the
    owner cancels this task, if it does. *)
Definition doStartThread (tr : string -> string) (env : DirEnv) (cancel : option nat)
    (mode : Mode) (oldEntries : list StatFileInfo) (dir nameFilter : string)
    (settings : bool) (w : Worker) : Worker :=
  if isRunning w then emit alreadyRunning w
  else
    run tr env
        (mkWorker settings mode [] oldEntries dir nameFilter (m_cachedDir w)
                  false cancel []).

Definition startReadFull tr env cancel (dir nameFilter : string) (settings : bool)
    (w : Worker) : Worker :=
  doStartThread tr env cancel FullMode [] dir nameFilter settings w.

Definition startReadChanged tr env cancel (oldEntries : list StatFileInfo)
    (dir nameFilter : string) (settings : bool) (w : Worker) : Worker :=
  doStartThread tr env cancel DiffMode oldEntries dir nameFilter settings w.

(** The edits among the emitted signals, and their application by a consumer:
    [entryRemoved(i, e)] removes at [i], [entryAdded(i, e)] inserts at [i]. *)
Definition isEdit (s : signal) : bool :=
  match s with
  | entryAdded _ _ | entryRemoved _ _ => true
  | _ => false
  end.

Definition applyEdit (l : list StatFileInfo) (s : signal) : list StatFileInfo :=
  match s with
  | entryRemoved i _ => QList.removeAt (Z.to_nat i) l
  | entryAdded i e => QList.insert (Z.to_nat i) e l
  | _ => l
  end.

Definition applyEdits (edits : list signal) (l : list StatFileInfo)
  : list StatFileInfo :=
  fold_left applyEdit edits l.

Definition edits (w : Worker) : list signal := filter isEdit (emitted (log w)).

End FileModelWorker.

(** ** QString operations used by the code

    Strings are sequences of 8-bit characters here.  [toLowerChar] folds the
    case of the ASCII letters; the search takes [QString::toLower] itself as
    a parameter. *)

Module QString.

Definition isEmpty (s : string) : bool :=
  match s with EmptyString => true | String _ _ => false end.

Definition toLowerChar (c : ascii) : ascii :=
  let n := nat_of_ascii c in
  if ((65 <=? n) && (n <=? 90))%nat then ascii_of_nat (n + 32) else c.

Definition startsWith (s t : string) : bool := String.prefix t s.

(** [indexOf(t)]: position of the first occurrence of [t], or [-1]. *)
Fixpoint indexOfFrom (pos : Z) (s t : string) : Z :=
  if String.prefix t s then pos
  else match s with
       | EmptyString => -1
       | String _ rest => indexOfFrom (pos + 1) rest t
       end.

Definition indexOf (s t : string) : Z := indexOfFrom 0 s t.

(** [replace(before, after)] for a one-character [before], as in all three
    calls of [applyFilterString]. *)
Fixpoint replace (before : ascii) (after : string) (s : string) : string :=
  match s with
  | EmptyString => EmptyString
  | String c rest =>
      if Ascii.eqb c before then String.append after (replace before after rest)
      else String c (replace before after rest)
  end.

End QString.

(** ** The fragment of QRegularExpression that filter strings reach

    A pattern made of literal characters, [\.], [.], [.*] and [.*?] is
    compiled and matched here, without regard to case.  Any other pattern is
    left to the regular-expression engine, an unknown of the model. *)

Module QRegularExpression.

Inductive item : Type :=
| Lit (c : ascii)       (* a literal character *)
| AnyChar               (* [.]: any character but a line feed *)
| AnyStar.              (* [.*] or [.*?]: any run of such characters *)

Definition isMeta (c : ascii) : bool :=
  existsb (Ascii.eqb c)
    ["\"; "^"; "$"; "."; "|"; "?"; "*"; "+"; "("; ")"; "["; "]"; "{"; "}"]%char.

Fixpoint compile (p : string) : option (list item) :=
  match p with
  | EmptyString => Some []
  | String c rest =>
      if Ascii.eqb c "\" then
        match rest with
        | String "." rest' => option_map (cons (Lit ".")) (compile rest')
        | _ => None
        end
      else if Ascii.eqb c "." then
        match rest with
        | String "*" (String "?" rest') => option_map (cons AnyStar) (compile rest')
        | String "*" rest' => option_map (cons AnyStar) (compile rest')
        | _ => option_map (cons AnyChar) (compile rest)
        end
      else if isMeta c then None
      else option_map (cons (Lit c)) (compile rest)
  end.

Definition lineFeed : ascii := ascii_of_nat 10.

Definition sameLetter (c d : ascii) : bool :=
  Ascii.eqb (QString.toLowerChar c) (QString.toLowerChar d).

(** A match of the items starting at the head of the subject. *)
Fixpoint matchHere (r : list item) (s : string) : bool :=
  match r with
  | [] => true
  | Lit c :: r' =>
      match s with
      | String d s' => sameLetter c d && matchHere r' s'
      | EmptyString => false
      end
  | AnyChar :: r' =>
      match s with
      | String d s' => negb (Ascii.eqb d lineFeed) && matchHere r' s'
      | EmptyString => false
      end
  | AnyStar :: r' =>
      (fix star (s : string) : bool :=
         matchHere r' s ||
         match s with
         | String d s' => negb (Ascii.eqb d lineFeed) && star s'
         | EmptyString => false
         end) s
  end.

(** A match anywhere in the subject. *)
Fixpoint search (r : list item) (s : string) : bool :=
  matchHere r s ||
  match s with
  | String _ s' => search r s'
  | EmptyString => false
  end.

(** [QRegularExpression(pattern, CaseInsensitiveOption).match(subject).hasMatch()];
    [engine] answers for the patterns outside the fragment. *)
Definition hasMatch (engine : string -> string -> bool) (pattern subject : string)
  : bool :=
  match compile pattern with
  | Some r => search r subject
  | None => engine pattern subject
  end.

End QRegularExpression.

(** ** QFileSystemWatcher: the list of the watched paths *)

Module QFileSystemWatcher.

(** [removePath] *)
Definition removePath (path : string) (watched : list string) : list string :=
  filter (fun p => negb (String.eqb p path)) watched.

(** [addPath]: a path that is not [there], or that is watched already, is
    not added. *)
Definition addPath (there : bool) (path : string) (watched : list string)
  : list string :=
  if there && negb (existsb (String.eqb path) watched)
  then watched ++ [path] else watched.

End QFileSystemWatcher.

(** ** The directory model (filemodel.cpp) *)

Module FileModel.

Import FileModelWorker(DirEnv, exists_, isReadable, entryInfos).

Inductive signal : Type :=
| dataChanged (row : Z)         (* topLeft = bottomRight = index(row, 0) *)
| rowsRemoved (row : Z)         (* beginRemoveRows .. endRemoveRows *)
| rowsInserted (row : Z)        (* beginInsertRows .. endInsertRows *)
| modelReset                    (* beginResetModel .. endResetModel *)
| dirChanged
| activeChanged
| filterStringChanged
| fileCountChanged
| errorMessageChanged
| selectedFileCountChanged
| filteredFileCountChanged.

(** The counters are C++ [int]s; they stay far from the ends of that type and
    are integers here. *)
Record Model : Type := mkModel {
  m_dir : string;
  m_files : list StatFileInfo;
  m_selectedFileCount : Z;
  m_matchedFileCount : Z;
  m_errorMessage : string;
  m_active : bool;
  m_dirty : bool;
  m_filterString : string;
  m_watcher : list string;      (* the watched paths *)
  signals : list signal         (* emitted so far, oldest first *)
}.

(** The state the constructor leaves. *)
Definition new : Model := mkModel "" [] 0 0 "" false false "" [] [].

Definition withDir (d : string) (m : Model) : Model :=
  mkModel d (m_files m) (m_selectedFileCount m) (m_matchedFileCount m)
          (m_errorMessage m) (m_active m) (m_dirty m) (m_filterString m)
          (m_watcher m) (signals m).

Definition withFiles (l : list StatFileInfo) (m : Model) : Model :=
  mkModel (m_dir m) l (m_selectedFileCount m) (m_matchedFileCount m)
          (m_errorMessage m) (m_active m) (m_dirty m) (m_filterString m)
          (m_watcher m) (signals m).

Definition withSelectedCount (n : Z) (m : Model) : Model :=
  mkModel (m_dir m) (m_files m) n (m_matchedFileCount m)
          (m_errorMessage m) (m_active m) (m_dirty m) (m_filterString m)
          (m_watcher m) (signals m).

Definition withMatchedCount (n : Z) (m : Model) : Model :=
  mkModel (m_dir m) (m_files m) (m_selectedFileCount m) n
          (m_errorMessage m) (m_active m) (m_dirty m) (m_filterString m)
          (m_watcher m) (signals m).

Definition withErrorMessage (s : string) (m : Model) : Model :=
  mkModel (m_dir m) (m_files m) (m_selectedFileCount m) (m_matchedFileCount m)
          s (m_active m) (m_dirty m) (m_filterString m)
          (m_watcher m) (signals m).

Definition withActive (b : bool) (m : Model) : Model :=
  mkModel (m_dir m) (m_files m) (m_selectedFileCount m) (m_matchedFileCount m)
          (m_errorMessage m) b (m_dirty m) (m_filterString m)
          (m_watcher m) (signals m).

Definition withDirty (b : bool) (m : Model) : Model :=
  mkModel (m_dir m) (m_files m) (m_selectedFileCount m) (m_matchedFileCount m)
          (m_errorMessage m) (m_active m) b (m_filterString m)
          (m_watcher m) (signals m).

Definition withFilterString (s : string) (m : Model) : Model :=
  mkModel (m_dir m) (m_files m) (m_selectedFileCount m) (m_matchedFileCount m)
          (m_errorMessage m) (m_active m) (m_dirty m) s
          (m_watcher m) (signals m).

Definition withWatcher (l : list string) (m : Model) : Model :=
  mkModel (m_dir m) (m_files m) (m_selectedFileCount m) (m_matchedFileCount m)
          (m_errorMessage m) (m_active m) (m_dirty m) (m_filterString m)
          l (signals m).

Definition emitAll (l : list signal) (m : Model) : Model :=
  mkModel (m_dir m) (m_files m) (m_selectedFileCount m) (m_matchedFileCount m)
          (m_errorMessage m) (m_active m) (m_dirty m) (m_filterString m)
          (m_watcher m) (signals m ++ l).

Definition emit (s : signal) (m : Model) : Model := emitAll [s] m.

Definition count (m : Model) : Z := Z.of_nat (List.length (m_files m)).

Definition fileCount (m : Model) : Z := count m.

Definition filteredFileCount (m : Model) : Z := m_matchedFileCount m.

(** [fileNameAt] *)
Definition fileNameAt (fileIndex : Z) (m : Model) : string :=
  if (fileIndex <? 0) || (fileIndex >=? count m) then ""
  else match nth_error (m_files m) (Z.to_nat fileIndex) with
       | Some f => absoluteFilePath f
       | None => ""
       end.

(** [toggleSelectedFile] *)
Definition toggleSelectedFile (fileIndex : Z) (m : Model) : Model :=
  if (fileIndex >=? count m) || (fileIndex <? 0) then m
  else
    match nth_error (m_files m) (Z.to_nat fileIndex) with
    | None => m
    | Some info =>
        let '(info, n) :=
          if negb (isSelected info)
          then (setSelected true info, m_selectedFileCount m + 1)
          else (setSelected false info, m_selectedFileCount m - 1) in
        let m := withSelectedCount n m in
        let m := withFiles (QList.replace (Z.to_nat fileIndex) info (m_files m)) m in
        emit selectedFileCountChanged (emit (dataChanged fileIndex) m)
    end.

(** The loops below walk the list with a mutable iterator; each returns the
    rewritten entries together with the signals it emitted. *)

Fixpoint clearSelectedLoop (files : list StatFileInfo) (row : Z)
  : list StatFileInfo * list signal :=
  match files with
  | [] => ([], [])
  | info :: rest =>
      let (fs, sg) := clearSelectedLoop rest (row + 1) in
      (setSelected false info :: fs, dataChanged row :: sg)
  end.

Definition clearSelectedFiles (m : Model) : Model :=
  let (fs, sg) := clearSelectedLoop (m_files m) 0 in
  emit selectedFileCountChanged
       (withSelectedCount 0 (emitAll sg (withFiles fs m))).

Fixpoint selectAllLoop (files : list StatFileInfo) (row n : Z)
  : list StatFileInfo * list signal * Z :=
  match files with
  | [] => ([], [], n)
  | info :: rest =>
      if negb (isMatched info) then
        let '(fs, sg, n') := selectAllLoop rest (row + 1) n in
        (info :: fs, sg, n')
      else
        let '(fs, sg, n') := selectAllLoop rest (row + 1) (n + 1) in
        (setSelected true info :: fs, dataChanged row :: sg, n')
  end.

Definition selectAllFiles (m : Model) : Model :=
  let '(fs, sg, n) := selectAllLoop (m_files m) 0 0 in
  emit selectedFileCountChanged
       (withSelectedCount n (emitAll sg (withFiles fs m))).

Fixpoint selectRangeLoop (firstIndex lastIndex : Z) (selected : bool)
    (files : list StatFileInfo) (row n : Z)
  : list StatFileInfo * list signal * Z :=
  match files with
  | [] => ([], [], n)
  | info :: rest =>
      let change :=
        (row >=? firstIndex) && (row <=? lastIndex) && isMatched info
        && negb (Bool.eqb (isSelected info) selected) in
      let info := if change then setSelected selected info else info in
      let n := if isSelected info then n + 1 else n in
      let '(fs, sg, n') := selectRangeLoop firstIndex lastIndex selected rest (row + 1) n in
      (info :: fs, if change then dataChanged row :: sg else sg, n')
  end.

(** [selectRange] *)
Definition selectRange (firstIndex lastIndex : Z) (selected : bool) (m : Model)
  : Model :=
  if (firstIndex >=? count m) || (firstIndex <? 0)
     || (lastIndex >=? count m) || (lastIndex <? 0) then m
  else
    let '(firstIndex, lastIndex) :=
      if firstIndex >? lastIndex then (lastIndex, firstIndex)
      else (firstIndex, lastIndex) in
    let '(fs, sg, n) := selectRangeLoop firstIndex lastIndex selected (m_files m) 0 0 in
    let m := emitAll sg (withFiles fs m) in
    if negb (n =? m_selectedFileCount m)
    then emit selectedFileCountChanged (withSelectedCount n m)
    else m.

Definition selectedFiles (m : Model) : list string :=
  if m_selectedFileCount m =? 0 then []
  else map absoluteFilePath (filter isSelected (m_files m)).

(** The loop shared by [markSelectedAsDoomed] and [markAsDoomed]: the entries
    chosen by [hit] are doomed and deselected. *)
Fixpoint doomLoop (hit : StatFileInfo -> bool) (files : list StatFileInfo) (i : Z)
  : list StatFileInfo * list signal :=
  match files with
  | [] => ([], [])
  | info :: rest =>
      let (fs, sg) := doomLoop hit rest (i + 1) in
      if hit info
      then (setSelected false (setDoomed true info) :: fs, dataChanged i :: sg)
      else (info :: fs, sg)
  end.

Definition markSelectedAsDoomed (m : Model) : Model :=
  let (fs, sg) := doomLoop isSelected (m_files m) 0 in
  emitAll sg (withFiles fs m).

Definition markAsDoomed (absoluteFilePaths : list string) (m : Model) : Model :=
  let hit info := existsb (String.eqb (absoluteFilePath info)) absoluteFilePaths in
  let (fs, sg) := doomLoop hit (m_files m) 0 in
  emitAll sg (withFiles fs m).

(** [recountSelectedFiles] *)
Definition recountSelectedFiles (m : Model) : Model :=
  let selectedCount := Z.of_nat (List.length (filter isSelected (m_files m))) in
  let matchedCount := Z.of_nat (List.length (filter isMatched (m_files m))) in
  let m := if negb (m_selectedFileCount m =? selectedCount)
           then emit selectedFileCountChanged (withSelectedCount selectedCount m)
           else m in
  if negb (m_matchedFileCount m =? matchedCount)
  then emit filteredFileCountChanged (withMatchedCount matchedCount m)
  else m.

Definition clearModel (m : Model) : Model :=
  emit fileCountChanged (emit modelReset (withFiles [] m)).

Section WithEnvironment.
Variable tr : string -> string.               (* translations *)
Variable engine : string -> string -> bool.   (* see QRegularExpression *)
Variable env : DirEnv.

(** The loop of [applyFilterString]; the result carries the entries, the
    signals, the number of matches and the number of selected entries. *)
Fixpoint filterLoop (hasMatch : string -> bool) (files : list StatFileInfo)
    (row matched n : Z) : list StatFileInfo * list signal * Z * Z :=
  match files with
  | [] => ([], [], matched, n)
  | info :: rest =>
      let match_ := hasMatch (fileName info) in
      let matched := if match_ then matched + 1 else matched in
      let change :=
        negb (Bool.eqb (isMatched info) match_)
        || (negb match_ && isSelected info) in
      let info :=
        if change then
          let info := setFilterMatched match_ info in
          if negb match_ then setSelected false info else info
        else info in
      let n := if isSelected info then n + 1 else n in
      let '(fs, sg, matched', n') := filterLoop hasMatch rest (row + 1) matched n in
      (info :: fs, if change then dataChanged row :: sg else sg, matched', n')
  end.

(** [applyFilterString].  [QString::replace] rewrites the string it is
    called on, so the member itself ends up holding the pattern. *)
Definition applyFilterString (m : Model) : Model :=
  let m := withFilterString
             (QString.replace "*" ".*?"
                (QString.replace "?" "."
                   (QString.replace "." "\." (m_filterString m)))) m in
  let pattern :=
    if QString.isEmpty (m_filterString m) then ".*" else m_filterString m in
  let '(fs, sg, matched, n) :=
    filterLoop (QRegularExpression.hasMatch engine pattern) (m_files m) 0 0 0 in
  let m := emitAll sg (withFiles fs (withMatchedCount matched m)) in
  if negb (n =? m_selectedFileCount m)
  then emit selectedFileCountChanged (withSelectedCount n m)
  else m.

(** [setFilterString]; the slot [applyFilterString] is connected to the
    signal and runs at once. *)
Definition setFilterString (newFilter : string) (m : Model) : Model :=
  applyFilterString (emit filterStringChanged (withFilterString newFilter m)).

Definition readAllEntries (m : Model) : Model :=
  if negb (exists_ env (m_dir m)) then
    withErrorMessage (tr "Folder does not exist") m
  else if negb (isReadable env (m_dir m)) then
    withErrorMessage (tr "No permission to read the folder") m
  else
    applyFilterString (withFiles (m_files m ++ entryInfos env (m_dir m)) m).

Definition readDirectory (m : Model) : Model :=
  let m := withErrorMessage "" (withFiles [] m) in
  let m := if negb (QString.isEmpty (m_dir m)) then readAllEntries m else m in
  recountSelectedFiles
    (emit errorMessageChanged (emit fileCountChanged (emit modelReset m))).

(** The removal loop of [refreshEntries], [i] running from [n - 1] down. *)
Fixpoint removeLoop (newFiles : list StatFileInfo) (n : nat) (m : Model) : Model :=
  match n with
  | O => m
  | S i =>
      match nth_error (m_files m) i with
      | None => m           (* [at(i)] outside the list; [i < count] here *)
      | Some data =>
          if negb (filesContains newFiles data) then
            removeLoop newFiles i
              (emit (rowsRemoved (Z.of_nat i))
                    (withFiles (QList.removeAt i (m_files m)) m))
          else removeLoop newFiles i m
      end
  end.

(** The insertion loop of [refreshEntries], [k] indices left from [i]. *)
Fixpoint insertLoop (newFiles : list StatFileInfo) (k i : nat) (m : Model) : Model :=
  match k with
  | O => m
  | S k' =>
      match nth_error newFiles i with
      | None => m           (* [at(i)] outside the list; [i < count] here *)
      | Some data =>
          if negb (filesContains (m_files m) data) then
            insertLoop newFiles k' (S i)
              (emit (rowsInserted (Z.of_nat i))
                    (withFiles (QList.insert i data (m_files m)) m))
          else insertLoop newFiles k' (S i) m
      end
  end.

(** The two diff loops of [refreshEntries]. *)
Definition reconcile (newFiles : list StatFileInfo) (m : Model) : Model :=
  insertLoop newFiles (List.length newFiles) O
    (removeLoop newFiles (List.length (m_files m)) m).

Definition refreshEntries (m : Model) : Model :=
  let m := withErrorMessage "" m in
  if QString.isEmpty (m_dir m) then
    emit errorMessageChanged (clearModel m)
  else if negb (exists_ env (m_dir m)) then
    emit errorMessageChanged
         (withErrorMessage (tr "Folder does not exist") (clearModel m))
  else if negb (isReadable env (m_dir m)) then
    emit errorMessageChanged
         (withErrorMessage (tr "No permission to read the folder") (clearModel m))
  else
    let newFiles := entryInfos env (m_dir m) in
    let oldFileCount := count m in
    let m := applyFilterString (reconcile newFiles m) in
    let m := if negb (count m =? oldFileCount) then emit fileCountChanged m else m in
    recountSelectedFiles (emit errorMessageChanged m).

Definition refresh (m : Model) : Model :=
  if negb (m_active m) then withDirty true m
  else withDirty false (refreshEntries m).

Definition refreshFull (localPath : string) (m : Model) : Model :=
  if negb (QString.isEmpty localPath) && negb (String.eqb localPath (m_dir m)) then m
  else if negb (m_active m) then withDirty true m
  else withDirty false (readDirectory m).

(** [setDir].  The paths that are there are the directories of [env]. *)
Definition setDir (dir : string) (m : Model) : Model :=
  if String.eqb (m_dir m) dir then m
  else
    let m := if negb (QString.isEmpty (m_dir m))
             then withWatcher
                    (QFileSystemWatcher.removePath (m_dir m) (m_watcher m)) m
             else m in
    let m := if negb (QString.isEmpty dir)
             then withWatcher
                    (QFileSystemWatcher.addPath (exists_ env dir) dir (m_watcher m))
                    m
             else m in
    emit dirChanged (withDirty false (readDirectory (withDir dir m))).

Definition setActive (active : bool) (m : Model) : Model :=
  if Bool.eqb (m_active m) active then m
  else
    let m := emit activeChanged (withActive active m) in
    let m := if m_dirty m then refreshEntries m else m in
    withDirty false m.

End WithEnvironment.

End FileModel.

(** ** The file system the search walks

    A tree of named entries below the root directory.  A symbolic link holds
    the absolute path of its target.  Paths are absolute, with [/] between the
    names.  The entries of a directory stand in the order in which [QDir]
    lists them. *)

Module Fs.

#[local] Unset Elimination Schemes.
Inductive node : Type :=
| File
| Dir (entries : list (string * node))
| SymLink (target : string).
#[local] Set Elimination Schemes.

Fixpoint lookup (name : string) (entries : list (string * node)) : option node :=
  match entries with
  | [] => None
  | (n, x) :: rest => if String.eqb n name then Some x else lookup name rest
  end.

(** The names of a path; [cur] is the name being read. *)
Fixpoint componentsFrom (cur : string) (p : string) : list string :=
  match p with
  | EmptyString => if QString.isEmpty cur then [] else [cur]
  | String c rest =>
      if Ascii.eqb c "/" then
        if QString.isEmpty cur then componentsFrom "" rest
        else cur :: componentsFrom "" rest
      else componentsFrom (String.append cur (String c "")) rest
  end.

Definition components (p : string) : list string := componentsFrom "" p.

(** Path resolution.  [walk] goes down from [cur] along [names]; a link met
    on the way is followed by starting again from the root with [restart],
    the last name only when [follow] is set. *)
Fixpoint walk (restart : list string -> option node) (follow : bool)
    (cur : node) (names : list string) : option node :=
  match names with
  | [] => Some cur
  | name :: rest =>
      match cur with
      | Dir entries =>
          match lookup name entries with
          | None => None
          | Some (SymLink target) =>
              match rest, follow with
              | [], false => Some (SymLink target)
              | _, _ => restart (components target ++ rest)
              end
          | Some x => walk restart follow x rest
          end
      | _ => None
      end
  end.

(** [hops] bounds the number of links followed, as the kernel does. *)
Fixpoint resolve (hops : nat) (root : node) (follow : bool) (names : list string)
  : option node :=
  walk (match hops with
        | O => fun _ => None
        | S h => resolve h root follow
        end) follow root names.

Definition maxHops : nat := 40.

Definition lstat (root : node) (path : string) : option node :=
  resolve maxHops root false (components path).

Definition stat (root : node) (path : string) : option node :=
  resolve maxHops root true (components path).

(** [QFileInfo(path).isSymLink()] *)
Definition isSymLink (root : node) (path : string) : bool :=
  match lstat root path with
  | Some (SymLink _) => true
  | _ => false
  end.

(** [QDir(path).exists()] *)
Definition dirExists (root : node) (path : string) : bool :=
  match stat root path with
  | Some (Dir _) => true
  | _ => false
  end.

(** What an entry is once a link it may be is followed. *)
Definition followed (root : node) (x : node) : option node :=
  match x with
  | SymLink target => stat root target
  | _ => Some x
  end.

Definition listsAsFile (root : node) (x : node) : bool :=
  match followed root x with
  | Some File => true
  | _ => false
  end.

Definition listsAsDir (root : node) (x : node) : bool :=
  match followed root x with
  | Some (Dir _) => true
  | _ => false
  end.

Definition entriesOf (root : node) (path : string) : list (string * node) :=
  match stat root path with
  | Some (Dir entries) => entries
  | _ => []
  end.

(** A name that [QDir] lists only when asked for with [QDir::Hidden]: one
    that starts with a dot. *)
Definition isHidden (name : string) : bool := QString.startsWith name ".".

(** [QDir(path).entryList(QDir::Files)]: the files and the links to files that
    are not hidden, in the order of the directory. *)
Definition entryListFiles (root : node) (path : string) : list string :=
  map fst (filter (fun e => listsAsFile root (snd e) && negb (isHidden (fst e)))
                  (entriesOf root path)).

Definition isDotOrDotDot (name : string) : bool :=
  String.eqb name "." || String.eqb name "..".

(** [QDir(path).entryList(QDir::NoDotAndDotDot | QDir::AllDirs)]: the
    directories and the links to directories that are not hidden. *)
Definition entryListDirs (root : node) (path : string) : list string :=
  map fst (filter (fun e => listsAsDir root (snd e)
                            && negb (isDotOrDotDot (fst e))
                            && negb (isHidden (fst e)))
                  (entriesOf root path)).

Fixpoint endsWithSlash (s : string) : bool :=
  match s with
  | EmptyString => false
  | String c EmptyString => Ascii.eqb c "/"
  | String _ rest => endsWithSlash rest
  end.

(** The path made of [names]. *)
Fixpoint joinPath (names : list string) : string :=
  match names with
  | [] => ""
  | name :: rest => String.append "/" (String.append name (joinPath rest))
  end.

(** A path as [QDir::cleanPath] leaves an absolute one: [/] itself, or a [/]
    and a name for every level, no name being [.] or [..]. *)
Definition isClean (path : string) : bool :=
  forallb (fun name => negb (isDotOrDotDot name)) (components path)
  && (String.eqb path "/"
      || (negb (QString.isEmpty path) && String.eqb path (joinPath (components path)))).

(** [QDir(path).absoluteFilePath(name)] for a [path] that [isClean].  [QDir]
    puts [name] behind the cleaned absolute path of the directory, which for
    such a [path] is [path] itself. *)
Definition absoluteFilePath (path name : string) : string :=
  if endsWithSlash path then String.append path name
  else String.append path (String.append "/" name).

(** A name an entry can bear: not empty, without [/], neither [.] nor [..]. *)
Fixpoint hasSlash (s : string) : bool :=
  match s with
  | EmptyString => false
  | String c rest => Ascii.eqb c "/" || hasSlash rest
  end.

Definition legalName (name : string) : bool :=
  negb (QString.isEmpty name) && negb (hasSlash name) && negb (isDotOrDotDot name).

(** All names of the tree are legal. *)
Fixpoint wellFormed (x : node) : bool :=
  match x with
  | Dir entries =>
      (fix all (l : list (string * node)) : bool :=
         match l with
         | [] => true
         | (name, y) :: rest => legalName name && wellFormed y && all rest
         end) entries
  | _ => true
  end.

(** The number of directory levels below a node. *)
Fixpoint height (x : node) : nat :=
  match x with
  | Dir entries =>
      S ((fix most (l : list (string * node)) : nat :=
            match l with
            | [] => O
            | (_, y) :: rest => Nat.max (height y) (most rest)
            end) entries)
  | _ => O
  end.

(** The number of directory levels below a path; what a search started there
    needs as fuel. *)
Definition depth (root : node) (path : string) : nat :=
  match lstat root path with
  | Some x => height x
  | None => O
  end.

End Fs.

(** ** The search worker (searchworker.cpp) *)

Module SearchWorker.

Inductive signal : Type :=
| progressChanged (directory : string)
| matchFound (fullname : string)
| done
| errorOccurred (message : string) (filename : string).

Record Worker : Type := mkWorker {
  m_directory : string;
  m_searchTerm : string;
  m_currentDirectory : string;
  isRunning : bool;
  cancelAt : option nat;
  log : list (action signal)
}.

Definition withCurrentDirectory (d : string) (w : Worker) : Worker :=
  mkWorker (m_directory w) (m_searchTerm w) d (isRunning w) (cancelAt w) (log w).

Definition record (a : action signal) (w : Worker) : Worker :=
  mkWorker (m_directory w) (m_searchTerm w) (m_currentDirectory w) (isRunning w)
           (cancelAt w) (log w ++ [a]).

Definition emit (s : signal) (w : Worker) : Worker := record (Emit s) w.

(** [m_cancelled.loadAcquire() == Cancelled] *)
Definition loadCancelled (w : Worker) : bool * Worker :=
  let v := flagAt (cancelAt w) (log w) in
  (isCancelled v, record (LoadAcquire v) w).

Section WithFileSystem.
Variable root : Fs.node.

(** [QString::toLower], which folds the case of every letter Unicode knows. *)
Variable toLower : string -> string.

(** [filename.toLower().indexOf(searchTerm) >= 0] *)
Definition nameMatches (filename searchTerm : string) : bool :=
  QString.indexOf (toLower filename) searchTerm >=? 0.

(** The loop over the files; [true] when it returned on cancellation. *)
Fixpoint searchFiles (directory searchTerm : string) (names : list string)
    (w : Worker) : bool * Worker :=
  match names with
  | [] => (false, w)
  | filename :: rest =>
      let (c, w) := loadCancelled w in
      if c then (true, w)
      else
        let fullpath := Fs.absoluteFilePath directory filename in
        let w := if nameMatches filename searchTerm
                 then emit (matchFound fullpath) w else w in
        searchFiles directory searchTerm rest w
  end.

(** The loop over the directories, [recurse] being the recursive call. *)
Fixpoint searchDirs (recurse : string -> string -> Worker -> option (string * Worker))
    (directory searchTerm : string) (names : list string) (w : Worker)
  : option (string * Worker) :=
  match names with
  | [] => Some ("", w)
  | filename :: rest =>
      let (c, w) := loadCancelled w in
      if c then Some ("", w)
      else
        let fullpath := Fs.absoluteFilePath directory filename in
        let w := if nameMatches filename searchTerm
                 then emit (matchFound fullpath) w else w in
        match recurse fullpath searchTerm w with
        | None => None
        | Some (errmsg, w) =>
            if negb (QString.isEmpty errmsg) then Some (errmsg, w)
            else searchDirs recurse directory searchTerm rest w
        end
  end.

(** [searchRecursively]; the result is the error message and the worker,
    or [None] when [fuel] levels of recursion were not enough. *)
Fixpoint searchRecursively (fuel : nat) (directory searchTerm : string)
    (w : Worker) : option (string * Worker) :=
  match fuel with
  | O => None
  | S fuel' =>
      if QString.startsWith directory "/proc"
         || QString.startsWith directory "/sys/block" then Some ("", w)
      else if Fs.isSymLink root directory then Some ("", w)
      else if negb (Fs.dirExists root directory) then Some ("", w)
      else
        let w := withCurrentDirectory directory w in
        let w := emit (progressChanged (m_currentDirectory w)) w in
        let (cancelled, w) :=
          searchFiles directory searchTerm (Fs.entryListFiles root directory) w in
        if cancelled then Some ("", w)
        else searchDirs (searchRecursively fuel') directory searchTerm
                        (Fs.entryListDirs root directory) w
  end.

(** [run] *)
Definition run (fuel : nat) (w : Worker) : option Worker :=
  match searchRecursively fuel (m_directory w) (toLower (m_searchTerm w)) w with
  | None => None
  | Some (errMsg, w) =>
      let w := if negb (QString.isEmpty errMsg)
               then emit (errorOccurred errMsg (m_currentDirectory w)) w
               else w in
      Some (emit done (emit (progressChanged "") w))
  end.

(** [startSearch].  [start()] is the task itself, run to its end; the
    record of the task starts empty, and [cancel] is the moment at which the
    owner cancels this task, if it does. *)
Definition startSearch (tr : string -> string) (fuel : nat) (cancel : option nat)
    (directory searchTerm : string) (w : Worker) : option Worker :=
  if isRunning w then
    Some (emit (errorOccurred (tr "Search already in progress") "") w)
  else if QString.isEmpty directory || QString.isEmpty searchTerm then
    Some (emit (errorOccurred (tr "Bad search parameters") "") w)
  else
    run fuel (mkWorker directory searchTerm directory false cancel []).

End WithFileSystem.

(** The claim that nothing is notified once the flag is set, for a task
    whose flag was set when its record had [k] items. *)
Definition isNotification (a : action signal) : bool :=
  match a with
  | Emit (matchFound _) => true
  | Emit (progressChanged directory) => negb (QString.isEmpty directory)
  | _ => false
  end.

Definition silentFrom (k : nat) (l : list (action signal)) : bool :=
  forallb (fun a => negb (isNotification a)) (skipn k l).

End SearchWorker.

(** ** Sample data *)

Module Sample.

(** A regular file of directory [/tmp/t], as a fresh read reports it. *)
Definition entry (name : string) (bytes : Z) : StatFileInfo :=
  mkInfo (String.append "/tmp/t/" name) name bytes 420 1700000000 1700000000
         false "" false "file" false false false.

Definition a_txt : StatFileInfo := entry "a.txt" 10.
Definition b_txt : StatFileInfo := entry "b.txt" 20.
Definition c_txt : StatFileInfo := entry "c.txt" 15.

(** A directory [/tmp/t] that exists, is readable and lists [l]. *)
Definition listing (l : list StatFileInfo) : FileModelWorker.DirEnv :=
  FileModelWorker.Build_DirEnv
    (fun d => String.eqb d "/tmp/t") (fun d => String.eqb d "/tmp/t")
    (fun d => d) (fun _ => l).

(** A directory that exists but cannot be read. *)
Definition unreadable : FileModelWorker.DirEnv :=
  FileModelWorker.Build_DirEnv
    (fun d => String.eqb d "/tmp/t") (fun _ => false) (fun d => d) (fun _ => []).

Definition noTranslation (s : string) : string := s.

Definition noEngine (pattern subject : string) : bool := false.

(** [QString::toLower] on strings of ASCII characters. *)
Fixpoint asciiLower (s : string) : string :=
  match s with
  | EmptyString => EmptyString
  | String c rest => String (QString.toLowerChar c) (asciiLower rest)
  end.

(** A worker as its constructor leaves it. *)
Definition idle : FileModelWorker.Worker :=
  FileModelWorker.mkWorker false FileModelWorker.NoneMode [] [] "" "" "" false None [].

(** The model of a directory holding "apple", "banana" and "cherry", all
    matched, "cherry" selected. *)
Definition fruit (name : string) (selected : bool) : StatFileInfo :=
  mkInfo (String.append "/tmp/t/" name) name 1 420 1700000000 1700000000
         false "" false "file" selected true false.

Definition fruits : FileModel.Model :=
  FileModel.mkModel "/tmp/t"
    [fruit "apple" false; fruit "banana" false; fruit "cherry" true]
    1 3 "" true false "" ["/tmp/t"] [].

(** A tree with a link back to an ancestor, hidden entries, and the pseudo
    file systems. *)
Definition tree : Fs.node :=
  Fs.Dir
    [("home",
      Fs.Dir [(".cache", Fs.Dir [("a.tmp", Fs.File)]);
              (".a", Fs.File);
              ("abc", Fs.Dir [("notes.txt", Fs.File);
                              ("back", Fs.SymLink "/home");
                              (".back", Fs.SymLink "/home")]);
              ("a.txt", Fs.File)]);
     ("proc", Fs.Dir [("a", Fs.File)]);
     ("sys", Fs.Dir [("block", Fs.Dir [("sda", Fs.Dir [])])])].

Definition searcher : SearchWorker.Worker :=
  SearchWorker.mkWorker "" "" "" false None [].

End Sample.

(** ** Vocabulary of the proofs *)

Section WorkerVocabulary.
Import FileModelWorker.

(** The fields a task never writes after its start, [m_oldEntries] apart. *)
Definition sameTask (w w' : Worker) : Prop :=
  m_cachedDir w' = m_cachedDir w /\ m_mode w' = m_mode w /\
  cancelAt w' = cancelAt w /\ m_settings w' = m_settings w.

(** [w'] continues [w] with the items [d], all of them loads of the flag. *)
Definition loadsOnly (w w' : Worker) : Prop :=
  sameTask w w' /\ m_oldEntries w' = m_oldEntries w /\
  m_finalEntries w' = m_finalEntries w /\
  exists d, log w' = log w ++ d /\ emitted d = [].

(** [w'] continues [w] with loads and edits, and the consumer that applies
    the edits to the list [w] held ends up with the list [w'] holds. *)
Definition editsOnly (w w' : Worker) : Prop :=
  sameTask w w' /\ m_oldEntries w' = m_oldEntries w /\
  exists d, log w' = log w ++ d /\
            Forall (fun s => isEdit s = true) (emitted d) /\
            applyEdits (emitted d) (m_finalEntries w) = m_finalEntries w'.

(** The entries of [newFiles] that the insertion loop adds, as far as [e]
    can tell. *)
Definition addsLike (old : list StatFileInfo) (e : StatFileInfo)
    (l : list StatFileInfo) : bool :=
  existsb (fun d => negb (filesContains old d) && sameEntry d e) l.

(** What [doReadDiff] has emitted when it returns: edits only when it was
    cancelled, and otherwise edits that turn the old entries into the final
    ones, followed by [done]. *)
Definition diffOutcome (env : DirEnv) (w w' : Worker) : Prop :=
  let E := edits w' in
  Forall (fun s => isEdit s = true) E /\
  m_cachedDir w' = m_cachedDir w /\
  (emitted (log w') = E \/
   (emitted (log w') = E ++ [done (m_mode w) (m_finalEntries w')] /\
    applyEdits E (m_oldEntries w) = m_finalEntries w' /\
    sameMembers (m_finalEntries w') (entryInfos env (m_cachedDir w)))) /\
  (cancelAt w = None ->
   emitted (log w') = E ++ [done (m_mode w) (m_finalEntries w')]).

End WorkerVocabulary.

Section ModelVocabulary.
Import FileModel.

(** What the loop of [applyFilterString] does to one entry. *)
Definition refiltered (hasMatch : string -> bool) (info : StatFileInfo)
  : StatFileInfo :=
  let match_ := hasMatch (fileName info) in
  if negb (Bool.eqb (isMatched info) match_) || (negb match_ && isSelected info)
  then
    let info := setFilterMatched match_ info in
    if negb match_ then setSelected false info else info
  else info.

(** The pattern the filter pass matches with. *)
Definition filterPattern (m : Model) : string :=
  let s := QString.replace "*" ".*?"
             (QString.replace "?" "." (QString.replace "." "\." (m_filterString m))) in
  if QString.isEmpty s then ".*" else s.

End ModelVocabulary.

Section FsVocabulary.
Import Fs.

Definition notLink (r : option node) : Prop :=
  forall target, r <> Some (SymLink target).

End FsVocabulary.

Section SearchVocabulary.
Import SearchWorker.

Variable root : Fs.node.

Definition noCancelledLoad (l : list (action signal)) : Prop :=
  ~ In (LoadAcquire Cancelled) l.

Definition onlyCancelledLoads (l : list (action signal)) : Prop :=
  forall a, In a l -> a = LoadAcquire Cancelled.

(** A directory the walk enters: its path is not empty and starts neither
    with the text [/proc] nor with the text [/sys/block] (so [/procedures] is
    left out as well), it is no link, and it is there. *)
Definition entered (p : string) : Prop :=
  p <> "" /\
  QString.startsWith p "/proc" = false /\
  QString.startsWith p "/sys/block" = false /\
  Fs.isSymLink root p = false /\ Fs.dirExists root p = true.

Definition walkSignal (s : signal) : Prop :=
  match s with
  | matchFound _ => True
  | progressChanged p => entered p
  | _ => False
  end.

(** [w'] continues [w] with a walk: notifications and loads that read
    [KeepRunning], then nothing but loads that read [Cancelled]. *)
Definition continues (w w' : Worker) : Prop :=
  cancelAt w' = cancelAt w /\
  exists d1 d2,
    log w' = log w ++ d1 ++ d2 /\
    noCancelledLoad d1 /\ onlyCancelledLoads d2 /\
    (d2 <> [] -> flagAt (cancelAt w) (log w') = Cancelled) /\
    Forall walkSignal (emitted d1).

(** What a walk has emitted since its last check of the flag. *)
Inductive phase : Type := AfterLoad | AfterMatch | AfterProgress.

(** The items a walk that checks the flag at the head of every turn can
    record next: a match right after a check, the progress of a directory
    after a check or after the match that follows a check, a check at any
    time. *)
Definition pollStep (s : phase) (a : action signal) : option phase :=
  match a, s with
  | LoadAcquire _, _ => Some AfterLoad
  | Emit (matchFound _), AfterLoad => Some AfterMatch
  | Emit (progressChanged _), AfterLoad => Some AfterProgress
  | Emit (progressChanged _), AfterMatch => Some AfterProgress
  | _, _ => None
  end.

Fixpoint polls (s : phase) (l : list (action signal)) : option phase :=
  match l with
  | [] => Some s
  | a :: rest =>
      match pollStep s a with
      | Some s' => polls s' rest
      | None => None
      end
  end.

(** Every check in the record of [w] read the flag as it was then. *)
Definition honest (w : Worker) : Prop :=
  forall pre v post,
    log w = pre ++ LoadAcquire v :: post -> v = flagAt (cancelAt w) pre.

(** The number of checks of the flag in a record. *)
Fixpoint loads (l : list (action signal)) : nat :=
  match l with
  | [] => O
  | LoadAcquire _ :: rest => S (loads rest)
  | Emit _ :: rest => loads rest
  end.

(** The number of candidates of the directories whose progress [l] reports:
    the files and the directories each of them lists. *)
Fixpoint candidates (l : list signal) : nat :=
  match l with
  | [] => O
  | progressChanged p :: rest =>
      (List.length (Fs.entryListFiles root p)
       + List.length (Fs.entryListDirs root p) + candidates rest)%nat
  | _ :: rest => candidates rest
  end.

(** What a walk can still emit between the moment the flag is set and its
    next check: one match at most, then the progress of one directory at
    most. *)
Inductive lastNotifications : list (action signal) -> Prop :=
| nothingMore : lastNotifications []
| oneMatch q : lastNotifications [Emit (matchFound q)]
| oneProgress p : lastNotifications [Emit (progressChanged p)]
| matchAndProgress q p :
    lastNotifications [Emit (matchFound q); Emit (progressChanged p)].

End SearchVocabulary.

(** ** Vocabulary of the further properties *)

Section ModelInvariants.
Import FileModel.

(** The published number of selected entries is the number of entries whose
    selected flag is set. *)
Definition selectedCountAgrees (m : Model) : Prop :=
  m_selectedFileCount m = Z.of_nat (List.length (filter isSelected (m_files m))).

(** The published number of matched entries is the number of entries whose
    matched flag is set. *)
Definition matchedCountAgrees (m : Model) : Prop :=
  m_matchedFileCount m = Z.of_nat (List.length (filter isMatched (m_files m))).

(** Only matched entries are selected. *)
Definition selectionWithinMatches (m : Model) : Prop :=
  forall f, In f (m_files m) -> isSelected f = true -> isMatched f = true.

(** What [selectRange] does to the entry [f] of row [row]. *)
Definition rangeSelected (lo hi : Z) (selected : bool) (row : Z) (f : StatFileInfo)
  : StatFileInfo :=
  if (lo <=? row) && (row <=? hi) && isMatched f then setSelected selected f else f.

(** A filter string without any of the three characters that
    [applyFilterString] rewrites. *)
Fixpoint plainFilter (s : string) : bool :=
  match s with
  | EmptyString => true
  | String c rest =>
      negb (Ascii.eqb c ".") && negb (Ascii.eqb c "?") && negb (Ascii.eqb c "*")
      && plainFilter rest
  end.

(** The fields that only [setDir], [setActive], [refresh] and [refreshFull]
    write. *)
Definition sameSwitches (m m' : Model) : Prop :=
  m_dir m' = m_dir m /\ m_active m' = m_active m /\
  m_dirty m' = m_dirty m /\ m_watcher m' = m_watcher m.

End ModelInvariants.

Section TaskRecords.
Context {S : Type}.

(** No load of the flag in [d] read [Cancelled]. *)
Definition keptRunning (d : list (action S)) : Prop :=
  ~ In (LoadAcquire Cancelled) d.

(** The last item of [d] is a load that read [Cancelled], and the only one. *)
Definition stoppedAtCheck (d : list (action S)) : Prop :=
  exists d', d = d' ++ [LoadAcquire Cancelled] /\ keptRunning d'.

End TaskRecords.

Section WorkerStages.
Import FileModelWorker.

(** A stretch of a task from [w] to [w'] that emits edits at most; with
    [continue] the task goes on after it, without it the task has returned. *)
Definition stage (continue : bool) (w w' : Worker) : Prop :=
  cancelAt w' = cancelAt w /\
  exists d, log w' = log w ++ d /\
            Forall (fun s => isEdit s = true) (emitted d) /\
            (if continue then keptRunning d
             else stoppedAtCheck d \/ keptRunning d).

(** The rows of a list with their indices, from [i] on. *)
Fixpoint indexedFrom (i : nat) (l : list StatFileInfo) : list (nat * StatFileInfo) :=
  match l with
  | [] => []
  | e :: rest => (i, e) :: indexedFrom (S i) rest
  end.

(** The edits an uncancelled diff of [old] against [new] emits: removals
    from the bottom up, then insertions from the top down. *)
Definition expectedRemovals (old new : list StatFileInfo) : list signal :=
  map (fun ie => entryRemoved (Z.of_nat (fst ie)) (snd ie))
      (rev (filter (fun ie => negb (filesContains new (snd ie)))
                   (indexedFrom 0 old))).

Definition expectedInsertions (kept new : list StatFileInfo) : list signal :=
  map (fun ie => entryAdded (Z.of_nat (fst ie)) (snd ie))
      (filter (fun ie => negb (filesContains kept (snd ie)))
              (indexedFrom 0 new)).

End WorkerStages.

Section SearchReports.
Import SearchWorker.

Variable root : Fs.node.
Variable toLower : string -> string.

(** [q] is the path of an entry that [p] lists, a file or a directory, whose
    name in lower case contains [term]. *)
Definition listedMatch (term p q : string) : Prop :=
  exists name,
    q = Fs.absoluteFilePath p name /\
    (In name (Fs.entryListFiles root p) \/ In name (Fs.entryListDirs root p)) /\
    nameMatches toLower name term = true.

(** Every match among the signals [l] is a listed match of a directory of
    [ps] or of a directory whose progress [l] reports. *)
Definition matchesAccountedFor (term : string) (ps : list string)
    (l : list signal) : Prop :=
  forall q, In (matchFound q) l ->
            exists p, (In p ps \/ In (progressChanged p) l) /\ listedMatch term p q.

(** The signals [l] report every entry that [p] lists whose name in lower
    case contains [term], and the progress of every directory that [p] lists
    and the walk enters. *)
Definition searchedThrough (term p : string) (l : list signal) : Prop :=
  (forall name,
     In name (Fs.entryListFiles root p) \/ In name (Fs.entryListDirs root p) ->
     nameMatches toLower name term = true ->
     In (matchFound (Fs.absoluteFilePath p name)) l) /\
  (forall name,
     In name (Fs.entryListDirs root p) ->
     entered root (Fs.absoluteFilePath p name) ->
     In (progressChanged (Fs.absoluteFilePath p name)) l).

(** Every directory whose progress [l] reports is searched through in [l]. *)
Definition exhaustive (term : string) (l : list signal) : Prop :=
  forall p, In (progressChanged p) l -> searchedThrough term p l.

End SearchReports.
(** ** Lists and identity: auxiliary facts *)

Section ListFacts.
Context {A : Type}.

Lemma removeAt_middle (l1 : list A) (x : A) (l2 : list A) :
  QList.removeAt (List.length l1) (l1 ++ x :: l2) = l1 ++ l2.
Proof.
  induction l1 as [|y l1 IH]; simpl; [reflexivity|].
  now rewrite IH.
Qed.

Lemma removeAt_outside (i : nat) (l : list A) :
  (List.length l <= i)%nat -> QList.removeAt i l = l.
Proof.
  revert i; induction l as [|x l IH]; intros [|i] H; simpl in *; try reflexivity.
  - lia.
  - rewrite IH by lia; reflexivity.
Qed.

Lemma replace_outside (i : nat) (v : A) (l : list A) :
  (List.length l <= i)%nat -> QList.replace i v l = l.
Proof.
  revert i; induction l as [|x l IH]; intros [|i] H; simpl in *; try reflexivity.
  - lia.
  - rewrite IH by lia; reflexivity.
Qed.

Lemma firstn_snoc_nth (l : list A) (i : nat) (x : A) :
  nth_error l i = Some x -> firstn (S i) l = firstn i l ++ [x].
Proof.
  revert i; induction l as [|y l IH]; intros [|i] H; simpl in *; try discriminate.
  - now inversion H.
  - f_equal. now apply IH.
Qed.

Lemma emitted_app (l1 l2 : list (action A)) :
  emitted (l1 ++ l2) = emitted l1 ++ emitted l2.
Proof.
  induction l1 as [|[s|v] l1 IH]; simpl; [reflexivity| |assumption].
  now rewrite IH.
Qed.
End ListFacts.

Lemma sameEntry_identity (f g : StatFileInfo) :
  sameEntry f g = true <-> identity f = identity g.
Proof.
  unfold sameEntry, identity.
  rewrite !andb_true_iff, String.eqb_eq, !Z.eqb_eq, !Bool.eqb_true_iff.
  split.
  - intros [[[[[-> ->] ->] ->] ->] ->]; reflexivity.
  - intros H; inversion H; repeat split; reflexivity.
Qed.

Lemma sameEntry_refl (f : StatFileInfo) : sameEntry f f = true.
Proof. now apply sameEntry_identity. Qed.

Lemma filesContains_iff (files : list StatFileInfo) (e : StatFileInfo) :
  filesContains files e = true <->
  exists f, In f files /\ identity f = identity e.
Proof.
  induction files as [|f files IH]; simpl.
  - split; [discriminate | intros [f [[] _]]].
  - destruct (sameEntry f e) eqn:E.
    + split; [|reflexivity]. intros _. exists f. split; [now left|].
      now apply sameEntry_identity.
    + rewrite IH. split.
      * intros [g [Hg Hid]]. exists g. split; [now right | assumption].
      * intros [g [[<-|Hg] Hid]].
        -- apply sameEntry_identity in Hid. congruence.
        -- exists g. split; assumption.
Qed.

Lemma filesContains_In (files : list StatFileInfo) (e : StatFileInfo) :
  In e files -> filesContains files e = true.
Proof.
  intros H. apply filesContains_iff. exists e. split; [assumption | reflexivity].
Qed.

Lemma filesContains_app (l1 l2 : list StatFileInfo) (e : StatFileInfo) :
  filesContains (l1 ++ l2) e = filesContains l1 e || filesContains l2 e.
Proof.
  induction l1 as [|f l1 IH]; simpl; [reflexivity|].
  destruct (sameEntry f e); [reflexivity | assumption].
Qed.

Lemma filesContains_insert (i : nat) (v : StatFileInfo) (l : list StatFileInfo)
    (e : StatFileInfo) :
  filesContains (QList.insert i v l) e = sameEntry v e || filesContains l e.
Proof.
  revert i; induction l as [|f l IH]; intros [|i]; simpl; try reflexivity.
  rewrite IH. destruct (sameEntry f e), (sameEntry v e); reflexivity.
Qed.

(** Membership does not see beyond identity. *)
Lemma filesContains_identity (files : list StatFileInfo) (e e' : StatFileInfo) :
  identity e = identity e' -> filesContains files e = filesContains files e'.
Proof.
  intros H.
  destruct (filesContains files e) eqn:E1, (filesContains files e') eqn:E2;
    try reflexivity.
  - apply filesContains_iff in E1 as [f [Hf Hid]].
    assert (filesContains files e' = true) as X
      by (apply filesContains_iff; exists f; split; congruence).
    congruence.
  - apply filesContains_iff in E2 as [f [Hf Hid]].
    assert (filesContains files e = true) as X
      by (apply filesContains_iff; exists f; split; congruence).
    congruence.
Qed.


(** ** The listing worker: what a task leaves behind *)

Section WorkerFacts.
Import FileModelWorker.

Lemma sameTask_refl (w : Worker) : sameTask w w.
Proof. repeat split. Qed.

Lemma sameTask_trans (w1 w2 w3 : Worker) :
  sameTask w1 w2 -> sameTask w2 w3 -> sameTask w1 w3.
Proof. unfold sameTask; intuition congruence. Qed.

Lemma loadsOnly_refl (w : Worker) : loadsOnly w w.
Proof.
  split; [apply sameTask_refl|]. repeat split. exists []. now rewrite app_nil_r.
Qed.

Lemma loadsOnly_trans (w1 w2 w3 : Worker) :
  loadsOnly w1 w2 -> loadsOnly w2 w3 -> loadsOnly w1 w3.
Proof.
  intros (T1 & O1 & F1 & d1 & L1 & E1) (T2 & O2 & F2 & d2 & L2 & E2).
  split; [eapply sameTask_trans; eassumption|].
  repeat split; try congruence.
  exists (d1 ++ d2). rewrite L2, L1, app_assoc. split; [reflexivity|].
  now rewrite emitted_app, E1, E2.
Qed.

#[local] Arguments cancelIfCancelled : simpl never.

Lemma cancelIfCancelled_spec (w : Worker) (c : bool) (w1 : Worker) :
  cancelIfCancelled w = (c, w1) ->
  loadsOnly w w1 /\ (cancelAt w = None -> c = false).
Proof.
  unfold cancelIfCancelled. intros H; inversion H; subst; clear H.
  split.
  - split; [repeat split|]. repeat split. eexists. split; reflexivity.
  - intros H. unfold flagAt. now rewrite H.
Qed.

Lemma loadsOnly_cancelAt (w w' : Worker) :
  loadsOnly w w' -> cancelAt w' = cancelAt w.
Proof. intros H; apply H. Qed.

Lemma applySettings_spec (w : Worker) (ok : bool) (w' : Worker) :
  applySettings w = (ok, w') ->
  loadsOnly w w' /\ (cancelAt w = None -> ok = true).
Proof.
  unfold applySettings.
  destruct (cancelIfCancelled w) as [c1 w1] eqn:E1.
  apply cancelIfCancelled_spec in E1 as [L1 N1].
  destruct c1.
  { intros H; inversion H; subst. split; [assumption|].
    intros X; now specialize (N1 X). }
  destruct (m_settings w1); cbn [negb].
  2:{ intros H; inversion H; subst. split; [assumption | reflexivity]. }
  destruct (cancelIfCancelled w1) as [c2 w2] eqn:E2.
  apply cancelIfCancelled_spec in E2 as [L2 N2].
  rewrite (loadsOnly_cancelAt _ _ L1) in N2.
  pose proof (loadsOnly_trans _ _ _ L1 L2) as L12.
  destruct c2.
  { intros H; inversion H; subst. split; [assumption|].
    intros X; now specialize (N2 X). }
  destruct (cancelIfCancelled w2) as [c3 w3] eqn:E3.
  apply cancelIfCancelled_spec in E3 as [L3 N3].
  rewrite (loadsOnly_cancelAt _ _ L12) in N3.
  pose proof (loadsOnly_trans _ _ _ L12 L3) as L123.
  destruct c3; intros H; inversion H; subst; (split; [assumption|]).
  - intros X; now specialize (N3 X).
  - reflexivity.
Qed.

Lemma readDiffLoop_cons (info : StatFileInfo) (rest newFiles : list StatFileInfo)
    (w : Worker) :
  readDiffLoop (info :: rest) newFiles w =
  let (c, w1) := cancelIfCancelled w in
  if c then (None, w1) else readDiffLoop rest (newFiles ++ [info]) w1.
Proof. reflexivity. Qed.

Lemma readDiffLoop_spec (fileList newFiles : list StatFileInfo) (w : Worker)
    (r : option (list StatFileInfo)) (w' : Worker) :
  readDiffLoop fileList newFiles w = (r, w') ->
  loadsOnly w w' /\
  (forall l, r = Some l -> l = newFiles ++ fileList) /\
  (cancelAt w = None -> r = Some (newFiles ++ fileList)).
Proof.
  revert newFiles w.
  induction fileList as [|info rest IH]; intros newFiles w.
  - simpl. rewrite app_nil_r. intros H; inversion H; subst. split; [|split].
    + apply loadsOnly_refl.
    + intros l X; now inversion X.
    + reflexivity.
  - rewrite readDiffLoop_cons.
    destruct (cancelIfCancelled w) as [c w1] eqn:E1.
    apply cancelIfCancelled_spec in E1 as [L1 N1].
    destruct c.
    + intros H; inversion H; subst.
      split; [assumption | split; [discriminate|]].
      intros X; now specialize (N1 X).
    + intros H. destruct (IH _ _ H) as (L2 & R2 & N2).
      rewrite <- app_assoc in R2, N2. simpl in R2, N2.
      split; [|split].
      * eapply loadsOnly_trans; eassumption.
      * assumption.
      * intros X. apply N2. rewrite (loadsOnly_cancelAt _ _ L1). exact X.
Qed.

Lemma loadsOnly_editsOnly (w w' : Worker) : loadsOnly w w' -> editsOnly w w'.
Proof.
  intros (T & O & F & d & L & E).
  split; [assumption|]. split; [assumption|].
  exists d. rewrite E. split; [assumption|]. split; [constructor|].
  simpl. now symmetry.
Qed.

Lemma applyEdits_app (l1 l2 : list signal) (l : list StatFileInfo) :
  applyEdits (l1 ++ l2) l = applyEdits l2 (applyEdits l1 l).
Proof. unfold applyEdits. apply fold_left_app. Qed.

Lemma editsOnly_trans (w1 w2 w3 : Worker) :
  editsOnly w1 w2 -> editsOnly w2 w3 -> editsOnly w1 w3.
Proof.
  intros (T1 & O1 & d1 & L1 & A1 & E1) (T2 & O2 & d2 & L2 & A2 & E2).
  split; [eapply sameTask_trans; eassumption|].
  split; [congruence|].
  exists (d1 ++ d2). rewrite L2, L1, app_assoc. split; [reflexivity|].
  rewrite emitted_app. split.
  - apply Forall_app; split; assumption.
  - now rewrite applyEdits_app, E1.
Qed.

Lemma editsOnly_cancelAt (w w' : Worker) :
  editsOnly w w' -> cancelAt w' = cancelAt w.
Proof. intros H; apply H. Qed.

Lemma removeLoop_succ (newFiles : list StatFileInfo) (i : nat) (haveRemoved : bool)
    (w : Worker) :
  removeLoop newFiles (S i) haveRemoved w =
  match nth_error (m_oldEntries w) i with
  | None => (None, w)
  | Some data =>
      if negb (filesContains newFiles data) then
        let w1 := withFinal (QList.removeAt i (m_finalEntries w))
                            (emit (entryRemoved (Z.of_nat i) data) w) in
        let (c, w2) := cancelIfCancelled w1 in
        if c then (None, w2) else removeLoop newFiles i true w2
      else removeLoop newFiles i haveRemoved w
  end.
Proof. reflexivity. Qed.

Lemma removal_step (i : nat) (data : StatFileInfo) (w : Worker) :
  editsOnly w (withFinal (QList.removeAt i (m_finalEntries w))
                         (emit (entryRemoved (Z.of_nat i) data) w)).
Proof.
  split; [repeat split|]. split; [reflexivity|].
  exists [Emit (entryRemoved (Z.of_nat i) data)].
  split; [reflexivity|]. split; [repeat constructor|].
  simpl. now rewrite Nat2Z.id.
Qed.

Lemma removeLoop_spec (newFiles : list StatFileInfo) (n : nat) :
  forall (haveRemoved : bool) (w : Worker) (r : option bool) (w' : Worker)
         (rest : list StatFileInfo),
    removeLoop newFiles n haveRemoved w = (r, w') ->
    (n <= List.length (m_oldEntries w))%nat ->
    m_finalEntries w = firstn n (m_oldEntries w) ++ rest ->
    editsOnly w w' /\
    (forall h, r = Some h ->
       m_finalEntries w' =
         filter (filesContains newFiles) (firstn n (m_oldEntries w)) ++ rest /\
       (h = false -> haveRemoved = false /\ m_finalEntries w' = m_finalEntries w)) /\
    (cancelAt w = None -> exists h, r = Some h).
Proof.
  induction n as [|i IH]; intros haveRemoved w r w' rest H Hn Hf.
  - simpl in H. inversion H; subst. split; [|split].
    + apply loadsOnly_editsOnly, loadsOnly_refl.
    + intros h X; inversion X; subst. split; [assumption|]. now split.
    + intros _. now exists haveRemoved.
  - rewrite removeLoop_succ in H.
    destruct (nth_error (m_oldEntries w) i) as [data|] eqn:Hnth.
    2:{ apply nth_error_None in Hnth. lia. }
    rewrite (firstn_snoc_nth _ _ _ Hnth) in Hf |- *.
    rewrite filter_app. simpl filter.
    destruct (filesContains newFiles data) eqn:Hc; cbn [negb] in H.
    + (* kept *)
      rewrite <- app_assoc in Hf. simpl in Hf.
      destruct (IH _ _ _ _ _ H ltac:(lia) Hf) as (E & R & N).
      split; [assumption|]. split; [|assumption].
      intros h X. destruct (R h X) as [R1 R2].
      rewrite <- app_assoc. simpl. split; assumption.
    + (* removed *)
      pose proof (removal_step i data w) as S1.
      set (w1 := withFinal (QList.removeAt i (m_finalEntries w))
                           (emit (entryRemoved (Z.of_nat i) data) w)) in *.
      cbv zeta in H.
      destruct (cancelIfCancelled w1) as [c w2] eqn:E2.
      apply cancelIfCancelled_spec in E2 as [L2 N2].
      assert (editsOnly w w2) as S2
        by (eapply editsOnly_trans; [exact S1 | now apply loadsOnly_editsOnly]).
      destruct c.
      * inversion H; subst. split; [assumption|]. split; [discriminate|].
        intros X. specialize (N2 X). discriminate.
      * assert (m_oldEntries w2 = m_oldEntries w) as HO by apply S2.
        assert (m_finalEntries w2 = firstn i (m_oldEntries w2) ++ rest) as Hf2.
        { destruct L2 as (_ & _ & F2 & _). rewrite F2, HO. unfold w1. simpl.
          rewrite Hf, <- app_assoc. simpl.
          assert (List.length (firstn i (m_oldEntries w)) = i) as Hl
            by (apply firstn_length_le; lia).
          rewrite <- Hl at 1. apply removeAt_middle. }
        destruct (IH _ _ _ _ _ H ltac:(rewrite HO; lia) Hf2) as (E & R & N).
        split; [eapply editsOnly_trans; eassumption|]. split.
        -- intros h X. destruct (R h X) as [R1 R2]. rewrite HO in R1.
           rewrite app_nil_r. split; [assumption|].
           intros Y. destruct (R2 Y); discriminate.
        -- intros X. apply N. now rewrite (editsOnly_cancelAt _ _ S2).
Qed.

Lemma insertLoop_succ (newFiles : list StatFileInfo) (k i : nat) (w : Worker) :
  insertLoop newFiles (S k) i w =
  match nth_error newFiles i with
  | None => (true, w)
  | Some data =>
      if negb (filesContains (m_oldEntries w) data) then
        let w1 := withFinal (QList.insert i data (m_finalEntries w))
                            (emit (entryAdded (Z.of_nat i) data) w) in
        let (c, w2) := cancelIfCancelled w1 in
        if c then (true, w2) else insertLoop newFiles k (S i) w2
      else insertLoop newFiles k (S i) w
  end.
Proof. reflexivity. Qed.

Lemma insertion_step (i : nat) (data : StatFileInfo) (w : Worker) :
  editsOnly w (withFinal (QList.insert i data (m_finalEntries w))
                         (emit (entryAdded (Z.of_nat i) data) w)).
Proof.
  split; [repeat split|]. split; [reflexivity|].
  exists [Emit (entryAdded (Z.of_nat i) data)].
  split; [reflexivity|]. split; [repeat constructor|].
  simpl. now rewrite Nat2Z.id.
Qed.

Lemma skipn_nth_cons {A : Type} (l : list A) (i : nat) (x : A) :
  nth_error l i = Some x -> skipn i l = x :: skipn (S i) l.
Proof.
  revert i; induction l as [|y l IH]; intros [|i] H; simpl in *; try discriminate.
  - now inversion H.
  - now apply IH.
Qed.

Lemma insertLoop_spec (newFiles : list StatFileInfo) (k : nat) :
  forall (i : nat) (w : Worker) (c : bool) (w' : Worker),
    insertLoop newFiles k i w = (c, w') ->
    (i + k <= List.length newFiles)%nat ->
    editsOnly w w' /\
    (c = false ->
     forall e, filesContains (m_finalEntries w') e =
               filesContains (m_finalEntries w) e
               || addsLike (m_oldEntries w) e (firstn k (skipn i newFiles))) /\
    (cancelAt w = None -> c = false).
Proof.
  induction k as [|k IH]; intros i w c w' H Hn.
  - simpl in H. inversion H; subst. split; [|split].
    + apply loadsOnly_editsOnly, loadsOnly_refl.
    + intros _ e. simpl. now rewrite orb_false_r.
    + reflexivity.
  - rewrite insertLoop_succ in H.
    destruct (nth_error newFiles i) as [data|] eqn:Hnth.
    2:{ apply nth_error_None in Hnth. lia. }
    rewrite (skipn_nth_cons _ _ _ Hnth). cbn [firstn].
    destruct (filesContains (m_oldEntries w) data) eqn:Hc; cbn [negb] in H.
    + destruct (IH _ _ _ _ H ltac:(lia)) as (E & R & N).
      split; [assumption|]. split; [|assumption].
      intros X e. rewrite (R X e). unfold addsLike. cbn [existsb].
      now rewrite Hc.
    + pose proof (insertion_step i data w) as S1.
      set (w1 := withFinal (QList.insert i data (m_finalEntries w))
                           (emit (entryAdded (Z.of_nat i) data) w)) in *.
      cbv zeta in H.
      destruct (cancelIfCancelled w1) as [c1 w2] eqn:E2.
      apply cancelIfCancelled_spec in E2 as [L2 N2].
      assert (editsOnly w w2) as S2
        by (eapply editsOnly_trans; [exact S1 | now apply loadsOnly_editsOnly]).
      destruct c1.
      * inversion H; subst. split; [assumption|]. split; [discriminate|].
        intros X. specialize (N2 X). discriminate.
      * destruct (IH _ _ _ _ H ltac:(lia)) as (E & R & N).
        assert (m_oldEntries w2 = m_oldEntries w) as HO by apply S2.
        split; [eapply editsOnly_trans; eassumption|]. split.
        -- intros X e. rewrite (R X e), HO.
           destruct L2 as (_ & _ & F2 & _). rewrite F2. unfold w1. simpl.
           rewrite filesContains_insert. unfold addsLike. cbn [existsb].
           rewrite Hc. cbn [negb andb].
           destruct (sameEntry data e), (filesContains (m_finalEntries w) e);
             reflexivity.
        -- intros X. apply N. now rewrite (editsOnly_cancelAt _ _ S2).
Qed.

(** Membership after both passes: the survivors of [old] together with the
    entries of [new] the survivors do not contain have the members of [new]. *)
Lemma reconciled_members (old new : list StatFileInfo) (e : StatFileInfo) :
  let kept := filter (filesContains new) old in
  filesContains kept e || addsLike kept e new = filesContains new e.
Proof.
  intros kept.
  destruct (filesContains new e) eqn:Hn.
  - apply filesContains_iff in Hn as [d [Hd Hid]].
    destruct (filesContains kept e) eqn:Hk; [reflexivity|]. simpl.
    unfold addsLike. apply existsb_exists. exists d. split; [assumption|].
    rewrite (filesContains_identity kept d e Hid), Hk. simpl.
    now apply sameEntry_identity.
  - apply orb_false_iff. split.
    + destruct (filesContains kept e) eqn:Hk; [|reflexivity].
      apply filesContains_iff in Hk as [f [Hf Hid]].
      apply filter_In in Hf as [_ Hf].
      rewrite (filesContains_identity new f e Hid) in Hf. congruence.
    + unfold addsLike.
      destruct (existsb _ new) eqn:Hx; [|reflexivity].
      apply existsb_exists in Hx as [d [Hd Hde]].
      apply andb_true_iff in Hde as [_ Hde].
      apply sameEntry_identity in Hde.
      assert (filesContains new e = true) as X
        by (apply filesContains_iff; exists d; split; assumption).
      congruence.
Qed.

Lemma filter_all_edits (l : list signal) :
  Forall (fun s => isEdit s = true) l -> filter isEdit l = l.
Proof.
  induction 1 as [|s l Hs _ IH]; simpl; [reflexivity|].
  now rewrite Hs, IH.
Qed.

Lemma cancelled_outcome (env : DirEnv) (w w' : Worker) :
  emitted (log w) = [] -> editsOnly w w' -> cancelAt w <> None ->
  diffOutcome env w w'.
Proof.
  intros H0 (T & O & d & L & A & E) Hc.
  assert (emitted (log w') = emitted d) as Hl
    by (rewrite L, emitted_app, H0; reflexivity).
  unfold diffOutcome, edits. rewrite Hl, (filter_all_edits _ A).
  split; [assumption|]. split; [apply T|]. split; [now left|].
  intros X; contradiction.
Qed.

Lemma doReadDiff_spec (env : DirEnv) (w : Worker) :
  emitted (log w) = [] -> diffOutcome env w (doReadDiff env w).
Proof.
  intros H0. unfold doReadDiff.
  destruct (applySettings w) as [ok w1] eqn:E1.
  apply applySettings_spec in E1 as [L1 N1].
  destruct ok; cbn [negb].
  2:{ apply cancelled_outcome;
        [assumption | now apply loadsOnly_editsOnly |].
      intros X. specialize (N1 X). discriminate. }
  destruct (readDiffLoop (entryInfos env (m_cachedDir w1)) [] w1)
    as [[newFiles|] w2] eqn:E2;
    apply readDiffLoop_spec in E2 as (L2 & R2 & N2).
  2:{ apply cancelled_outcome; [assumption | |].
      - apply loadsOnly_editsOnly. eapply loadsOnly_trans; eassumption.
      - intros X. rewrite (loadsOnly_cancelAt _ _ L1) in N2.
        specialize (N2 X). discriminate. }
  pose proof (loadsOnly_trans _ _ _ L1 L2) as L12.
  specialize (R2 _ eq_refl). simpl in R2. subst newFiles.
  assert (m_cachedDir w1 = m_cachedDir w) as HC1 by apply L1.
  rewrite HC1 in *.
  set (new := entryInfos env (m_cachedDir w)) in *.
  destruct L12 as (T12 & O12 & _ & d12 & Ld12 & Ed12).
  cbv zeta.
  set (w3 := withFinal (m_oldEntries w2) w2).
  assert (emitted (log w3) = []) as H3
    by (unfold w3; simpl; rewrite Ld12, emitted_app, H0, Ed12; reflexivity).
  assert (sameTask w w3) as T3 by exact T12.
  assert (m_oldEntries w3 = m_oldEntries w) as O3 by exact O12.
  destruct (removeLoop new (List.length (m_oldEntries w3)) false w3)
    as [[haveRemoved|] w4] eqn:E4.
  2:{ apply (removeLoop_spec _ _ _ _ _ _ []) in E4 as (S4 & _ & N4);
        [| reflexivity | unfold w3; simpl; now rewrite firstn_all, app_nil_r].
      destruct S4 as (T4 & O4 & d4 & L4 & A4 & _).
      assert (emitted (log w4) = emitted d4) as Hl
        by (rewrite L4, emitted_app, H3; reflexivity).
      unfold diffOutcome, edits. rewrite Hl, (filter_all_edits _ A4).
      split; [assumption|].
      split; [destruct T4 as [-> _]; apply T3|]. split; [now left|].
      intros X. assert (cancelAt w3 = None) as Y
        by (destruct T3 as (_ & _ & -> & _); exact X).
      destruct (N4 Y) as [h Hh]. discriminate. }
  apply (removeLoop_spec _ _ _ _ _ _ []) in E4 as (S4 & R4 & N4);
    [| reflexivity | unfold w3; simpl; now rewrite firstn_all, app_nil_r].
  destruct (R4 _ eq_refl) as [F4 K4]. clear R4 N4.
  rewrite firstn_all, app_nil_r, O3 in F4.
  set (kept := filter (filesContains new) (m_oldEntries w)) in *.
  set (w5 := if haveRemoved then withOld (m_finalEntries w4) w4 else w4).
  assert (m_oldEntries w5 = kept /\ m_finalEntries w5 = kept /\
          log w5 = log w4 /\ sameTask w4 w5) as (O5 & F5 & L5 & T5).
  { unfold w5. destruct haveRemoved; simpl.
    - repeat split; assumption.
    - destruct (K4 eq_refl) as [_ K]. rewrite F4 in K.
      assert (m_oldEntries w4 = m_oldEntries w3) as X by apply S4.
      rewrite X, O3. unfold w3 in K. simpl in K. rewrite O12 in K.
      repeat split; try assumption. congruence. }
  destruct (insertLoop new (List.length new) 0 w5) as [c w6] eqn:E6.
  apply insertLoop_spec in E6 as (S6 & R6 & N6); [|simpl; lia].
  (* what has been emitted from [w3] on *)
  destruct S4 as (T4 & O4 & d4 & L4 & A4 & Ap4).
  destruct S6 as (T6 & O6 & d6 & L6 & A6 & Ap6).
  assert (emitted (log w6) = emitted d4 ++ emitted d6) as Hl6
    by (rewrite L6, L5, L4, !emitted_app, H3; reflexivity).
  assert (Forall (fun s => isEdit s = true) (emitted d4 ++ emitted d6)) as A46
    by (apply Forall_app; split; assumption).
  assert (m_cachedDir w6 = m_cachedDir w) as HC6.
  { destruct T6 as [-> _], T5 as [-> _], T4 as [-> _]. apply T3. }
  assert (cancelAt w6 = cancelAt w) as HK6.
  { destruct T6 as (_ & _ & -> & _), T5 as (_ & _ & -> & _),
             T4 as (_ & _ & -> & _). apply T3. }
  assert (m_mode w6 = m_mode w) as HM6.
  { destruct T6 as (_ & -> & _), T5 as (_ & -> & _), T4 as (_ & -> & _).
    apply T3. }
  destruct c.
  { unfold diffOutcome, edits. rewrite Hl6, (filter_all_edits _ A46).
    split; [assumption|]. split; [assumption|]. split; [now left|].
    intros X. assert (cancelAt w5 = None) as Y.
    { destruct T5 as (_ & _ & -> & _), T4 as (_ & _ & -> & _).
      destruct T3 as (_ & _ & -> & _). exact X. }
    specialize (N6 Y). discriminate. }
  destruct (cancelIfCancelled w6) as [c' w7] eqn:E7.
  apply cancelIfCancelled_spec in E7 as [L7 N7].
  destruct L7 as (T7 & O7 & F7 & d7 & L7 & E7).
  assert (emitted (log w7) = emitted d4 ++ emitted d6) as Hl7
    by (rewrite L7, emitted_app, E7, app_nil_r; exact Hl6).
  assert (m_cachedDir w7 = m_cachedDir w) as HC7
    by (destruct T7 as [-> _]; exact HC6).
  destruct c'.
  { unfold diffOutcome, edits. rewrite Hl7, (filter_all_edits _ A46).
    split; [assumption|]. split; [assumption|]. split; [now left|].
    intros X. rewrite HK6 in N7. specialize (N7 X). discriminate. }
  assert (m_mode w7 = m_mode w) as HM7
    by (destruct T7 as (_ & -> & _); exact HM6).
  assert (emitted (log (emit (done (m_mode w7) (m_finalEntries w7)) w7)) =
          (emitted d4 ++ emitted d6) ++ [done (m_mode w) (m_finalEntries w7)]) as Hl8
    by (simpl; rewrite emitted_app, Hl7, HM7; reflexivity).
  assert (emitted (log (emit (done (m_mode w7) (m_finalEntries w7)) w7)) =
          edits (emit (done (m_mode w7) (m_finalEntries w7)) w7)
          ++ [done (m_mode w) (m_finalEntries w7)]) as Hl9.
  { unfold edits. rewrite Hl8, filter_app, (filter_all_edits _ A46).
    simpl. now rewrite app_nil_r. }
  unfold diffOutcome.
  assert (edits (emit (done (m_mode w7) (m_finalEntries w7)) w7)
          = emitted d4 ++ emitted d6) as HE.
  { unfold edits. rewrite Hl8, filter_app, (filter_all_edits _ A46).
    simpl. now rewrite app_nil_r. }
  rewrite HE.
  split; [assumption|]. split; [exact HC7|]. split; [|intros _; exact Hl8].
  right. split; [exact Hl8|]. cbn [m_finalEntries emit record].
  split.
  - rewrite applyEdits_app, F7, <- Ap6, F5, <- F4, <- Ap4.
    unfold w3. simpl. now rewrite O12.
  - intros e. rewrite F7, (R6 eq_refl e), F5, O5.
    rewrite skipn_O, firstn_all. apply reconciled_members.
Qed.

End WorkerFacts.

(** ** The listing worker: a listing that has not changed *)

Section WorkerQuiet.
Import FileModelWorker.

#[local] Arguments cancelIfCancelled : simpl never.

Lemma removeLoop_keeps_all (newFiles : list StatFileInfo) (n : nat)
    (haveRemoved : bool) (w : Worker) :
  (forall d, In d (m_oldEntries w) -> filesContains newFiles d = true) ->
  (n <= List.length (m_oldEntries w))%nat ->
  removeLoop newFiles n haveRemoved w = (Some haveRemoved, w).
Proof.
  intros Hall. induction n as [|i IH]; intros Hn; [reflexivity|].
  rewrite removeLoop_succ.
  destruct (nth_error (m_oldEntries w) i) as [data|] eqn:Hnth.
  2:{ apply nth_error_None in Hnth. lia. }
  rewrite (Hall data (nth_error_In _ _ Hnth)). cbn [negb].
  apply IH. lia.
Qed.

Lemma insertLoop_adds_none (newFiles : list StatFileInfo) (k : nat) :
  forall (i : nat) (w : Worker),
    (forall d, In d newFiles -> filesContains (m_oldEntries w) d = true) ->
    (i + k <= List.length newFiles)%nat ->
    insertLoop newFiles k i w = (false, w).
Proof.
  induction k as [|k IH]; intros i w Hall Hn; [reflexivity|].
  rewrite insertLoop_succ.
  destruct (nth_error newFiles i) as [data|] eqn:Hnth.
  2:{ apply nth_error_None in Hnth. lia. }
  rewrite (Hall data (nth_error_In _ _ Hnth)). cbn [negb].
  apply IH; [assumption | lia].
Qed.

(** When each side contains the entries of the other, the task emits nothing
    but, unless cancelled, [done] with the old entries. *)
Lemma doReadDiff_quiet (env : DirEnv) (w : Worker) :
  emitted (log w) = [] ->
  (forall d, In d (m_oldEntries w) ->
             filesContains (entryInfos env (m_cachedDir w)) d = true) ->
  (forall d, In d (entryInfos env (m_cachedDir w)) ->
             filesContains (m_oldEntries w) d = true) ->
  emitted (log (doReadDiff env w)) = [] \/
  emitted (log (doReadDiff env w)) = [done (m_mode w) (m_oldEntries w)].
Proof.
  intros H0 Hold Hnew. unfold doReadDiff.
  destruct (applySettings w) as [ok w1] eqn:E1.
  apply applySettings_spec in E1 as [L1 _].
  destruct L1 as ((C1 & M1 & _) & O1 & F1 & d1 & Ld1 & Ed1).
  destruct ok; cbn [negb].
  2:{ left. now rewrite Ld1, emitted_app, H0, Ed1. }
  destruct (readDiffLoop (entryInfos env (m_cachedDir w1)) [] w1)
    as [[newFiles|] w2] eqn:E2;
    apply readDiffLoop_spec in E2 as (L2 & R2 & _);
    destruct L2 as ((C2 & M2 & _) & O2 & F2 & d2 & Ld2 & Ed2).
  2:{ left. now rewrite Ld2, Ld1, !emitted_app, H0, Ed1, Ed2. }
  specialize (R2 _ eq_refl). simpl in R2. subst newFiles.
  rewrite C1. cbv zeta.
  set (new := entryInfos env (m_cachedDir w)) in *.
  set (w3 := withFinal (m_oldEntries w2) w2).
  assert (m_oldEntries w3 = m_oldEntries w) as O3
    by (unfold w3; simpl; congruence).
  rewrite removeLoop_keeps_all; [|rewrite O3; exact Hold | reflexivity].
  rewrite insertLoop_adds_none; [|rewrite O3; exact Hnew | simpl; lia].
  assert (emitted (log w3) = []) as H3
    by (unfold w3; simpl; rewrite Ld2, Ld1, !emitted_app, H0, Ed1, Ed2;
        reflexivity).
  destruct (cancelIfCancelled w3) as [c w4] eqn:E4.
  apply cancelIfCancelled_spec in E4 as [L4 _].
  destruct L4 as ((C4 & M4 & _) & O4 & F4 & d4 & Ld4 & Ed4).
  destruct c.
  - left. now rewrite Ld4, emitted_app, H3, Ed4.
  - right. simpl. rewrite !emitted_app, Ld4, emitted_app, H3, Ed4. simpl.
    rewrite M4, F4. unfold w3. simpl. now rewrite M2, M1, O2, O1.
Qed.

End WorkerQuiet.

(** ** The directory model: the diff of [refreshEntries] *)

Section ModelFacts.
Import FileModel.

Variable tr : string -> string.
Variable engine : string -> string -> bool.
Variable env : FileModelWorker.DirEnv.

Lemma model_removeLoop_succ (newFiles : list StatFileInfo) (i : nat) (m : Model) :
  removeLoop newFiles (S i) m =
  match nth_error (m_files m) i with
  | None => m
  | Some data =>
      if negb (filesContains newFiles data) then
        removeLoop newFiles i
          (emit (rowsRemoved (Z.of_nat i))
                (withFiles (QList.removeAt i (m_files m)) m))
      else removeLoop newFiles i m
  end.
Proof. reflexivity. Qed.

Lemma model_insertLoop_succ (newFiles : list StatFileInfo) (k i : nat) (m : Model) :
  insertLoop newFiles (S k) i m =
  match nth_error newFiles i with
  | None => m
  | Some data =>
      if negb (filesContains (m_files m) data) then
        insertLoop newFiles k (S i)
          (emit (rowsInserted (Z.of_nat i))
                (withFiles (QList.insert i data (m_files m)) m))
      else insertLoop newFiles k (S i) m
  end.
Proof. reflexivity. Qed.

Lemma nth_error_middle {A : Type} (l1 : list A) (x : A) (l2 : list A) :
  nth_error (l1 ++ x :: l2) (List.length l1) = Some x.
Proof. induction l1; simpl; [reflexivity | assumption]. Qed.

Lemma model_removeLoop_files (newFiles : list StatFileInfo) (front : list StatFileInfo) :
  forall (rest : list StatFileInfo) (m : Model),
    m_files m = front ++ rest ->
    m_files (removeLoop newFiles (List.length front) m) =
    filter (filesContains newFiles) front ++ rest.
Proof.
  induction front as [|data front IH] using rev_ind; intros rest m Hm.
  - simpl. assumption.
  - rewrite length_app, Nat.add_comm. cbn [List.length Nat.add].
    rewrite model_removeLoop_succ.
    rewrite <- app_assoc in Hm. cbn [app] in Hm.
    rewrite Hm, nth_error_middle.
    rewrite filter_app. cbn [filter].
    destruct (filesContains newFiles data); cbn [negb].
    + rewrite (IH (data :: rest) m Hm), <- app_assoc. reflexivity.
    + rewrite app_nil_r. apply IH. simpl. apply removeAt_middle.
Qed.

Lemma model_insertLoop_files (newFiles : list StatFileInfo) (k : nat) :
  forall (i : nat) (m : Model) (e : StatFileInfo),
    (i + k <= List.length newFiles)%nat ->
    filesContains (m_files (insertLoop newFiles k i m)) e =
    filesContains (m_files m) e
    || filesContains (firstn k (skipn i newFiles)) e.
Proof.
  induction k as [|k IH]; intros i m e Hn.
  - simpl. now rewrite orb_false_r.
  - rewrite model_insertLoop_succ.
    destruct (nth_error newFiles i) as [data|] eqn:Hnth.
    2:{ apply nth_error_None in Hnth. lia. }
    rewrite (skipn_nth_cons _ _ _ Hnth). cbn [firstn filesContains].
    destruct (filesContains (m_files m) data) eqn:Hc; cbn [negb].
    + rewrite IH by lia.
      destruct (sameEntry data e) eqn:Hs; [|reflexivity].
      apply sameEntry_identity in Hs.
      rewrite <- (filesContains_identity (m_files m) data e Hs), Hc.
      reflexivity.
    + rewrite IH by lia. simpl. rewrite filesContains_insert.
      destruct (sameEntry data e), (filesContains (m_files m) e); reflexivity.
Qed.

(** After the two loops the model holds the members of the fresh listing. *)
Lemma reconcile_members (newFiles : list StatFileInfo) (m : Model) :
  sameMembers (m_files (reconcile newFiles m)) newFiles.
Proof.
  intros e. unfold reconcile.
  rewrite model_insertLoop_files by (simpl; lia).
  rewrite skipn_O, firstn_all.
  rewrite (model_removeLoop_files newFiles (m_files m) [] m)
    by (now rewrite app_nil_r).
  rewrite app_nil_r.
  destruct (filesContains newFiles e) eqn:Hn; [apply orb_true_r|].
  rewrite orb_false_r.
  destruct (filesContains (filter (filesContains newFiles) (m_files m)) e)
    eqn:Hk; [|reflexivity].
  apply filesContains_iff in Hk as [f [Hf Hid]].
  apply filter_In in Hf as [_ Hf].
  rewrite (filesContains_identity newFiles f e Hid) in Hf. congruence.
Qed.

(** *** The filter pass *)

Lemma refiltered_matched hasMatch info :
  isMatched (refiltered hasMatch info) = hasMatch (fileName info).
Proof.
  unfold refiltered.
  destruct (hasMatch (fileName info)) eqn:E1, (isMatched info) eqn:E2,
           (isSelected info) eqn:E3; simpl; first [reflexivity | congruence].
Qed.

Lemma refiltered_selected hasMatch info :
  isSelected (refiltered hasMatch info) =
  isSelected info && hasMatch (fileName info).
Proof.
  unfold refiltered.
  destruct (hasMatch (fileName info)) eqn:E1, (isMatched info) eqn:E2,
           (isSelected info) eqn:E3; simpl; first [reflexivity | congruence].
Qed.

Lemma refiltered_identity hasMatch info :
  identity (refiltered hasMatch info) = identity info.
Proof.
  unfold refiltered.
  destruct (hasMatch (fileName info)) eqn:E1, (isMatched info) eqn:E2,
           (isSelected info) eqn:E3; simpl; first [reflexivity | congruence].
Qed.

Lemma refiltered_doomed hasMatch info :
  isDoomed (refiltered hasMatch info) = isDoomed info.
Proof.
  unfold refiltered.
  destruct (hasMatch (fileName info)) eqn:E1, (isMatched info) eqn:E2,
           (isSelected info) eqn:E3; simpl; first [reflexivity | congruence].
Qed.

Lemma filterLoop_cons hasMatch info rest row matched n :
  filterLoop hasMatch (info :: rest) row matched n =
  let match_ := hasMatch (fileName info) in
  let matched := if match_ then matched + 1 else matched in
  let change :=
    negb (Bool.eqb (isMatched info) match_) || (negb match_ && isSelected info) in
  let info' := refiltered hasMatch info in
  let n := if isSelected info' then n + 1 else n in
  let '(fs, sg, matched', n') := filterLoop hasMatch rest (row + 1) matched n in
  (info' :: fs, if change then dataChanged row :: sg else sg, matched', n').
Proof. reflexivity. Qed.

Lemma filterLoop_spec hasMatch files :
  forall row matched n fs sg matched' n',
    filterLoop hasMatch files row matched n = (fs, sg, matched', n') ->
    fs = map (refiltered hasMatch) files /\
    matched' = matched
               + Z.of_nat (List.length
                             (filter (fun f => hasMatch (fileName f)) files)) /\
    n' = n + Z.of_nat (List.length (filter isSelected fs)).
Proof.
  induction files as [|info rest IH]; intros row matched n fs sg matched' n' H.
  - simpl in H. inversion H; subst. simpl. repeat split; lia.
  - rewrite filterLoop_cons in H. cbv zeta in H.
    destruct (filterLoop hasMatch rest (row + 1)
                (if hasMatch (fileName info) then matched + 1 else matched)
                (if isSelected (refiltered hasMatch info) then n + 1 else n))
      as [[[fs0 sg0] m0] n0] eqn:E.
    inversion H; subst; clear H.
    destruct (IH _ _ _ _ _ _ _ E) as (-> & -> & ->).
    split; [reflexivity|]. cbn [map filter].
    destruct (hasMatch (fileName info)),
             (isSelected (refiltered hasMatch info));
      cbn [List.length]; split; lia.
Qed.

Lemma filterLoop_signals hasMatch files :
  forall row matched n fs sg matched' n',
    filterLoop hasMatch files row matched n = (fs, sg, matched', n') ->
    forall s, In s sg -> exists r, s = dataChanged r.
Proof.
  induction files as [|info rest IH];
    intros row matched n fs sg matched' n' H s Hs.
  - simpl in H. inversion H; subst. destruct Hs.
  - rewrite filterLoop_cons in H. cbv zeta in H.
    destruct (filterLoop hasMatch rest (row + 1)
                (if hasMatch (fileName info) then matched + 1 else matched)
                (if isSelected (refiltered hasMatch info) then n + 1 else n))
      as [[[fs0 sg0] m0] n0] eqn:E.
    inversion H; subst; clear H.
    destruct (negb _ || _).
    + destruct Hs as [<-|Hs]; [now eexists|]. eapply IH; eassumption.
    + eapply IH; eassumption.
Qed.

Lemma filesContains_map_identity (g : StatFileInfo -> StatFileInfo)
    (l : list StatFileInfo) (e : StatFileInfo) :
  (forall f, identity (g f) = identity f) ->
  filesContains (map g l) e = filesContains l e.
Proof.
  intros Hg. induction l as [|f l IH]; simpl; [reflexivity|].
  rewrite IH.
  assert (sameEntry (g f) e = sameEntry f e) as ->; [|reflexivity].
  destruct (sameEntry f e) eqn:E1, (sameEntry (g f) e) eqn:E2; try reflexivity.
  - apply sameEntry_identity in E1. rewrite <- Hg in E1.
    apply sameEntry_identity in E1. congruence.
  - apply sameEntry_identity in E2. rewrite Hg in E2.
    apply sameEntry_identity in E2. congruence.
Qed.

(** [applyFilterString], field by field. *)
Lemma applyFilterString_spec (m : Model) :
  let hasMatch := QRegularExpression.hasMatch engine (filterPattern m) in
  let m' := applyFilterString engine m in
  m_files m' = map (refiltered hasMatch) (m_files m) /\
  m_matchedFileCount m' =
    Z.of_nat (List.length (filter (fun f => hasMatch (fileName f)) (m_files m))) /\
  m_selectedFileCount m' =
    Z.of_nat (List.length (filter isSelected (m_files m'))) /\
  m_dir m' = m_dir m /\
  (forall s, In s (signals m') -> In s (signals m) \/ s = selectedFileCountChanged
                                  \/ exists row, s = dataChanged row).
Proof.
  cbv zeta. unfold applyFilterString, filterPattern. cbv zeta.
  cbn [m_filterString withFilterString m_files].
  set (pattern := if QString.isEmpty _ then ".*" else _).
  destruct (filterLoop (QRegularExpression.hasMatch engine pattern) (m_files m) 0 0 0)
    as [[[fs sg] matched] n] eqn:E.
  destruct (filterLoop_spec _ _ _ _ _ _ _ _ _ E) as (Hfs & Hm & Hn).
  pose proof (filterLoop_signals _ _ _ _ _ _ _ _ _ E) as Hsg.
  cbn [m_selectedFileCount emitAll withFiles withMatchedCount withFilterString].
  destruct (n =? m_selectedFileCount m) eqn:En; cbn [negb].
  - apply Z.eqb_eq in En. simpl. repeat split; try assumption; try lia.
    intros s Hs. apply in_app_or in Hs as [Hs|Hs]; [now left|].
    right; right. now apply Hsg.
  - simpl. repeat split; try assumption; try lia.
    intros s Hs. apply in_app_or in Hs as [Hs|Hs].
    + apply in_app_or in Hs as [Hs|Hs]; [now left|].
      right; right. now apply Hsg.
    + right; left. destruct Hs as [<-|[]]. reflexivity.
Qed.

End ModelFacts.

(** ** The diff-mode read, from start to [done] *)

Section WorkerClaims.
Import FileModelWorker.

Lemma run_diff (tr : string -> string) (env : DirEnv) (w : Worker) :
  m_mode w = DiffMode -> emitted (log w) = [] -> m_dir w <> "" ->
  exists_ env (m_dir w) = true -> isReadable env (m_dir w) = true ->
  exists w1, m_oldEntries w1 = m_oldEntries w /\ cancelAt w1 = cancelAt w /\
             diffOutcome env w1 (run tr env w) /\ m_mode w1 = DiffMode /\
             emitted (log w1) = [] /\
             run tr env w = doReadDiff env w1.
Proof.
  intros Hm H0 Hd He Hr. unfold run, verifyOrAbort.
  apply String.eqb_neq in Hd. rewrite Hd, He, Hr. cbn [negb].
  set (w1 := if negb _ then withCachedDir (m_dir w) w else w).
  assert (m_mode w1 = DiffMode /\ m_oldEntries w1 = m_oldEntries w /\
          cancelAt w1 = cancelAt w /\ log w1 = log w) as (M1 & O1 & C1 & L1)
    by (unfold w1; destruct (negb _); simpl; repeat split; assumption).
  rewrite M1. exists w1.
  split; [assumption|]. split; [assumption|].
  split; [apply doReadDiff_spec; now rewrite L1|].
  split; [assumption|]. split; [now rewrite L1 | reflexivity].
Qed.

Lemma run_aborts (tr : string -> string) (env : DirEnv) (w : Worker) :
  log w = [] ->
  (m_dir w = "" ->
   run tr env w = emit (error "Internal worker error: empty directory name") w) /\
  (m_dir w <> "" -> exists_ env (m_dir w) = false ->
   run tr env w = emit (error (tr "Folder does not exist")) w) /\
  (m_dir w <> "" -> exists_ env (m_dir w) = true ->
   isReadable env (m_dir w) = false ->
   run tr env w = emit (error (tr "No permission to read the folder")) w).
Proof.
  intros _. unfold run, verifyOrAbort. repeat split.
  - intros ->. reflexivity.
  - intros Hd He. apply String.eqb_neq in Hd. now rewrite Hd, He.
  - intros Hd He Hr. apply String.eqb_neq in Hd. now rewrite Hd, He, Hr.
Qed.

Lemma done_not_edit (l : list signal) (mode : Mode) (entries : list StatFileInfo) :
  Forall (fun s => isEdit s = true) l -> ~ In (done mode entries) l.
Proof.
  intros H Hin. rewrite Forall_forall in H. specialize (H _ Hin). discriminate.
Qed.

Lemma Forall2_contains (old new : list StatFileInfo) :
  Forall2 (fun a b => sameEntry a b = true) old new ->
  (forall d, In d old -> filesContains new d = true) /\
  (forall d, In d new -> filesContains old d = true).
Proof.
  induction 1 as [|a b old new Hab _ [IH1 IH2]].
  - split; intros d [].
  - apply sameEntry_identity in Hab. split; intros d [<-|Hd].
    + apply filesContains_iff. exists b. split; [now left | now symmetry].
    + simpl. destruct (sameEntry b d); [reflexivity | now apply IH1].
    + apply filesContains_iff. exists a. split; [now left | assumption].
    + simpl. destruct (sameEntry a d); [reflexivity | now apply IH2].
Qed.

Lemma Forall2_same (l : list StatFileInfo) :
  Forall2 (fun a b => sameEntry a b = true) l l.
Proof. induction l; constructor; [apply sameEntry_refl | assumption]. Qed.

(** A diff-mode task on entries that the fresh listing matches pairwise. *)
Lemma startReadChanged_quiet (tr : string -> string) (env : DirEnv)
    (cancel : option nat) (old : list StatFileInfo) (dir nameFilter : string)
    (settings : bool) (w : Worker) :
  isRunning w = false ->
  let w' := startReadChanged tr env cancel old dir nameFilter settings w in
  Forall2 (fun a b => sameEntry a b = true) old (entryInfos env (m_cachedDir w')) ->
  edits w' = [].
Proof.
  intros Hrun w' Hall. subst w'.
  unfold startReadChanged, doStartThread in *. rewrite Hrun in *.
  set (w0 := mkWorker settings DiffMode [] old dir nameFilter (m_cachedDir w)
                      false cancel []) in *.
  destruct (run_aborts tr env w0 eq_refl) as (A1 & A2 & A3).
  destruct (String.eqb dir "") eqn:Hd.
  { apply String.eqb_eq in Hd. unfold edits. now rewrite (A1 Hd). }
  apply String.eqb_neq in Hd.
  destruct (exists_ env dir) eqn:He.
  2:{ unfold edits. now rewrite (A2 Hd He). }
  destruct (isReadable env dir) eqn:Hr.
  2:{ unfold edits. now rewrite (A3 Hd He Hr). }
  destruct (run_diff tr env w0 eq_refl eq_refl Hd He Hr)
    as (w1 & O1 & C1 & D1 & M1 & L1 & R1).
  assert (m_cachedDir (run tr env w0) = m_cachedDir w1) as HC by apply D1.
  rewrite HC in Hall. rewrite R1.
  apply Forall2_contains in Hall as [H1 H2].
  unfold edits.
  destruct (doReadDiff_quiet env w1 L1) as [-> | ->];
    try reflexivity; rewrite O1; assumption.
Qed.

End WorkerClaims.

(** ** The directory model: [refreshEntries] *)

Section ModelRefresh.
Import FileModel.

Variable tr : string -> string.
Variable engine : string -> string -> bool.
Variable env : FileModelWorker.DirEnv.

Lemma model_removeLoop_keeps_all (newFiles : list StatFileInfo) (n : nat) (m : Model) :
  (forall d, In d (m_files m) -> filesContains newFiles d = true) ->
  removeLoop newFiles n m = m.
Proof.
  intros Hall. induction n as [|i IH]; [reflexivity|].
  rewrite model_removeLoop_succ.
  destruct (nth_error (m_files m) i) as [data|] eqn:Hnth; [|reflexivity].
  rewrite (Hall data (nth_error_In _ _ Hnth)). exact IH.
Qed.

Lemma model_insertLoop_adds_none (newFiles : list StatFileInfo) (k : nat) :
  forall (i : nat) (m : Model),
    (forall d, In d newFiles -> filesContains (m_files m) d = true) ->
    insertLoop newFiles k i m = m.
Proof.
  induction k as [|k IH]; intros i m Hall; [reflexivity|].
  rewrite model_insertLoop_succ.
  destruct (nth_error newFiles i) as [data|] eqn:Hnth; [|reflexivity].
  rewrite (Hall data (nth_error_In _ _ Hnth)). now apply IH.
Qed.

Lemma reconcile_quiet (newFiles : list StatFileInfo) (m : Model) :
  Forall2 (fun a b => sameEntry a b = true) (m_files m) newFiles ->
  reconcile newFiles m = m.
Proof.
  intros H. apply Forall2_contains in H as [H1 H2]. unfold reconcile.
  rewrite model_removeLoop_keeps_all by assumption.
  now apply model_insertLoop_adds_none.
Qed.

Lemma recountSelectedFiles_files (m : Model) :
  m_files (recountSelectedFiles m) = m_files m.
Proof.
  unfold recountSelectedFiles.
  destruct (negb (m_selectedFileCount m =? _)); simpl;
    destruct (negb (_ =? _)); reflexivity.
Qed.

Lemma refreshEntries_members (m : Model) :
  m_dir m <> "" ->
  FileModelWorker.exists_ env (m_dir m) = true ->
  FileModelWorker.isReadable env (m_dir m) = true ->
  sameMembers (m_files (refreshEntries tr engine env m))
              (FileModelWorker.entryInfos env (m_dir m)).
Proof.
  intros Hd He Hr e. unfold refreshEntries.
  cbn [m_dir withErrorMessage].
  destruct (m_dir m) as [|c s] eqn:Hdir; [contradiction|].
  cbn [QString.isEmpty]. rewrite He, Hr. cbn [negb]. cbv zeta.
  rewrite recountSelectedFiles_files.
  set (m1 := applyFilterString engine _).
  assert (m_files (emit errorMessageChanged
                     (if negb (count m1 =? count (withErrorMessage "" m))
                      then emit fileCountChanged m1 else m1)) = m_files m1) as ->
    by (destruct (negb _); reflexivity).
  unfold m1.
  destruct (applyFilterString_spec engine
              (reconcile (FileModelWorker.entryInfos env (String c s))
                         (withErrorMessage "" m))) as (-> & _).
  rewrite filesContains_map_identity by apply refiltered_identity.
  apply reconcile_members.
Qed.

End ModelRefresh.

(** ** The claims about the diff *)

Section DiffClaims.
Import FileModelWorker.

(** C1 (diff correctness).  A diff-mode read that reaches [done] has emitted
    edits which, applied in order to the old entries, give the list that
    [done] carries, the worker's [m_finalEntries]; that list has the members
    of the fresh listing, up to identity.  A task that is not cancelled and
    whose directory can be read does reach [done].  The loops the model runs
    itself in [refreshEntries] leave it with the members of the fresh listing
    as well. *)
Theorem C1_diff_edits_reach_new_members :
  (forall (tr : string -> string) (env : DirEnv) (cancel : option nat)
          (old : list StatFileInfo) (dir nameFilter : string) (settings : bool)
          (w : Worker),
     isRunning w = false ->
     let w' := startReadChanged tr env cancel old dir nameFilter settings w in
     let new := entryInfos env (m_cachedDir w') in
     (forall mode entries,
        In (done mode entries) (emitted (log w')) ->
        entries = m_finalEntries w' /\
        applyEdits (edits w') old = entries /\
        sameMembers entries new) /\
     (cancel = None -> dir <> "" ->
      exists_ env dir = true -> isReadable env dir = true ->
      emitted (log w') = edits w' ++ [done DiffMode (m_finalEntries w')])) /\
  (forall (tr : string -> string) (engine : string -> string -> bool)
          (env : DirEnv) (m : FileModel.Model),
     FileModel.m_dir m <> "" ->
     exists_ env (FileModel.m_dir m) = true ->
     isReadable env (FileModel.m_dir m) = true ->
     sameMembers (FileModel.m_files (FileModel.refreshEntries tr engine env m))
                 (entryInfos env (FileModel.m_dir m))).
Proof.
  split; [|intros; now apply refreshEntries_members].
  intros tr env cancel old dir nameFilter settings w Hrun w' new.
  subst w' new. unfold startReadChanged, doStartThread. rewrite Hrun.
  set (w0 := mkWorker settings DiffMode [] old dir nameFilter (m_cachedDir w)
                      false cancel []).
  destruct (run_aborts tr env w0 eq_refl) as (A1 & A2 & A3).
  destruct (String.eqb dir "") eqn:Hd.
  { apply String.eqb_eq in Hd. rewrite (A1 Hd). split.
    - intros mode entries [X|[]]. discriminate.
    - intros _ Y. contradiction. }
  apply String.eqb_neq in Hd.
  destruct (exists_ env dir) eqn:He.
  2:{ rewrite (A2 Hd He). split.
      - intros mode entries [X|[]]. discriminate.
      - intros _ _ Y. discriminate. }
  destruct (isReadable env dir) eqn:Hr.
  2:{ rewrite (A3 Hd He Hr). split.
      - intros mode entries [X|[]]. discriminate.
      - intros _ _ _ Y. discriminate. }
  destruct (run_diff tr env w0 eq_refl eq_refl Hd He Hr)
    as (w1 & O1 & C1 & D1 & M1 & L1 & R1).
  destruct D1 as (AE & HC & Hcase & Hnever).
  rewrite HC, M1 in *. simpl in O1, C1. split.
  - intros mode entries Hin.
    destruct Hcase as [Hc | (Hc & Ha & Hs)]; rewrite Hc in Hin.
    + now apply done_not_edit in Hin.
    + apply in_app_or in Hin as [Hin | [Hin | []]].
      * now apply done_not_edit in Hin.
      * inversion Hin; subst mode entries. rewrite <- O1.
        repeat split; assumption.
  - intros Hn _ _ _. apply Hnever. now rewrite C1.
Qed.

Lemma C1_witness :
  let w' := startReadChanged Sample.noTranslation
              (Sample.listing [Sample.b_txt; Sample.c_txt]) None
              [Sample.a_txt; Sample.b_txt] "/tmp/t" "" false Sample.idle in
  emitted (log w') =
    [entryRemoved 0 Sample.a_txt; entryAdded 1 Sample.c_txt;
     done DiffMode [Sample.b_txt; Sample.c_txt]] /\
  applyEdits (edits w') [Sample.a_txt; Sample.b_txt] =
    [Sample.b_txt; Sample.c_txt] /\
  sameMembers [Sample.b_txt; Sample.c_txt] [Sample.b_txt; Sample.c_txt].
Proof.
  intros w'.
  destruct (proj1 C1_diff_edits_reach_new_members Sample.noTranslation
              (Sample.listing [Sample.b_txt; Sample.c_txt]) None
              [Sample.a_txt; Sample.b_txt] "/tmp/t" "" false Sample.idle
              eq_refl) as [H _].
  split; [vm_compute; reflexivity|].
  destruct (H DiffMode [Sample.b_txt; Sample.c_txt]) as (_ & H2 & H3).
  - vm_compute. right; right; left; reflexivity.
  - split; assumption.
Defined.

(** C2 (identity and transient flags).  [filesContains] compares exactly the
    name, the size, the permissions, the time of last modification, the
    symlink flag and the resolved-directory flag; the setters of the three
    transient flags leave an entry identical to itself.  When the old and the
    fresh entries agree pairwise on those six attributes, the diff-mode read
    emits no edit and the loops of the model remove and insert no row. *)
Theorem C2_identity_is_six_attributes :
  (forall f g : StatFileInfo,
     sameEntry f g = true <->
     fileName f = fileName g /\ size f = size g /\
     permissions f = permissions g /\ lastModified f = lastModified g /\
     isSymLink f = isSymLink g /\ isDirAtEnd f = isDirAtEnd g) /\
  (forall (files : list StatFileInfo) (d : StatFileInfo),
     filesContains files d = true <->
     exists f, In f files /\ sameEntry f d = true) /\
  (forall (f : StatFileInfo) (b : bool),
     sameEntry (setSelected b f) f = true /\
     sameEntry (setFilterMatched b f) f = true /\
     sameEntry (setDoomed b f) f = true) /\
  (forall (tr : string -> string) (env : DirEnv) (cancel : option nat)
          (old : list StatFileInfo) (dir nameFilter : string) (settings : bool)
          (w : Worker),
     isRunning w = false ->
     let w' := startReadChanged tr env cancel old dir nameFilter settings w in
     Forall2 (fun a b => sameEntry a b = true) old
             (entryInfos env (m_cachedDir w')) ->
     edits w' = []) /\
  (forall (newFiles : list StatFileInfo) (m : FileModel.Model),
     Forall2 (fun a b => sameEntry a b = true) (FileModel.m_files m) newFiles ->
     FileModel.reconcile newFiles m = m).
Proof.
  split; [|split; [|split; [|split]]].
  - intros f g. rewrite sameEntry_identity. unfold identity. split.
    + intros H; inversion H. repeat split; assumption.
    + intros (-> & -> & -> & -> & -> & ->). reflexivity.
  - intros files d. rewrite filesContains_iff.
    split; intros [f [Hf H]]; exists f; (split; [assumption|]);
      now apply sameEntry_identity.
  - intros f b. repeat split; now apply sameEntry_identity.
  - intros. now apply startReadChanged_quiet.
  - intros. now apply reconcile_quiet.
Qed.

Lemma C2_witness :
  let old := [Sample.fruit "apple" false; Sample.fruit "banana" true] in
  let new := [setDoomed true (Sample.fruit "apple" true);
              setFilterMatched false (Sample.fruit "banana" false)] in
  edits (startReadChanged Sample.noTranslation (Sample.listing new) None old
           "/tmp/t" "" false Sample.idle) = [].
Proof.
  intros old new.
  apply (proj1 (proj2 (proj2 (proj2 C2_identity_is_six_attributes)))
           Sample.noTranslation (Sample.listing new) None old "/tmp/t" ""
           false Sample.idle eq_refl).
  vm_compute. repeat constructor.
Defined.

(** C4 (diff idempotence).  A diff-mode read whose fresh listing is the list
    of old entries emits no [entryRemoved] and no [entryAdded]. *)
Theorem C4_diff_of_listing_with_itself :
  forall (tr : string -> string) (env : DirEnv) (cancel : option nat)
         (L : list StatFileInfo) (dir nameFilter : string) (settings : bool)
         (w : Worker),
    isRunning w = false ->
    let w' := startReadChanged tr env cancel L dir nameFilter settings w in
    entryInfos env (m_cachedDir w') = L ->
    edits w' = [] /\
    forall s, In s (emitted (log w')) -> isEdit s = false.
Proof.
  intros tr env cancel L dir nameFilter settings w Hrun w' HL.
  assert (edits w' = []) as HE.
  { apply startReadChanged_quiet; [assumption|].
    fold w'. rewrite HL. apply Forall2_same. }
  split; [assumption|].
  intros s Hs. destruct (isEdit s) eqn:E; [|reflexivity].
  assert (In s (edits w')) as X by (apply filter_In; split; assumption).
  rewrite HE in X. destruct X.
Qed.

Lemma C4_witness :
  edits (startReadChanged Sample.noTranslation
           (Sample.listing [Sample.a_txt; Sample.b_txt]) None
           [Sample.a_txt; Sample.b_txt] "/tmp/t" "" false Sample.idle) = [].
Proof.
  apply (C4_diff_of_listing_with_itself Sample.noTranslation
           (Sample.listing [Sample.a_txt; Sample.b_txt]) None
           [Sample.a_txt; Sample.b_txt] "/tmp/t" "" false Sample.idle eq_refl).
  vm_compute. reflexivity.
Defined.

(** C7 (failures of the directory worker).  A task started on an empty path
    emits the untranslated internal error, one on a missing path the
    translation of "Folder does not exist", one on an unreadable path the
    translation of "No permission to read the folder"; in each case this is
    all the task does: no load of the flag, no entry, no [done]. *)
Theorem C7_invalid_directory_aborts :
  forall (tr : string -> string) (env : DirEnv) (cancel : option nat)
         (mode : Mode) (old : list StatFileInfo) (dir nameFilter : string)
         (settings : bool) (w : Worker),
    isRunning w = false ->
    let w' := doStartThread tr env cancel mode old dir nameFilter settings w in
    (dir = "" ->
     log w' = [Emit (error "Internal worker error: empty directory name")] /\
     m_finalEntries w' = []) /\
    (dir <> "" -> exists_ env dir = false ->
     log w' = [Emit (error (tr "Folder does not exist"))] /\
     m_finalEntries w' = []) /\
    (dir <> "" -> exists_ env dir = true -> isReadable env dir = false ->
     log w' = [Emit (error (tr "No permission to read the folder"))] /\
     m_finalEntries w' = []).
Proof.
  intros tr env cancel mode old dir nameFilter settings w Hrun w'.
  subst w'. unfold doStartThread. rewrite Hrun.
  set (w0 := mkWorker settings mode [] old dir nameFilter (m_cachedDir w)
                      false cancel []).
  destruct (run_aborts tr env w0 eq_refl) as (A1 & A2 & A3).
  split; [|split].
  - intros Hd. rewrite (A1 Hd). split; reflexivity.
  - intros Hd He. rewrite (A2 Hd He). split; reflexivity.
  - intros Hd He Hr. rewrite (A3 Hd He Hr). split; reflexivity.
Qed.

Lemma C7_witness :
  log (startReadFull Sample.noTranslation Sample.unreadable None "" "" false
         Sample.idle)
    = [Emit (error "Internal worker error: empty directory name")] /\
  log (startReadChanged Sample.noTranslation Sample.unreadable None
         [Sample.a_txt] "/nowhere" "" false Sample.idle)
    = [Emit (error "Folder does not exist")] /\
  log (startReadFull Sample.noTranslation Sample.unreadable None "/tmp/t" ""
         false Sample.idle)
    = [Emit (error "No permission to read the folder")].
Proof.
  split; [|split].
  - apply (proj1 (C7_invalid_directory_aborts Sample.noTranslation
                    Sample.unreadable None FullMode [] "" "" false Sample.idle
                    eq_refl)).
    reflexivity.
  - apply (proj1 (proj2 (C7_invalid_directory_aborts Sample.noTranslation
                    Sample.unreadable None DiffMode [Sample.a_txt] "/nowhere" ""
                    false Sample.idle eq_refl))).
    + discriminate.
    + reflexivity.
  - apply (proj2 (proj2 (C7_invalid_directory_aborts Sample.noTranslation
                    Sample.unreadable None FullMode [] "/tmp/t" "" false
                    Sample.idle eq_refl))).
    + discriminate.
    + reflexivity.
    + reflexivity.
Defined.

End DiffClaims.

(** ** The claims about the directory model *)

Section ModelClaims.
Import FileModel.

Lemma search_any_run (s : string) :
  QRegularExpression.search [QRegularExpression.AnyStar] s = true.
Proof. destruct s; reflexivity. Qed.

Lemma hasMatch_any_run (engine : string -> string -> bool) (s : string) :
  QRegularExpression.hasMatch engine ".*" s = true.
Proof. unfold QRegularExpression.hasMatch. simpl. apply search_any_run. Qed.

Lemma filter_all_true {A : Type} (l : list A) : filter (fun _ => true) l = l.
Proof. induction l as [|x l IH]; simpl; [reflexivity | now rewrite IH]. Qed.

(** Dooming deselects: the entries the loop hits come out doomed and not
    selected, the others as they were. *)
Lemma doomLoop_entries (hit : StatFileInfo -> bool) (files : list StatFileInfo)
    (i : Z) :
  fst (doomLoop hit files i) =
  map (fun f => if hit f then setSelected false (setDoomed true f) else f) files.
Proof.
  revert i. induction files as [|f files IH]; intros i; [reflexivity|].
  simpl. specialize (IH (i + 1)).
  destruct (doomLoop hit files (i + 1)) as [fs sg]. simpl in IH. subst fs.
  destruct (hit f); reflexivity.
Qed.

(** The filter pass never announces the number of matches. *)
Lemma setFilterString_never_republishes (engine : string -> string -> bool)
    (newFilter : string) (m : Model) :
  In filteredFileCountChanged (signals (setFilterString engine newFilter m)) ->
  In filteredFileCountChanged (signals m).
Proof.
  unfold setFilterString. intros H.
  destruct (applyFilterString_spec engine
              (emit filterStringChanged (withFilterString newFilter m)))
    as (_ & _ & _ & _ & Hs).
  destruct (Hs _ H) as [X | [X | [row X]]]; try discriminate.
  simpl in X. apply in_app_or in X as [X | [X | []]];
    [assumption | discriminate].
Qed.

(** C9 (indices out of range).  For an index below zero or not below the
    number of entries, [fileNameAt] answers the empty string,
    [toggleSelectedFile] returns the model as it was, signals included, and
    so does [selectRange] whenever one of its bounds is such an index. *)
Theorem C9_out_of_range_indices_fail_silently :
  forall (m : Model) (i : Z),
    i < 0 \/ fileCount m <= i ->
    fileNameAt i m = "" /\
    toggleSelectedFile i m = m /\
    forall (j : Z) (selected : bool),
      selectRange i j selected m = m /\ selectRange j i selected m = m.
Proof.
  intros m i Hi. unfold fileCount in Hi.
  assert ((i <? 0) || (i >=? count m) = true) as H1.
  { apply orb_true_iff. destruct Hi as [Hi|Hi].
    - left. now apply Z.ltb_lt.
    - right. now apply Z.geb_le. }
  assert ((i >=? count m) || (i <? 0) = true) as H2
    by (rewrite orb_comm; exact H1).
  split; [|split].
  - unfold fileNameAt. now rewrite H1.
  - unfold toggleSelectedFile. now rewrite H2.
  - intros j selected. unfold selectRange. rewrite H2. split; [reflexivity|].
    destruct (i >=? count m), (i <? 0); try discriminate;
      now rewrite ?orb_true_r.
Qed.

Lemma C9_witness :
  fileNameAt 3 Sample.fruits = "" /\
  toggleSelectedFile (-1) Sample.fruits = Sample.fruits /\
  selectRange 1 3 true Sample.fruits = Sample.fruits.
Proof.
  split; [|split].
  - apply (C9_out_of_range_indices_fail_silently Sample.fruits 3).
    right. vm_compute. discriminate.
  - apply (C9_out_of_range_indices_fail_silently Sample.fruits (-1)).
    left. reflexivity.
  - apply (C9_out_of_range_indices_fail_silently Sample.fruits 3).
    right. vm_compute. discriminate.
Defined.

(** C10 (empty filter).  With an empty filter string the pass matches with
    the pattern [.*]: afterwards every entry is matched, the count of matches
    is the number of entries, and every entry is selected exactly when it was
    before. *)
Theorem C10_empty_filter_matches_everything :
  forall (engine : string -> string -> bool) (m : Model),
    m_filterString m = "" ->
    let m' := applyFilterString engine m in
    m_matchedFileCount m' = fileCount m' /\
    fileCount m' = fileCount m /\
    Forall (fun f => isMatched f = true) (m_files m') /\
    map isSelected (m_files m') = map isSelected (m_files m).
Proof.
  intros engine m Hf m'. subst m'.
  destruct (applyFilterString_spec engine m) as (Hfiles & Hmatched & _).
  assert (filterPattern m = ".*") as Hp
    by (unfold filterPattern; now rewrite Hf).
  rewrite Hp in Hfiles, Hmatched.
  unfold fileCount, count. rewrite Hmatched, Hfiles.
  rewrite length_map.
  rewrite (filter_ext _ (fun _ => true))
    by (intros f; apply hasMatch_any_run).
  rewrite filter_all_true.
  split; [reflexivity|]. split; [reflexivity|]. split.
  - apply Forall_forall. intros f Hin. apply in_map_iff in Hin as [g [<- _]].
    rewrite refiltered_matched. apply hasMatch_any_run.
  - rewrite map_map. apply map_ext. intros f.
    rewrite refiltered_selected, hasMatch_any_run. apply andb_true_r.
Qed.

Lemma C10_witness :
  let m' := applyFilterString Sample.noEngine Sample.fruits in
  m_matchedFileCount m' = 3 /\
  map isSelected (m_files m') = [false; false; true].
Proof.
  intros m'.
  destruct (C10_empty_filter_matches_everything Sample.noEngine Sample.fruits
              eq_refl) as (H1 & H2 & H3 & H4).
  split.
  - fold m' in H1. rewrite H1. vm_compute. reflexivity.
  - exact H4.
Defined.

(** C3 (doomed and selected).  In the model of a directory with two entries,
    dooming the first by its path leaves it doomed and not selected; each of
    [toggleSelectedFile], [selectAllFiles] and [selectRange] then selects
    it while it stays doomed. *)
Theorem C3_doomed_entry_becomes_selected :
  let m1 := setDir Sample.noTranslation Sample.noEngine
              (Sample.listing [Sample.a_txt; Sample.b_txt]) "/tmp/t" new in
  let m2 := markAsDoomed ["/tmp/t/a.txt"] m1 in
  let flags (m : Model) := map (fun f => (isDoomed f, isSelected f)) (m_files m) in
  flags m1 = [(false, false); (false, false)] /\
  flags m2 = [(true, false); (false, false)] /\
  flags (toggleSelectedFile 0 m2) = [(true, true); (false, false)] /\
  flags (selectAllFiles m2) = [(true, true); (false, true)] /\
  flags (selectRange 0 0 true m2) = [(true, true); (false, false)].
Proof. vm_compute. repeat split. Qed.

(** C8 (filter and selection).  On the model holding "apple", "banana" and
    "cherry", the last one selected, [setFilterString "a*"] leaves the first
    two matched and "cherry" unmatched and deselected; the selected count
    goes from 1 to 0 and is announced; the count of matches goes from 3 to 2
    and [filteredFileCountChanged] is not among the signals. *)
Theorem C8_filter_pass_on_three_fruits :
  let m' := setFilterString Sample.noEngine "a*" Sample.fruits in
  map (fun f => (fileName f, isMatched f, isSelected f)) (m_files m') =
    [("apple", true, false); ("banana", true, false); ("cherry", false, false)] /\
  (m_selectedFileCount Sample.fruits, m_selectedFileCount m') = (1, 0) /\
  (m_matchedFileCount Sample.fruits, m_matchedFileCount m') = (3, 2) /\
  signals m' = [filterStringChanged; dataChanged 2; selectedFileCountChanged].
Proof. vm_compute. repeat split. Qed.

End ModelClaims.

(** ** The file system: paths of entries *)

Section FsFacts.
Import Fs.

Lemma string_app_assoc (a b c : string) :
  String.append (String.append a b) c = String.append a (String.append b c).
Proof. induction a as [|x a IH]; simpl; [reflexivity | now rewrite IH]. Qed.

Lemma string_app_nil_r (a : string) : String.append a "" = a.
Proof. induction a as [|x a IH]; simpl; [reflexivity | now rewrite IH]. Qed.

Lemma isEmpty_app_r (a b : string) :
  QString.isEmpty b = false -> QString.isEmpty (String.append a b) = false.
Proof. destruct a, b; simpl; congruence. Qed.

Lemma componentsFrom_name (name : string) :
  forall cur, hasSlash name = false ->
    componentsFrom cur name =
    if QString.isEmpty (String.append cur name) then []
    else [String.append cur name].
Proof.
  induction name as [|c name IH]; intros cur H; simpl.
  - now rewrite string_app_nil_r.
  - simpl in H. apply orb_false_iff in H as [Hc Hn].
    rewrite Hc, (IH _ Hn), string_app_assoc. reflexivity.
Qed.

Lemma legalName_parts (name : string) :
  legalName name = true ->
  QString.isEmpty name = false /\ hasSlash name = false.
Proof.
  unfold legalName. rewrite !andb_true_iff, !negb_true_iff. tauto.
Qed.

Lemma components_single (name : string) :
  legalName name = true -> componentsFrom "" name = [name].
Proof.
  intros H. apply legalName_parts in H as [He Hs].
  rewrite (componentsFrom_name _ _ Hs). simpl. now rewrite He.
Qed.

Lemma componentsFrom_slash_child (name : string) (d : string) :
  legalName name = true ->
  forall cur,
    componentsFrom cur (String.append d (String.append "/" name)) =
    componentsFrom cur d ++ [name].
Proof.
  intros H. induction d as [|c d IH]; intros cur; simpl.
  - rewrite (components_single _ H). destruct (QString.isEmpty cur); reflexivity.
  - destruct (Ascii.eqb c "/"); [|apply IH].
    destruct (QString.isEmpty cur); rewrite IH; reflexivity.
Qed.

Lemma componentsFrom_child (name : string) (d : string) :
  legalName name = true -> endsWithSlash d = true ->
  forall cur,
    componentsFrom cur (String.append d name) = componentsFrom cur d ++ [name].
Proof.
  intros H. induction d as [|c d IH]; intros Hd cur; [discriminate|].
  destruct d as [|c' d].
  - simpl in Hd. simpl. rewrite Hd, (components_single _ H).
    destruct (QString.isEmpty cur); reflexivity.
  - change (endsWithSlash (String c (String c' d)))
      with (endsWithSlash (String c' d)) in Hd.
    specialize (IH Hd).
    change (String.append (String c (String c' d)) name)
      with (String c (String.append (String c' d) name)).
    change (componentsFrom cur (String c (String.append (String c' d) name)))
      with (if Ascii.eqb c "/"
            then if QString.isEmpty cur
                 then componentsFrom "" (String.append (String c' d) name)
                 else cur :: componentsFrom "" (String.append (String c' d) name)
            else componentsFrom (String.append cur (String c ""))
                                (String.append (String c' d) name)).
    change (componentsFrom cur (String c (String c' d)))
      with (if Ascii.eqb c "/"
            then if QString.isEmpty cur
                 then componentsFrom "" (String c' d)
                 else cur :: componentsFrom "" (String c' d)
            else componentsFrom (String.append cur (String c "")) (String c' d)).
    destruct (Ascii.eqb c "/"); [|apply IH].
    destruct (QString.isEmpty cur); rewrite IH; reflexivity.
Qed.

(** The names of the path of an entry are those of its directory and its
    own. *)
Lemma components_absoluteFilePath (d name : string) :
  legalName name = true ->
  components (absoluteFilePath d name) = components d ++ [name].
Proof.
  intros H. unfold components, absoluteFilePath.
  destruct (endsWithSlash d) eqn:E.
  - now apply componentsFrom_child.
  - now apply componentsFrom_slash_child.
Qed.

Lemma absoluteFilePath_not_empty (d name : string) :
  absoluteFilePath d name <> "".
Proof.
  unfold absoluteFilePath. destruct (endsWithSlash d) eqn:E.
  - destruct d; [discriminate | simpl; discriminate].
  - destruct d; simpl; discriminate.
Qed.

(** *** Clean paths *)

Lemma hasSlash_app (a b : string) :
  hasSlash (String.append a b) = hasSlash a || hasSlash b.
Proof.
  induction a as [|x a IH]; simpl; [reflexivity|].
  now rewrite IH, orb_assoc.
Qed.

Lemma componentsFrom_parts (p : string) :
  forall cur, hasSlash cur = false ->
    Forall (fun n => QString.isEmpty n = false /\ hasSlash n = false)
           (componentsFrom cur p).
Proof.
  induction p as [|c p IH]; intros cur Hcur; simpl.
  - destruct (QString.isEmpty cur) eqn:E; constructor; [now split | constructor].
  - destruct (Ascii.eqb c "/") eqn:Ec.
    + destruct (QString.isEmpty cur) eqn:E; [now apply IH|].
      constructor; [now split | now apply IH].
    + apply IH. rewrite hasSlash_app, Hcur. simpl. now rewrite Ec.
Qed.

Lemma endsWithSlash_app (a b : string) :
  b <> "" -> endsWithSlash (String.append a b) = endsWithSlash b.
Proof.
  intros Hb. induction a as [|x a IH]; [reflexivity|].
  change (String.append (String x a) b) with (String x (String.append a b)).
  destruct (String.append a b) eqn:E.
  - destruct a; simpl in E; [contradiction | discriminate].
  - exact IH.
Qed.

Lemma endsWithSlash_name (n : string) :
  hasSlash n = false -> endsWithSlash n = false.
Proof.
  induction n as [|x n IH]; intros H; [reflexivity|].
  simpl in H. apply orb_false_iff in H as [Hx Hn].
  destruct n; [exact Hx | now apply IH].
Qed.

Lemma joinPath_not_empty (name : string) (rest : list string) :
  joinPath (name :: rest) <> "".
Proof. discriminate. Qed.

Lemma endsWithSlash_joinPath (names : list string) :
  names <> [] ->
  Forall (fun n => QString.isEmpty n = false /\ hasSlash n = false) names ->
  endsWithSlash (joinPath names) = false.
Proof.
  induction names as [|n rest IH]; intros Hne Hall; [contradiction|].
  inversion Hall as [|? ? [Hn Hs] Hrest]; subst.
  change (joinPath (n :: rest))
    with (String.append "/" (String.append n (joinPath rest))).
  destruct rest as [|m rest].
  - simpl joinPath. rewrite string_app_nil_r.
    rewrite endsWithSlash_app; [now apply endsWithSlash_name|].
    intros ->. discriminate.
  - rewrite endsWithSlash_app by (destruct n; discriminate).
    rewrite endsWithSlash_app by discriminate.
    apply IH; [discriminate | exact Hrest].
Qed.

Lemma joinPath_app (names : list string) (name : string) :
  joinPath (names ++ [name])
  = String.append (joinPath names) (String.append "/" name).
Proof.
  induction names as [|n rest IH]; simpl.
  - now rewrite string_app_nil_r.
  - rewrite IH, string_app_assoc. reflexivity.
Qed.

(** The entries of a clean path have clean paths: the walk never leaves the
    paths for which [absoluteFilePath] is [QDir]'s. *)
Lemma isClean_child (d name : string) :
  isClean d = true -> legalName name = true ->
  isClean (absoluteFilePath d name) = true.
Proof.
  intros Hd Hn. unfold isClean in *.
  rewrite (components_absoluteFilePath _ _ Hn).
  apply andb_true_iff in Hd as [Hdots Hd].
  apply andb_true_iff. split.
  - rewrite forallb_app, Hdots. simpl.
    unfold legalName in Hn. apply andb_true_iff in Hn as [_ ->]. reflexivity.
  - apply orb_true_iff. right.
    assert (absoluteFilePath d name
            = joinPath (components d ++ [name])) as E.
    { rewrite joinPath_app. apply orb_true_iff in Hd as [Hd|Hd].
      - apply String.eqb_eq in Hd. subst d. reflexivity.
      - apply andb_true_iff in Hd as [He Hj].
        apply String.eqb_eq in Hj. unfold absoluteFilePath.
        assert (endsWithSlash d = false) as ->.
        { rewrite Hj. apply endsWithSlash_joinPath.
          - intros X. rewrite X in Hj. simpl in Hj. subst d. discriminate.
          - apply componentsFrom_parts. reflexivity. }
        now rewrite <- Hj. }
    rewrite <- E. rewrite String.eqb_refl, andb_true_r.
    destruct (absoluteFilePath d name) eqn:X; [|reflexivity].
    now apply absoluteFilePath_not_empty in X.
Qed.

Lemma isClean_not_empty (d : string) : isClean d = true -> d <> "".
Proof. intros H ->. discriminate. Qed.

(** *** Resolution *)

Lemma resolve_eq (hops : nat) (root : node) (follow : bool) (names : list string) :
  resolve hops root follow names =
  walk (match hops with
        | O => fun _ => None
        | S h => resolve h root follow
        end) follow root names.
Proof. destruct hops; reflexivity. Qed.

Lemma walk_child (rT rF : list string -> option node)
    (es : list (string * node)) (name : string) (c : node) :
  lookup name es = Some c ->
  (forall l, rT l = Some (Dir es) -> rF (l ++ [name]) = Some c) ->
  forall names cur,
    walk rT true cur names = Some (Dir es) ->
    walk rF false cur (names ++ [name]) = Some c.
Proof.
  intros Hl Hrel. induction names as [|a rest IH]; intros cur H.
  - simpl in H. inversion H; subst cur. simpl. rewrite Hl.
    destruct c; reflexivity.
  - simpl in H |- *. destruct cur as [|entries|t]; try discriminate.
    destruct (lookup a entries) as [[|es'|t]|]; try discriminate.
    + now apply IH.
    + now apply IH.
    + assert (rT (components t ++ rest) = Some (Dir es)) as X
        by (destruct rest; exact H).
      apply Hrel in X. rewrite <- app_assoc in X.
      destruct rest; exact X.
Qed.

Lemma resolve_child (root : node) (es : list (string * node)) (name : string)
    (c : node) :
  lookup name es = Some c ->
  forall hops names,
    resolve hops root true names = Some (Dir es) ->
    resolve hops root false (names ++ [name]) = Some c.
Proof.
  intros Hl. induction hops as [|h IH]; intros names H;
    rewrite resolve_eq in H |- *;
    (eapply walk_child; [exact Hl | | exact H]).
  - intros l X; discriminate.
  - exact IH.
Qed.

Lemma walk_follow_same (rT rF : list string -> option node) :
  (forall l r, rF l = r -> notLink r -> rT l = r) ->
  forall names cur r,
    walk rF false cur names = r -> notLink r -> walk rT true cur names = r.
Proof.
  intros Hrel. induction names as [|a rest IH]; intros cur r H Hr.
  - exact H.
  - simpl in H |- *. destruct cur as [|entries|t]; try exact H.
    destruct (lookup a entries) as [[|es'|t]|]; try exact H.
    + now apply IH.
    + now apply IH.
    + destruct rest as [|b rest].
      * subst r. exfalso. now apply (Hr t).
      * now apply Hrel.
Qed.

Lemma resolve_follow_same (root : node) :
  forall hops names r,
    resolve hops root false names = r -> notLink r ->
    resolve hops root true names = r.
Proof.
  induction hops as [|h IH]; intros names r H Hr;
    rewrite resolve_eq in H |- *;
    (eapply walk_follow_same; [ | exact H | exact Hr]).
  - intros l r' X _. exact X.
  - exact IH.
Qed.

(** A path that is no link and names a directory is a directory of the
    tree. *)
Lemma real_directory (root : node) (d : string) :
  isSymLink root d = false -> dirExists root d = true ->
  exists es, lstat root d = Some (Dir es) /\ stat root d = Some (Dir es).
Proof.
  unfold isSymLink, dirExists, lstat, stat. intros Hl He.
  assert (resolve maxHops root true (components d)
          = resolve maxHops root false (components d)) as X.
  { apply resolve_follow_same; [reflexivity|].
    intros t Ht. rewrite Ht in Hl. discriminate. }
  rewrite X in *.
  destruct (resolve maxHops root false (components d)) as [[|es|t]|];
    try discriminate.
  exists es. split; reflexivity.
Qed.

(** *** Well-formed trees and heights *)

Lemma wellFormed_cons (name : string) (y : node) (rest : list (string * node)) :
  wellFormed (Dir ((name, y) :: rest)) =
  legalName name && wellFormed y && wellFormed (Dir rest).
Proof. reflexivity. Qed.

Lemma wellFormed_In (es : list (string * node)) (name : string) (c : node) :
  wellFormed (Dir es) = true -> In (name, c) es ->
  legalName name = true /\ wellFormed c = true.
Proof.
  induction es as [|[n y] es IH]; intros H Hin; [destruct Hin|].
  rewrite wellFormed_cons in H.
  apply andb_true_iff in H as [H H3]. apply andb_true_iff in H as [H1 H2].
  destruct Hin as [X|X]; [inversion X; subst; now split | now apply IH].
Qed.

Lemma lookup_In (es : list (string * node)) (name : string) (c : node) :
  lookup name es = Some c -> In (name, c) es.
Proof.
  induction es as [|[n y] es IH]; simpl; [discriminate|].
  destruct (String.eqb n name) eqn:E.
  - apply String.eqb_eq in E. intros X; inversion X; subst. now left.
  - intros X. right. now apply IH.
Qed.

Lemma In_lookup (es : list (string * node)) (name : string) (c : node) :
  In (name, c) es -> exists c', lookup name es = Some c'.
Proof.
  induction es as [|[n y] es IH]; intros Hin; [destruct Hin|]. simpl.
  destruct (String.eqb n name) eqn:E; [now exists y|].
  destruct Hin as [X|X]; [|now apply IH].
  inversion X; subst. rewrite String.eqb_refl in E. discriminate.
Qed.

Lemma height_cons (name : string) (y : node) (rest : list (string * node)) :
  height (Dir ((name, y) :: rest)) = S (Nat.max (height y) (pred (height (Dir rest)))).
Proof. reflexivity. Qed.

Lemma height_In (es : list (string * node)) (name : string) (c : node) :
  In (name, c) es -> (height c < height (Dir es))%nat.
Proof.
  induction es as [|[n y] es IH]; intros Hin; [destruct Hin|].
  rewrite height_cons. destruct Hin as [X|X].
  - inversion X; subst. lia.
  - specialize (IH X). lia.
Qed.

Lemma walk_wellFormed (restart : list string -> option node) (follow : bool) :
  (forall l x, restart l = Some x -> wellFormed x = true) ->
  forall names cur x,
    wellFormed cur = true -> walk restart follow cur names = Some x ->
    wellFormed x = true.
Proof.
  intros Hr. induction names as [|a rest IH]; intros cur x Hc H.
  - simpl in H. now inversion H; subst.
  - simpl in H. destruct cur as [|entries|t]; try discriminate.
    destruct (lookup a entries) as [y|] eqn:El; [|discriminate].
    apply lookup_In in El.
    destruct (wellFormed_In _ _ _ Hc El) as [_ Hy].
    destruct y as [|es'|t].
    + now apply (IH File).
    + now apply (IH (Dir es')).
    + destruct rest as [|b rest].
      * destruct follow; [now apply (Hr _ _ H)|]. now inversion H; subst.
      * destruct follow; now apply (Hr _ _ H).
Qed.

Lemma resolve_wellFormed (root : node) (follow : bool) :
  wellFormed root = true ->
  forall hops names x,
    resolve hops root follow names = Some x -> wellFormed x = true.
Proof.
  intros Hroot. induction hops as [|h IH]; intros names x H;
    rewrite resolve_eq in H;
    (eapply walk_wellFormed; [ | exact Hroot | exact H]).
  - intros l y X; discriminate.
  - exact IH.
Qed.

(** The entry of a real directory lies one level deeper at least. *)
Lemma depth_child (root : node) (d name : string) :
  wellFormed root = true ->
  isSymLink root d = false -> dirExists root d = true ->
  In name (entryListDirs root d) ->
  (depth root (absoluteFilePath d name) < depth root d)%nat.
Proof.
  intros Hroot Hl He Hin.
  destruct (real_directory _ _ Hl He) as (es & Hls & Hst).
  unfold entryListDirs, entriesOf in Hin. rewrite Hst in Hin.
  apply in_map_iff in Hin as [[n c] [Hn Hin]]. simpl in Hn. subst n.
  apply filter_In in Hin as [Hin _].
  assert (wellFormed (Dir es) = true) as Hes
    by (eapply resolve_wellFormed; [exact Hroot | exact Hst]).
  destruct (wellFormed_In _ _ _ Hes Hin) as [Hlegal _].
  destruct (In_lookup _ _ _ Hin) as [c' Hc'].
  unfold depth. rewrite Hls.
  unfold lstat. rewrite (components_absoluteFilePath _ _ Hlegal).
  rewrite (resolve_child root es name c' Hc' _ _ Hst).
  apply (height_In es name c'). now apply lookup_In.
Qed.

End FsFacts.

(** ** The search worker: the shape of a walk *)

Section SearchFacts.
Import SearchWorker.

Variable root : Fs.node.
Variable toLower : string -> string.

Lemma flagAt_app {S : Type} (c : option nat) (l d : list (action S)) :
  flagAt c l = Cancelled -> flagAt c (l ++ d) = Cancelled.
Proof.
  unfold flagAt. destruct c as [k|]; [|discriminate].
  destruct (k <=? List.length l)%nat eqn:E; [|discriminate].
  intros _. apply Nat.leb_le in E.
  assert ((k <=? List.length (l ++ d))%nat = true) as ->; [|reflexivity].
  apply Nat.leb_le. rewrite length_app. lia.
Qed.

Lemma continues_refl (w : Worker) : continues root w w.
Proof.
  split; [reflexivity|]. exists [], []. rewrite !app_nil_r.
  split; [reflexivity|]. split; [intros []|]. split; [intros a []|].
  split; [intros X; now elim X | constructor].
Qed.

Lemma noCancelledLoad_app (l1 l2 : list (action signal)) :
  noCancelledLoad l1 -> noCancelledLoad l2 -> noCancelledLoad (l1 ++ l2).
Proof. intros H1 H2 H. apply in_app_or in H as [H|H]; contradiction. Qed.

Lemma onlyCancelledLoads_app (l1 l2 : list (action signal)) :
  onlyCancelledLoads l1 -> onlyCancelledLoads l2 -> onlyCancelledLoads (l1 ++ l2).
Proof. intros H1 H2 a H. apply in_app_or in H as [H|H]; auto. Qed.

Lemma onlyCancelledLoads_emitted (l : list (action signal)) :
  onlyCancelledLoads l -> emitted l = [].
Proof.
  induction l as [|a l IH]; intros H; [reflexivity|].
  rewrite (H a (or_introl eq_refl)). simpl. apply IH.
  intros b Hb. apply H. now right.
Qed.

(** A walk first, then items [d] that read [KeepRunning] or notify. *)
Lemma continues_then (w w1 w' : Worker) (d : list (action signal)) :
  cancelAt w1 = cancelAt w -> log w1 = log w ++ d ->
  noCancelledLoad d -> Forall (walkSignal root) (emitted d) ->
  continues root w1 w' -> continues root w w'.
Proof.
  intros Hc Hl Hn Hs (Hc' & d1 & d2 & Hl' & Hn1 & Ho2 & Hf & Hs1).
  split; [congruence|]. exists (d ++ d1), d2.
  split; [rewrite Hl', Hl, <- !app_assoc; reflexivity|].
  split; [now apply noCancelledLoad_app|]. split; [assumption|].
  split; [rewrite <- Hc; exact Hf|].
  rewrite emitted_app. now apply Forall_app.
Qed.

(** A walk that saw the flag set, then loads that read [Cancelled]. *)
Lemma continues_cancelled (w w1 w' : Worker) (d : list (action signal)) :
  continues root w w1 -> flagAt (cancelAt w) (log w1) = Cancelled ->
  cancelAt w' = cancelAt w1 -> log w' = log w1 ++ d -> onlyCancelledLoads d ->
  continues root w w'.
Proof.
  intros (Hc & d1 & d2 & Hl & Hn1 & Ho2 & Hf & Hs1) Hset Hc' Hl' Ho.
  split; [congruence|]. exists d1, (d2 ++ d).
  split; [rewrite Hl', Hl, <- !app_assoc; reflexivity|].
  split; [assumption|]. split; [now apply onlyCancelledLoads_app|].
  split; [|assumption].
  intros _. rewrite Hl'. now apply flagAt_app.
Qed.

Lemma loadCancelled_spec (w : Worker) (c : bool) (w1 : Worker) :
  loadCancelled w = (c, w1) ->
  cancelAt w1 = cancelAt w /\
  log w1 = log w ++ [LoadAcquire (flagAt (cancelAt w) (log w))] /\
  c = isCancelled (flagAt (cancelAt w) (log w)).
Proof.
  unfold loadCancelled. intros H; inversion H; subst. repeat split.
Qed.

Lemma load_keepRunning (w w1 : Worker) :
  loadCancelled w = (false, w1) ->
  cancelAt w1 = cancelAt w /\
  log w1 = log w ++ [LoadAcquire KeepRunning].
Proof.
  intros H. apply loadCancelled_spec in H as (Hc & Hl & Hv).
  destruct (flagAt (cancelAt w) (log w)); [|discriminate]. now split.
Qed.

Lemma load_cancelled (w w1 : Worker) :
  loadCancelled w = (true, w1) ->
  cancelAt w1 = cancelAt w /\
  log w1 = log w ++ [LoadAcquire Cancelled] /\
  flagAt (cancelAt w) (log w) = Cancelled.
Proof.
  intros H. apply loadCancelled_spec in H as (Hc & Hl & Hv).
  destruct (flagAt (cancelAt w) (log w)); [discriminate|]. now repeat split.
Qed.

Lemma load_when_set (w : Worker) :
  flagAt (cancelAt w) (log w) = Cancelled ->
  exists w1, loadCancelled w = (true, w1) /\ cancelAt w1 = cancelAt w /\
             log w1 = log w ++ [LoadAcquire Cancelled].
Proof.
  intros H. unfold loadCancelled. rewrite H. eexists. repeat split.
Qed.

Lemma searchFiles_cons (directory searchTerm filename : string)
    (rest : list string) (w : Worker) :
  searchFiles toLower directory searchTerm (filename :: rest) w =
  let (c, w1) := loadCancelled w in
  if c then (true, w1)
  else
    searchFiles toLower directory searchTerm rest
      (if nameMatches toLower filename searchTerm
       then emit (matchFound (Fs.absoluteFilePath directory filename)) w1
       else w1).
Proof. reflexivity. Qed.

Lemma keepRunning_item : noCancelledLoad [LoadAcquire KeepRunning].
Proof. intros [X|[]]. discriminate. Qed.

Lemma emit_item (s : signal) : noCancelledLoad [Emit s].
Proof. intros [X|[]]. discriminate. Qed.

Lemma cancelled_item : onlyCancelledLoads [LoadAcquire Cancelled].
Proof. intros a [<-|[]]. reflexivity. Qed.

(** One turn of either loop up to the recursive call: a load that read
    [KeepRunning] and, for a matching name, the match. *)
Lemma turn_continues (w w1 w' : Worker) (matches : bool) (path : string) :
  loadCancelled w = (false, w1) ->
  continues root (if matches then emit (matchFound path) w1 else w1) w' ->
  continues root w w'.
Proof.
  intros H K. apply load_keepRunning in H as [Hc Hl].
  destruct matches.
  - apply (continues_then w (emit (matchFound path) w1) w'
             [LoadAcquire KeepRunning; Emit (matchFound path)]);
      [exact Hc | simpl; rewrite Hl, <- app_assoc; reflexivity | | | exact K].
    + intros [X|[X|[]]]; discriminate.
    + repeat constructor.
  - apply (continues_then w w1 w' [LoadAcquire KeepRunning]);
      [exact Hc | exact Hl | apply keepRunning_item | constructor | exact K].
Qed.

(** The same turn, as items added to the record. *)
Lemma turn_items (w w1 : Worker) (matches : bool) (path : string) :
  loadCancelled w = (false, w1) ->
  let w2 := if matches then emit (matchFound path) w1 else w1 in
  cancelAt w2 = cancelAt w /\
  exists d, log w2 = log w ++ d /\ noCancelledLoad d /\
            Forall (walkSignal root) (emitted d).
Proof.
  intros H. apply load_keepRunning in H as [Hc Hl]. destruct matches; simpl.
  - split; [exact Hc|].
    exists [LoadAcquire KeepRunning; Emit (matchFound path)].
    split; [rewrite Hl, <- app_assoc; reflexivity|].
    split; [intros [X|[X|[]]]; discriminate | repeat constructor].
  - split; [exact Hc|]. exists [LoadAcquire KeepRunning].
    split; [exact Hl|]. split; [apply keepRunning_item | constructor].
Qed.

Lemma searchFiles_spec (directory searchTerm : string) (names : list string) :
  forall (w : Worker) (c : bool) (w' : Worker),
    searchFiles toLower directory searchTerm names w = (c, w') ->
    (c = true ->
     continues root w w' /\ flagAt (cancelAt w) (log w') = Cancelled) /\
    (c = false ->
     cancelAt w' = cancelAt w /\
     exists d, log w' = log w ++ d /\ noCancelledLoad d /\
               Forall (walkSignal root) (emitted d)).
Proof.
  induction names as [|filename rest IH]; intros w c w' H.
  - simpl in H. inversion H; subst. split; [discriminate|]. intros _.
    split; [reflexivity|]. exists []. rewrite app_nil_r.
    split; [reflexivity|]. split; [intros [] | constructor].
  - rewrite searchFiles_cons in H.
    destruct (loadCancelled w) as [c1 w1] eqn:E1. destruct c1.
    + inversion H; subst. apply load_cancelled in E1 as (Hc & Hl & Hset).
      split; [|discriminate]. intros _.
      assert (flagAt (cancelAt w) (log w') = Cancelled) as Hset'
        by (rewrite Hl; now apply flagAt_app).
      split; [|exact Hset'].
      eapply continues_cancelled;
        [apply continues_refl | exact Hset | exact Hc | exact Hl |
         apply cancelled_item].
    + destruct (IH _ _ _ H) as (Kt & Kf).
      destruct (turn_items w w1 (nameMatches toLower filename searchTerm)
                  (Fs.absoluteFilePath directory filename) E1)
        as (Hc2 & d & Hd & Hnd & Hsd).
      cbv zeta in Hc2, Hd.
      split.
      * intros X. destruct (Kt X) as [K Kset].
        split; [eapply turn_continues; eassumption|].
        rewrite <- Hc2. exact Kset.
      * intros X. destruct (Kf X) as (Hc3 & d' & Hd' & Hnd' & Hsd').
        split; [congruence|]. exists (d ++ d').
        split; [rewrite Hd', Hd, <- app_assoc; reflexivity|].
        split; [now apply noCancelledLoad_app|].
        rewrite emitted_app. now apply Forall_app.
Qed.

Lemma searchDirs_cons (recurse : string -> string -> Worker -> option (string * Worker))
    (directory searchTerm filename : string) (rest : list string) (w : Worker) :
  searchDirs toLower recurse directory searchTerm (filename :: rest) w =
  let (c, w1) := loadCancelled w in
  if c then Some ("", w1)
  else
    match recurse (Fs.absoluteFilePath directory filename) searchTerm
            (if nameMatches toLower filename searchTerm
             then emit (matchFound (Fs.absoluteFilePath directory filename)) w1
             else w1) with
    | None => None
    | Some (errmsg, w2) =>
        if negb (QString.isEmpty errmsg) then Some (errmsg, w2)
        else searchDirs toLower recurse directory searchTerm rest w2
    end.
Proof. reflexivity. Qed.

(** Once the flag reads [Cancelled], the loop over the directories does one
    load at most and returns. *)
Lemma searchDirs_when_set recurse (directory searchTerm : string)
    (names : list string) (w : Worker) :
  flagAt (cancelAt w) (log w) = Cancelled ->
  exists w' d2,
    searchDirs toLower recurse directory searchTerm names w = Some ("", w') /\
    cancelAt w' = cancelAt w /\ log w' = log w ++ d2 /\ onlyCancelledLoads d2.
Proof.
  intros Hset. destruct names as [|filename rest].
  - exists w, []. rewrite app_nil_r. repeat split. intros a [].
  - rewrite searchDirs_cons.
    destruct (load_when_set w Hset) as (w1 & -> & Hc & Hl).
    exists w1, [LoadAcquire Cancelled]. repeat split; try assumption.
    apply cancelled_item.
Qed.

Lemma searchDirs_spec recurse (directory searchTerm : string) (names : list string) :
  (forall name, In name names ->
     forall w, exists w',
       recurse (Fs.absoluteFilePath directory name) searchTerm w = Some ("", w') /\
       continues root w w') ->
  forall w, exists w',
    searchDirs toLower recurse directory searchTerm names w = Some ("", w') /\
    continues root w w'.
Proof.
  induction names as [|filename rest IH]; intros Hrec w.
  - exists w. split; [reflexivity | apply continues_refl].
  - rewrite searchDirs_cons.
    destruct (loadCancelled w) as [c w1] eqn:E1. destruct c.
    + exists w1. split; [reflexivity|].
      apply load_cancelled in E1 as (Hc & Hl & Hset).
      eapply continues_cancelled;
        [apply continues_refl | exact Hset | exact Hc | exact Hl |
         apply cancelled_item].
    + set (w2 := if nameMatches toLower filename searchTerm
                 then emit (matchFound (Fs.absoluteFilePath directory filename)) w1
                 else w1).
      destruct (Hrec filename (or_introl eq_refl) w2) as (w3 & -> & K3).
      cbn [QString.isEmpty negb].
      destruct K3 as (Hc3 & d1 & d2 & Hl3 & Hn1 & Ho2 & Hf & Hs1).
      destruct d2 as [|a d2].
      * rewrite app_nil_r in Hl3.
        destruct (IH (fun n Hn => Hrec n (or_intror Hn)) w3) as (w' & E & K).
        exists w'. split; [exact E|].
        eapply turn_continues; [exact E1|]. fold w2.
        eapply continues_then; [exact Hc3 | exact Hl3 | exact Hn1 | exact Hs1 |
                                exact K].
      * assert (flagAt (cancelAt w3) (log w3) = Cancelled) as Hset
          by (rewrite Hc3; apply Hf; discriminate).
        destruct (searchDirs_when_set recurse directory searchTerm rest w3 Hset)
          as (w' & d & E & Hc' & Hl' & Ho').
        exists w'. split; [exact E|].
        eapply turn_continues; [exact E1|]. fold w2.
        eapply (continues_cancelled w2 w3 w' d);
          [ | rewrite <- Hc3; exact Hset | exact Hc' | exact Hl' | exact Ho'].
        split; [exact Hc3|]. exists d1, (a :: d2). repeat split; assumption.
Qed.

Lemma searchRecursively_succ (fuel : nat) (directory searchTerm : string)
    (w : Worker) :
  searchRecursively root toLower (S fuel) directory searchTerm w =
  if QString.startsWith directory "/proc"
     || QString.startsWith directory "/sys/block" then Some ("", w)
  else if Fs.isSymLink root directory then Some ("", w)
  else if negb (Fs.dirExists root directory) then Some ("", w)
  else
    let w1 := emit (progressChanged directory) (withCurrentDirectory directory w) in
    let (cancelled, w2) :=
      searchFiles toLower directory searchTerm (Fs.entryListFiles root directory) w1 in
    if cancelled then Some ("", w2)
    else searchDirs toLower (searchRecursively root toLower fuel) directory searchTerm
                    (Fs.entryListDirs root directory) w2.
Proof. reflexivity. Qed.

(** With fuel above the depth of the directory the walk returns, without an
    error message, and has the shape of [continues root]. *)
Lemma searchRecursively_spec :
  Fs.wellFormed root = true ->
  forall (fuel : nat) (directory searchTerm : string) (w : Worker),
    directory <> "" ->
    (Fs.depth root directory < fuel)%nat ->
    exists w',
      searchRecursively root toLower fuel directory searchTerm w = Some ("", w') /\
      continues root w w'.
Proof.
  intros Hroot. induction fuel as [|fuel IH];
    intros directory searchTerm w Hne Hfuel; [lia|].
  rewrite searchRecursively_succ.
  destruct (QString.startsWith directory "/proc") eqn:Hp;
    [exists w; split; [reflexivity | apply continues_refl]|].
  destruct (QString.startsWith directory "/sys/block") eqn:Hb;
    [exists w; split; [reflexivity | apply continues_refl]|].
  cbn [orb].
  destruct (Fs.isSymLink root directory) eqn:Hl;
    [exists w; split; [reflexivity | apply continues_refl]|].
  destruct (Fs.dirExists root directory) eqn:He; cbn [negb];
    [|exists w; split; [reflexivity | apply continues_refl]].
  cbv zeta.
  set (w1 := emit (progressChanged directory) (withCurrentDirectory directory w)).
  assert (entered root directory) as Hent by (repeat split; assumption).
  assert (forall w', continues root w1 w' -> continues root w w') as Hfrom.
  { intros w' K.
    apply (continues_then w w1 w' [Emit (progressChanged directory)]);
      [reflexivity | reflexivity | apply emit_item | | exact K].
    simpl. constructor; [exact Hent | constructor]. }
  destruct (searchFiles toLower directory searchTerm (Fs.entryListFiles root directory) w1)
    as [c w2] eqn:E2.
  apply searchFiles_spec in E2 as [Kt Kf]. destruct c.
  - exists w2. split; [reflexivity|]. apply Hfrom. now apply Kt.
  - destruct (Kf eq_refl) as (Hc2 & d & Hd & Hnd & Hsd).
    destruct (searchDirs_spec (searchRecursively root toLower fuel) directory searchTerm
                (Fs.entryListDirs root directory)) with (w := w2)
      as (w' & E & K).
    { intros name Hin w0. apply IH.
      - apply absoluteFilePath_not_empty.
      - pose proof (depth_child root directory name Hroot Hl He Hin). lia. }
    exists w'. split; [exact E|]. apply Hfrom.
    eapply continues_then; [exact Hc2 | exact Hd | exact Hnd | exact Hsd | exact K].
Qed.

End SearchFacts.

(** ** The search: the checks of the flag *)

Section SearchChecks.
Import SearchWorker.

Variable root : Fs.node.
Variable toLower : string -> string.

Lemma polls_app (l1 l2 : list (action signal)) :
  forall s, polls s (l1 ++ l2) =
            match polls s l1 with
            | Some s' => polls s' l2
            | None => None
            end.
Proof.
  induction l1 as [|a l1 IH]; intros s; simpl; [reflexivity|].
  destruct (pollStep s a); [apply IH | reflexivity].
Qed.

Lemma loads_app (l1 l2 : list (action signal)) :
  loads (l1 ++ l2) = (loads l1 + loads l2)%nat.
Proof.
  induction l1 as [|[s|v] l1 IH]; simpl; [reflexivity | exact IH | now rewrite IH].
Qed.

Lemma candidates_app (l1 l2 : list signal) :
  candidates root (l1 ++ l2) = (candidates root l1 + candidates root l2)%nat.
Proof.
  induction l1 as [|s l1 IH]; simpl; [reflexivity|].
  destruct s; rewrite ?IH; lia.
Qed.

Lemma snoc_cases {A : Type} (l pre post : list A) (a x : A) :
  l ++ [a] = pre ++ x :: post ->
  (post = [] /\ pre = l /\ x = a) \/
  (exists post', post = post' ++ [a] /\ l = pre ++ x :: post').
Proof.
  intros H. destruct (exists_last (l := x :: post)) as (post0 & y & E);
    [discriminate|].
  rewrite E, app_assoc in H. apply app_inj_tail in H as [Hl Hy].
  destruct post0 as [|z post0]; simpl in E; inversion E as [[Ex Ep]].
  - left. rewrite app_nil_r in Hl. repeat split; congruence.
  - right. exists post0. split; congruence.
Qed.

(** *** Honest checks *)

Lemma honest_emit (s : signal) (w : Worker) : honest w -> honest (emit s w).
Proof.
  intros H pre v post E. simpl in E.
  apply snoc_cases in E as [(_ & _ & X)|(post' & _ & E)]; [discriminate|].
  exact (H _ _ _ E).
Qed.

Lemma honest_load (w : Worker) (c : bool) (w1 : Worker) :
  loadCancelled w = (c, w1) -> honest w -> honest w1.
Proof.
  intros L H pre v post E. unfold loadCancelled in L. inversion L; subst.
  simpl in E |- *.
  apply snoc_cases in E as [(_ & -> & X)|(post' & _ & E)].
  - now inversion X.
  - exact (H _ _ _ E).
Qed.

Lemma honest_turn (b : bool) (s : signal) (w : Worker) :
  honest w -> honest (if b then emit s w else w).
Proof. destruct b; [apply honest_emit | trivial]. Qed.

(** *** One turn of a loop, and the loops *)

(** What both loops do at the head of a turn and with the name. *)
Lemma turn_checks (directory searchTerm filename : string) (w : Worker)
    (c : bool) (w1 : Worker) :
  loadCancelled w = (c, w1) ->
  let w2 := if nameMatches toLower filename searchTerm
            then emit (matchFound (Fs.absoluteFilePath directory filename)) w1
            else w1 in
  cancelAt w2 = cancelAt w /\ (honest w -> honest w2) /\
  (c = true -> log w1 = log w ++ [LoadAcquire Cancelled]) /\
  (cancelAt w = None -> c = false) /\
  exists d, log w2 = log w ++ LoadAcquire (flagAt (cancelAt w) (log w)) :: d /\
            loads d = O /\ candidates root (emitted d) = O /\
            exists s, (s = AfterLoad \/ s = AfterMatch) /\
                      forall s0, polls s0 (LoadAcquire (flagAt (cancelAt w) (log w)) :: d)
                                 = Some s.
Proof.
  intros L. pose proof (loadCancelled_spec _ _ _ L) as (Hc & Hl & Hv).
  cbv zeta. split; [|split; [|split; [|split]]].
  - destruct (nameMatches toLower filename searchTerm); simpl; exact Hc.
  - intros H. apply honest_turn. exact (honest_load _ _ _ L H).
  - intros ->. destruct (flagAt (cancelAt w) (log w)); [discriminate | exact Hl].
  - intros X. rewrite X in Hv. exact Hv.
  - destruct (nameMatches toLower filename searchTerm).
    + exists [Emit (matchFound (Fs.absoluteFilePath directory filename))].
      split; [simpl; rewrite Hl, <- app_assoc; reflexivity|].
      split; [reflexivity|]. split; [reflexivity|].
      exists AfterMatch. split; [now right | reflexivity].
    + exists []. split; [exact Hl|]. split; [reflexivity|]. split; [reflexivity|].
      exists AfterLoad. split; [now left | reflexivity].
Qed.

Lemma searchFiles_checks (directory searchTerm : string) (names : list string) :
  forall (w : Worker) (c : bool) (w' : Worker),
    searchFiles toLower directory searchTerm names w = (c, w') ->
    cancelAt w' = cancelAt w /\ (honest w -> honest w') /\
    exists d, log w' = log w ++ d /\
              (forall s, exists s', polls s d = Some s') /\
              (cancelAt w = None ->
               c = false /\ loads d = List.length names /\
               candidates root (emitted d) = O).
Proof.
  induction names as [|filename rest IH]; intros w c w' H.
  - inversion H; subst. split; [reflexivity|]. split; [trivial|].
    exists []. rewrite app_nil_r. split; [reflexivity|].
    split; [intros s; now exists s | intros _; repeat split].
  - rewrite searchFiles_cons in H.
    destruct (loadCancelled w) as [c1 w1] eqn:E1.
    pose proof (turn_checks directory searchTerm filename w c1 w1 E1)
      as (Hc2 & Hh2 & Hstop & Hnever & d2 & L2 & N2 & K2 & s2 & _ & P2).
    cbv zeta in Hc2, Hh2, L2.
    pose proof (loadCancelled_spec _ _ _ E1) as (Hc1 & Hl1 & Hv1).
    destruct c1.
    + inversion H; subst. split; [exact Hc1|].
      split; [apply (honest_load _ _ _ E1)|].
      exists [LoadAcquire (flagAt (cancelAt w) (log w))].
      split; [exact Hl1|]. split; [intros s; now eexists|].
      intros X. now specialize (Hnever X).
    + apply IH in H as (Hc' & Hh' & d3 & L3 & P3 & N3).
      split; [congruence|]. split; [tauto|].
      exists ((LoadAcquire (flagAt (cancelAt w) (log w)) :: d2) ++ d3).
      split; [rewrite L3, L2, <- app_assoc; reflexivity|]. split.
      * intros s. rewrite polls_app, P2. apply P3.
      * intros X. destruct N3 as (-> & N3 & K3); [congruence|].
        split; [reflexivity|].
        rewrite loads_app, emitted_app, candidates_app. simpl.
        rewrite N2, N3, K2, K3. split; reflexivity.
Qed.

Lemma searchDirs_checks recurse (directory searchTerm : string)
    (names : list string) :
  (forall (name : string) (w0 : Worker) (e0 : string) (w1 : Worker),
     recurse (Fs.absoluteFilePath directory name) searchTerm w0 = Some (e0, w1) ->
     e0 = "" /\ cancelAt w1 = cancelAt w0 /\ (honest w0 -> honest w1) /\
     exists d, log w1 = log w0 ++ d /\
               (forall s, s <> AfterProgress -> exists s', polls s d = Some s') /\
               (cancelAt w0 = None -> loads d = candidates root (emitted d))) ->
  forall (w : Worker) (e : string) (w' : Worker),
    searchDirs toLower recurse directory searchTerm names w = Some (e, w') ->
    e = "" /\ cancelAt w' = cancelAt w /\ (honest w -> honest w') /\
    exists d, log w' = log w ++ d /\
              (forall s, exists s', polls s d = Some s') /\
              (cancelAt w = None ->
               loads d = (List.length names + candidates root (emitted d))%nat).
Proof.
  intros Hrec.
  induction names as [|filename rest IH]; intros w e w' H.
  - inversion H; subst. split; [reflexivity|]. split; [reflexivity|].
    split; [trivial|]. exists []. rewrite app_nil_r. split; [reflexivity|].
    split; [intros s; now exists s | reflexivity].
  - rewrite searchDirs_cons in H.
    destruct (loadCancelled w) as [c1 w1] eqn:E1.
    pose proof (turn_checks directory searchTerm filename w c1 w1 E1)
      as (Hc2 & Hh2 & Hstop & Hnever & d2 & L2 & N2 & K2 & s2 & S2 & P2).
    cbv zeta in Hc2, Hh2, L2.
    pose proof (loadCancelled_spec _ _ _ E1) as (Hc1 & Hl1 & Hv1).
    destruct c1.
    + inversion H; subst. split; [reflexivity|]. split; [exact Hc1|].
      split; [apply (honest_load _ _ _ E1)|].
      exists [LoadAcquire (flagAt (cancelAt w) (log w))].
      split; [exact Hl1|]. split; [intros s; now eexists|].
      intros X. now specialize (Hnever X).
    + destruct (recurse _ searchTerm _) as [[e3 w3]|] eqn:E3; [|discriminate].
      apply Hrec in E3 as (-> & Hc3 & Hh3 & d3 & L3 & P3 & N3).
      cbn [QString.isEmpty negb] in H.
      apply IH in H as (-> & Hc' & Hh' & d4 & L4 & P4 & N4).
      split; [reflexivity|]. split; [congruence|]. split; [tauto|].
      exists ((LoadAcquire (flagAt (cancelAt w) (log w)) :: d2) ++ d3 ++ d4).
      split; [rewrite L4, L3, L2, <- !app_assoc; reflexivity|]. split.
      * intros s. rewrite polls_app, P2, polls_app.
        destruct (P3 s2) as [s3 ->]; [destruct S2; subst; discriminate|].
        apply P4.
      * intros X.
        rewrite !loads_app, !emitted_app, !candidates_app. simpl.
        rewrite N2, K2, N3, N4 by congruence. simpl. lia.
Qed.

Lemma searchRecursively_checks :
  forall (fuel : nat) (directory searchTerm : string) (w : Worker)
         (e : string) (w' : Worker),
    searchRecursively root toLower fuel directory searchTerm w = Some (e, w') ->
    e = "" /\ cancelAt w' = cancelAt w /\ (honest w -> honest w') /\
    exists d, log w' = log w ++ d /\
              (forall s, s <> AfterProgress -> exists s', polls s d = Some s') /\
              (cancelAt w = None -> loads d = candidates root (emitted d)).
Proof.
  assert (forall (w w' : Worker) (e : string),
            Some ("", w) = Some (e, w') ->
            e = "" /\ cancelAt w' = cancelAt w /\ (honest w -> honest w') /\
            exists d, log w' = log w ++ d /\
              (forall s, s <> AfterProgress -> exists s', polls s d = Some s') /\
              (cancelAt w = None -> loads d = candidates root (emitted d)))
    as Hskip.
  { intros w w' e H. inversion H; subst. split; [reflexivity|].
    split; [reflexivity|]. split; [trivial|]. exists []. rewrite app_nil_r.
    split; [reflexivity|]. split; [intros s _; now exists s | reflexivity]. }
  induction fuel as [|fuel IH]; intros directory searchTerm w e w' H;
    [discriminate|].
  rewrite searchRecursively_succ in H.
  destruct (_ || _); [now apply Hskip|].
  destruct (Fs.isSymLink root directory); [now apply Hskip|].
  destruct (negb _); [now apply Hskip|].
  cbv zeta in H.
  set (w1 := emit (progressChanged directory)
                  (withCurrentDirectory directory w)) in H.
  assert (honest w -> honest w1) as Hh1.
  { intros X. apply honest_emit. exact X. }
  destruct (searchFiles toLower directory searchTerm _ w1) as [c w2] eqn:E2.
  apply searchFiles_checks in E2 as (Hc2 & Hh2 & d2 & L2 & P2 & N2).
  assert (e = "" /\ cancelAt w' = cancelAt w2 /\ (honest w2 -> honest w') /\
          exists d3, log w' = log w2 ++ d3 /\
            (forall s, exists s', polls s d3 = Some s') /\
            (cancelAt w2 = None ->
             loads d3 = (List.length (Fs.entryListDirs root directory)
                         + candidates root (emitted d3))%nat))
    as (-> & Hc3 & Hh3 & d3 & L3 & P3 & N3).
  { destruct c.
    - inversion H; subst. split; [reflexivity|]. split; [reflexivity|].
      split; [trivial|]. exists []. rewrite app_nil_r. split; [reflexivity|].
      split; [intros s; now exists s|].
      intros X. rewrite Hc2 in X. destruct (N2 X) as [Y _]. discriminate.
    - apply searchDirs_checks in H; [exact H|].
      intros name w0 e0 w3. apply IH. }
  split; [reflexivity|]. split; [rewrite Hc3, Hc2; reflexivity|].
  split; [tauto|].
  exists ([Emit (progressChanged directory)] ++ d2 ++ d3). split; [|split].
  - rewrite L3, L2. simpl. rewrite <- !app_assoc. reflexivity.
  - intros s Hs.
    assert (polls s ([Emit (progressChanged directory)] ++ d2 ++ d3)
            = polls AfterProgress (d2 ++ d3)) as ->
      by (destruct s; [reflexivity | reflexivity | contradiction]).
    rewrite polls_app. destruct (P2 AfterProgress) as [s2 ->]. apply P3.
  - intros X. destruct (N2 X) as (_ & N2' & K2).
    rewrite !loads_app, !emitted_app, !candidates_app. simpl.
    rewrite N2', K2, N3 by (rewrite Hc2; exact X). lia.
Qed.

(** *** Reading the record of a walk *)

Lemma polls_to_AfterLoad (l : list (action signal)) :
  forall s, polls s l = Some AfterLoad ->
            (l = [] /\ s = AfterLoad) \/ exists l' v, l = l' ++ [LoadAcquire v].
Proof.
  induction l as [|a l IH] using rev_ind; intros s H.
  - left. simpl in H. inversion H. now split.
  - right. rewrite polls_app in H.
    destruct (polls s l) as [s1|]; [|discriminate]. simpl in H.
    destruct a as [x|v]; [|now exists l, v].
    destruct x, s1; simpl in H; discriminate.
Qed.

Lemma polls_to_AfterMatch (l : list (action signal)) :
  forall s, polls s l = Some AfterMatch ->
            (l = [] /\ s = AfterMatch) \/
            exists l' q, l = l' ++ [Emit (matchFound q)] /\
                         polls s l' = Some AfterLoad.
Proof.
  induction l as [|a l IH] using rev_ind; intros s H.
  - left. simpl in H. inversion H. now split.
  - right. rewrite polls_app in H.
    destruct (polls s l) as [s1|] eqn:E; [|discriminate]. simpl in H.
    destruct a as [x|v]; [|discriminate].
    destruct x, s1; simpl in H; try discriminate.
    now exists l, fullname.
Qed.

(** A turn emits its match right after its check. *)
Lemma match_follows_check (l pre post : list (action signal)) (q : string)
    (s s' : phase) :
  polls s l = Some s' -> s <> AfterLoad ->
  l = pre ++ Emit (matchFound q) :: post ->
  exists pre' v, pre = pre' ++ [LoadAcquire v].
Proof.
  intros H Hs ->. rewrite polls_app in H.
  destruct (polls s pre) as [s1|] eqn:E; [|discriminate]. simpl in H.
  destruct s1; try discriminate.
  apply polls_to_AfterLoad in E as [[_ X]|X]; [contradiction | exact X].
Qed.

(** The progress of a directory comes first of all, or right after the check
    of the turn that recurses into it, or after the match of that turn. *)
Lemma progress_follows_check (l pre post : list (action signal)) (p : string)
    (s' : phase) :
  polls AfterMatch l = Some s' ->
  l = pre ++ Emit (progressChanged p) :: post ->
  pre = [] \/
  (exists pre' v, pre = pre' ++ [LoadAcquire v]) \/
  (exists pre' v q, pre = pre' ++ [LoadAcquire v; Emit (matchFound q)]).
Proof.
  intros H ->. rewrite polls_app in H.
  destruct (polls AfterMatch pre) as [s1|] eqn:E; [|discriminate]. simpl in H.
  destruct s1; try discriminate.
  - apply polls_to_AfterLoad in E as [[_ X]|X]; [discriminate|]. right. now left.
  - apply polls_to_AfterMatch in E as [[X _]|(l' & q & -> & E)]; [now left|].
    apply polls_to_AfterLoad in E as [[_ X]|(l'' & v & ->)]; [discriminate|].
    right. right. exists l'', v, q. now rewrite <- app_assoc.
Qed.

(** A stretch without a check holds a match at most, then the progress of a
    directory at most. *)
Lemma polls_without_check (b : list (action signal)) (s s' : phase) :
  polls s b = Some s' -> loads b = O -> lastNotifications b.
Proof.
  intros H Hn.
  destruct b as [|[x|v] b]; [constructor | | discriminate].
  destruct b as [|[y|v] b]; [| | discriminate].
  - destruct x, s; simpl in H; try discriminate; constructor.
  - destruct b as [|[z|v] b]; [| | discriminate].
    + destruct x, s; simpl in H; try discriminate;
        destruct y; simpl in H; try discriminate; constructor.
    + exfalso. destruct x, s; simpl in H; try discriminate;
        destruct y; simpl in H; try discriminate;
        destruct z; simpl in H; discriminate.
Qed.

(** A record splits into a stretch without a check and a rest that is empty or
    starts with a check. *)
Lemma until_next_check (l : list (action signal)) :
  exists b rest,
    l = b ++ rest /\ loads b = O /\
    (rest = [] \/ exists v rest', rest = LoadAcquire v :: rest').
Proof.
  induction l as [|[x|v] l (b & rest & E & Hb & Hr)].
  - exists [], []. repeat split. now left.
  - exists (Emit x :: b), rest. subst l. repeat split; assumption.
  - exists [], (LoadAcquire v :: l). repeat split. right. now eexists _, _.
Qed.

End SearchChecks.

(** ** The claims about the search *)

Section SearchClaims.
Import SearchWorker.

Lemma flagAt_never {S : Type} (l : list (action S)) : flagAt None l = KeepRunning.
Proof. reflexivity. Qed.

Lemma continues_log (root : Fs.node) (w w' : Worker) :
  continues root w w' ->
  cancelAt w' = cancelAt w /\
  exists d, log w' = log w ++ d /\ Forall (walkSignal root) (emitted d).
Proof.
  intros (Hc & d1 & d2 & Hl & _ & Ho & _ & Hs). split; [exact Hc|].
  exists (d1 ++ d2). split; [exact Hl|].
  rewrite emitted_app, (onlyCancelledLoads_emitted _ Ho), app_nil_r. exact Hs.
Qed.

(** What a started search records: the walk, then the two last signals. *)
Lemma started_search (root : Fs.node) (toLower tr : string -> string) (fuel : nat)
    (cancel : option nat) (directory searchTerm : string) (w : Worker) :
  Fs.wellFormed root = true ->
  isRunning w = false -> directory <> "" -> searchTerm <> "" ->
  (Fs.depth root directory < fuel)%nat ->
  exists w1 w',
    let w0 := mkWorker directory searchTerm directory false cancel [] in
    searchRecursively root toLower fuel directory (toLower searchTerm) w0
      = Some ("", w1) /\
    continues root w0 w1 /\
    startSearch root toLower tr fuel cancel directory searchTerm w = Some w' /\
    log w' = log w1 ++ [Emit (progressChanged ""); Emit done] /\
    Forall (walkSignal root) (emitted (log w1)).
Proof.
  intros Hroot Hrun Hd Ht Hfuel.
  unfold startSearch. rewrite Hrun.
  destruct directory as [|c0 directory]; [contradiction|].
  destruct searchTerm as [|c1 searchTerm]; [contradiction|].
  cbn [QString.isEmpty orb]. unfold run. cbn [m_directory m_searchTerm].
  set (w0 := mkWorker (String c0 directory) (String c1 searchTerm)
                      (String c0 directory) false cancel []).
  destruct (searchRecursively_spec root toLower Hroot fuel (String c0 directory)
              (toLower (String c1 searchTerm)) w0 Hd Hfuel)
    as (w1 & E & K).
  exists w1. rewrite E. cbn [QString.isEmpty negb].
  eexists. split; [reflexivity|]. split; [exact K|].
  split; [reflexivity|]. split.
  - simpl. rewrite <- app_assoc. reflexivity.
  - apply continues_log in K as (_ & d & L & Hs). simpl in L. now rewrite L.
Qed.

(** Without cancellation the loop over the directories reports every
    matching name, whatever the entry turns out to be. *)
Lemma searchDirs_reports_match (root : Fs.node) (toLower : string -> string) recurse
    (directory searchTerm : string) (names : list string) :
  (forall name, In name names ->
     forall w, exists w',
       recurse (Fs.absoluteFilePath directory name) searchTerm w = Some ("", w') /\
       continues root w w') ->
  forall w name,
    cancelAt w = None -> In name names -> nameMatches toLower name searchTerm = true ->
    exists w',
      searchDirs toLower recurse directory searchTerm names w = Some ("", w') /\
      In (Emit (matchFound (Fs.absoluteFilePath directory name))) (log w').
Proof.
  induction names as [|filename rest IH]; intros Hrec w name Hc Hin Hm;
    [destruct Hin|].
  rewrite searchDirs_cons.
  destruct (loadCancelled w) as [c w1] eqn:E1.
  pose proof (loadCancelled_spec _ _ _ E1) as (Hc1 & Hl1 & Hv).
  rewrite Hc, flagAt_never in Hv. simpl in Hv. subst c.
  set (w2 := if nameMatches toLower filename searchTerm
             then emit (matchFound (Fs.absoluteFilePath directory filename)) w1
             else w1).
  assert (cancelAt w2 = None) as Hc2
    by (unfold w2; destruct (nameMatches toLower filename searchTerm); simpl; congruence).
  destruct (Hrec filename (or_introl eq_refl) w2) as (w3 & -> & K3).
  cbn [QString.isEmpty negb].
  apply continues_log in K3 as (Hc3 & d3 & Hl3 & _).
  destruct Hin as [<-|Hin].
  - destruct (searchDirs_spec root toLower recurse directory searchTerm rest
                (fun n Hn => Hrec n (or_intror Hn)) w3) as (w' & E & K).
    exists w'. split; [exact E|].
    apply continues_log in K as (_ & d & Hl & _).
    rewrite Hl, Hl3. apply in_or_app; left. apply in_or_app; left.
    unfold w2. rewrite Hm. simpl. apply in_or_app; right. now left.
  - apply (IH (fun n Hn => Hrec n (or_intror Hn)) w3 name); try assumption.
    congruence.
Qed.

(** C5 (termination and skipped paths).  On a tree with legal names, with
    fuel above the depth of the start directory, [searchRecursively] returns,
    and without an error message, links to ancestors or not.  Called on a link
    or on a path that starts with [/proc] or [/sys/block] it returns at once,
    the worker untouched.  It reports progress only in directories that are
    neither.  Unless cancelled, the loop over the directories of a clean
    path reports every matching name that the directory lists before the
    recursive call looks at the entry, a link included. *)
Theorem C5_search_terminates_and_skips_links :
  forall (root : Fs.node) (toLower : string -> string) (fuel : nat)
         (directory searchTerm : string) (w : Worker),
    Fs.wellFormed root = true ->
    directory <> "" ->
    (Fs.depth root directory < fuel)%nat ->
    exists w',
      searchRecursively root toLower fuel directory searchTerm w = Some ("", w') /\
      (Fs.isSymLink root directory = true \/
       QString.startsWith directory "/proc" = true \/
       QString.startsWith directory "/sys/block" = true -> w' = w) /\
      (exists d,
         log w' = log w ++ d /\
         forall p, In (progressChanged p) (emitted d) ->
                   Fs.isSymLink root p = false /\
                   QString.startsWith p "/proc" = false /\
                   QString.startsWith p "/sys/block" = false) /\
      (Fs.isClean directory = true ->
       cancelAt w = None ->
       QString.startsWith directory "/proc" = false ->
       QString.startsWith directory "/sys/block" = false ->
       Fs.isSymLink root directory = false ->
       Fs.dirExists root directory = true ->
       forall name,
         In name (Fs.entryListDirs root directory) ->
         nameMatches toLower name searchTerm = true ->
         In (Emit (matchFound (Fs.absoluteFilePath directory name))) (log w')).
Proof.
  intros root toLower fuel directory searchTerm w Hroot Hne Hfuel.
  destruct (searchRecursively_spec root toLower Hroot fuel directory searchTerm w
              Hne Hfuel)
    as (w' & E & K).
  exists w'. split; [exact E|]. split; [|split].
  - destruct fuel as [|fuel]; [lia|].
    rewrite searchRecursively_succ in E. intros [H | [H | H]].
    + destruct (_ || _); [now inversion E|]. rewrite H in E. now inversion E.
    + rewrite H in E. now inversion E.
    + rewrite H, orb_true_r in E. now inversion E.
  - apply continues_log in K as (_ & d & Hl & Hs).
    exists d. split; [exact Hl|]. intros p Hp.
    rewrite Forall_forall in Hs. specialize (Hs _ Hp).
    destruct Hs as (_ & H1 & H2 & H3 & _). repeat split; assumption.
  - intros _ Hc Hp Hb Hl He name Hin Hm.
    destruct fuel as [|fuel]; [lia|].
    rewrite searchRecursively_succ, Hp, Hb, Hl, He in E.
    cbn [orb negb] in E. cbv zeta in E.
    set (w1 := emit (progressChanged directory)
                    (withCurrentDirectory directory w)) in *.
    destruct (searchFiles toLower directory searchTerm
                (Fs.entryListFiles root directory) w1) as [c w2] eqn:E2.
    apply searchFiles_spec with (root := root) in E2 as [Kt Kf].
    destruct c.
    { destruct (Kt eq_refl) as [_ X]. simpl in X. rewrite Hc in X.
      discriminate. }
    destruct (Kf eq_refl) as (Hc2 & _).
    destruct (searchDirs_reports_match root toLower
                (searchRecursively root toLower fuel)
                directory searchTerm (Fs.entryListDirs root directory))
      with (w := w2) (name := name) as (w'' & E' & Hin'); try assumption.
    + intros n Hn w0. apply searchRecursively_spec; [exact Hroot | |].
      * apply absoluteFilePath_not_empty.
      * pose proof (depth_child root directory n Hroot Hl He Hn). lia.
    + rewrite Hc2. exact Hc.
    + rewrite E' in E. inversion E; subst. exact Hin'.
Qed.

Lemma C5_witness :
  exists w',
    searchRecursively Sample.tree Sample.asciiLower 4 "/home/abc" "back"
      Sample.searcher = Some ("", w') /\
    Fs.isSymLink Sample.tree "/home/abc/back" = true /\
    In (Emit (matchFound "/home/abc/back")) (log w') /\
    ~ In (progressChanged "/home/abc/back") (emitted (log w')) /\
    emitted (log w')
    = [progressChanged "/home/abc"; matchFound "/home/abc/back"].
Proof.
  destruct (C5_search_terminates_and_skips_links Sample.tree Sample.asciiLower 4
              "/home/abc" "back" Sample.searcher)
    as (w' & E & _ & (d & Hd & Hp) & Hm).
  - vm_compute. reflexivity.
  - discriminate.
  - vm_compute. lia.
  - exists w'. split; [exact E|]. split; [vm_compute; reflexivity|]. split.
    + apply (Hm eq_refl eq_refl eq_refl eq_refl eq_refl eq_refl "back").
      * vm_compute. now left.
      * vm_compute. reflexivity.
    + split.
      * intros X. simpl in Hd. rewrite Hd in X.
        destruct (Hp _ X) as [Y _]. vm_compute in Y. discriminate.
      * vm_compute in E. inversion E. vm_compute. reflexivity.
Defined.

(** Lists cut at a load that read [Cancelled]. *)
Lemma cut_after_keepRunning (d1 rest pre post : list (action signal)) :
  noCancelledLoad d1 ->
  pre ++ LoadAcquire Cancelled :: post = d1 ++ rest ->
  exists pre', pre' ++ LoadAcquire Cancelled :: post = rest.
Proof.
  revert pre. induction d1 as [|a d1 IH]; intros pre Hn H.
  - now exists pre.
  - destruct pre as [|b pre]; simpl in H; inversion H; subst.
    + exfalso. apply Hn. now left.
    + apply (IH pre); [|assumption]. intros X. apply Hn. now right.
Qed.

Lemma cut_inside_cancelled (d2 tail pre post : list (action signal)) :
  onlyCancelledLoads d2 -> noCancelledLoad tail ->
  pre ++ LoadAcquire Cancelled :: post = d2 ++ tail ->
  emitted post = emitted tail.
Proof.
  revert pre. induction d2 as [|a d2 IH]; intros pre Ho Hn H.
  - exfalso. apply Hn. simpl in H. rewrite <- H. apply in_or_app. right. now left.
  - assert (onlyCancelledLoads d2) as Ho' by (intros b Hb; apply Ho; now right).
    destruct pre as [|b pre]; simpl in H; inversion H; subst.
    + rewrite emitted_app, (onlyCancelledLoads_emitted _ Ho'). reflexivity.
    + now apply (IH pre).
Qed.

(** C6 (cancellation), as the code has it.  A search that starts returns;
    its record is that of the walk followed by the empty progress
    notification and one [done], and the walk emits only matches and progress
    in entered directories (no other [done], no error).  The flag is checked
    at the head of every turn of both loops: every check reads the flag as it
    is then, every match follows directly a check that read [KeepRunning],
    the progress of a directory is the first item of the walk or follows such
    a check directly or behind the match of the same turn, and a walk that is
    never cancelled makes one check for every candidate of every directory
    whose progress it reports.  After a check that read [Cancelled] the walk
    only checks again, reading [Cancelled].  So from the moment the flag is
    set the walk emits what lies before its next check, one match at most and
    then the progress of one directory at most, and nothing after it. *)
Theorem C6_cancelled_search_winds_up :
  forall (root : Fs.node) (toLower tr : string -> string) (fuel : nat)
         (cancel : option nat) (directory searchTerm : string) (w : Worker),
    Fs.wellFormed root = true ->
    isRunning w = false ->
    directory <> "" -> searchTerm <> "" ->
    (Fs.depth root directory < fuel)%nat ->
    exists w' walk,
      startSearch root toLower tr fuel cancel directory searchTerm w = Some w' /\
      log w' = walk ++ [Emit (progressChanged ""); Emit done] /\
      Forall (walkSignal root) (emitted walk) /\
      (forall pre v post,
         walk = pre ++ LoadAcquire v :: post -> v = flagAt cancel pre) /\
      (forall pre q post,
         walk = pre ++ Emit (matchFound q) :: post ->
         exists pre', pre = pre' ++ [LoadAcquire KeepRunning]) /\
      (forall pre p post,
         walk = pre ++ Emit (progressChanged p) :: post ->
         pre = [] \/
         (exists pre', pre = pre' ++ [LoadAcquire KeepRunning]) \/
         (exists pre' q,
            pre = pre' ++ [LoadAcquire KeepRunning; Emit (matchFound q)])) /\
      (cancel = None -> loads walk = candidates root (emitted walk)) /\
      (forall pre post,
         walk = pre ++ LoadAcquire Cancelled :: post ->
         onlyCancelledLoads post) /\
      (forall k pre post,
         cancel = Some k -> walk = pre ++ post -> (k <= List.length pre)%nat ->
         exists b rest,
           post = b ++ rest /\ lastNotifications b /\ onlyCancelledLoads rest).
Proof.
  intros root toLower tr fuel cancel directory searchTerm w Hroot Hrun Hd Ht Hfuel.
  destruct (started_search root toLower tr fuel cancel directory searchTerm w
              Hroot Hrun Hd Ht Hfuel) as (w1 & w' & E1 & K & E & L & Hs).
  cbv zeta in E1, K.
  exists w', (log w1). split; [exact E|]. split; [exact L|]. split; [exact Hs|].
  apply searchRecursively_checks in E1
    as (_ & Hc & Hh & d & Ld & Hp & Hn).
  simpl in Hc, Ld, Hn. subst d.
  assert (honest w1) as Hhonest.
  { apply Hh. intros pre v post X. simpl in X. now destruct pre. }
  destruct (Hp AfterMatch) as [s' Hpolls]; [discriminate|].
  assert (forall pre post,
            log w1 = pre ++ LoadAcquire Cancelled :: post ->
            onlyCancelledLoads post) as Hstop.
  { intros pre post X.
    destruct K as (_ & d1 & d2 & Hl & Hn1 & Ho2 & _). simpl in Hl.
    rewrite Hl in X. symmetry in X.
    apply cut_after_keepRunning in X as [pre' X]; [|exact Hn1].
    intros a Ha. apply Ho2. rewrite <- X. apply in_or_app. right. now right. }
  assert (forall pre v a post,
            log w1 = pre ++ LoadAcquire v :: Emit a :: post ->
            v = KeepRunning) as Hkeep.
  { intros pre v a post X. destruct v; [reflexivity|].
    specialize (Hstop _ _ X (Emit a) (or_introl eq_refl)). discriminate. }
  split; [|split; [|split; [|split; [|split]]]].
  - intros pre v post X. rewrite <- Hc. exact (Hhonest _ _ _ X).
  - intros pre q post X.
    destruct (match_follows_check _ _ _ _ _ _ Hpolls ltac:(discriminate) X)
      as (pre' & v & ->).
    exists pre'. rewrite <- app_assoc in X. simpl in X.
    now rewrite (Hkeep _ _ _ _ X).
  - intros pre p post X.
    destruct (progress_follows_check _ _ _ _ _ Hpolls X)
      as [->|[(pre' & v & ->)|(pre' & v & q & ->)]]; [now left | |].
    + right. left. exists pre'. rewrite <- app_assoc in X. simpl in X.
      now rewrite (Hkeep _ _ _ _ X).
    + right. right. exists pre', q. rewrite <- app_assoc in X. simpl in X.
      now rewrite (Hkeep _ _ _ _ X).
  - exact Hn.
  - exact Hstop.
  - intros k pre post Hk X Hle.
    destruct (until_next_check post) as (b & rest & -> & Hb & Hr).
    exists b, rest. split; [reflexivity|].
    rewrite X, polls_app in Hpolls.
    destruct (polls AfterMatch pre) as [s1|]; [|discriminate].
    rewrite polls_app in Hpolls.
    destruct (polls s1 b) as [s2|] eqn:Eb; [|discriminate].
    split; [exact (polls_without_check _ _ _ Eb Hb)|].
    destruct Hr as [->|(v & rest' & ->)]; [intros a []|].
    rewrite app_assoc in X.
    pose proof (Hhonest _ _ _ X) as Hv. rewrite Hc in Hv. simpl in Hv.
    rewrite Hk in Hv. unfold flagAt in Hv.
    replace (k <=? List.length (pre ++ b))%nat with true in Hv
      by (symmetry; apply Nat.leb_le; rewrite length_app; lia).
    subst v. intros a [<-|Ha]; [reflexivity|].
    exact (Hstop _ _ X a Ha).
Qed.

Lemma C6_witness :
  exists w',
    startSearch Sample.tree Sample.asciiLower Sample.noTranslation 4 (Some 5%nat)
      "/home" "A" Sample.searcher = Some w' /\
    log w' =
      [Emit (progressChanged "/home"); LoadAcquire KeepRunning;
       Emit (matchFound "/home/a.txt"); LoadAcquire KeepRunning;
       Emit (matchFound "/home/abc"); Emit (progressChanged "/home/abc");
       LoadAcquire Cancelled; Emit (progressChanged ""); Emit done].
Proof.
  destruct (C6_cancelled_search_winds_up Sample.tree Sample.asciiLower
              Sample.noTranslation 4 (Some 5%nat) "/home" "A" Sample.searcher)
    as (w' & walk & E & _).
  - vm_compute. reflexivity.
  - reflexivity.
  - discriminate.
  - discriminate.
  - vm_compute. lia.
  - exists w'. split; [exact E|].
    vm_compute in E. inversion E. vm_compute. reflexivity.
Defined.

(** C6 as the specification words it fails: the owner cancels right after
    the match of the directory [/home/abc] is emitted, and the progress
    notification of that directory follows all the same. *)
Lemma C6_counterexample :
  ~ (forall (root : Fs.node) (toLower tr : string -> string) (fuel k : nat)
            (directory searchTerm : string) (w w' : Worker),
       startSearch root toLower tr fuel (Some k) directory searchTerm w = Some w' ->
       silentFrom k (log w') = true).
Proof.
  intros H.
  specialize (H Sample.tree Sample.asciiLower Sample.noTranslation 4%nat 5%nat
                "/home" "a" Sample.searcher _ eq_refl).
  vm_compute in H. discriminate.
Qed.

End SearchClaims.

(** ** Further properties of the directory model *)

Section ModelSelection.
Import FileModel.

Lemma setSelected_same (f : StatFileInfo) : setSelected (isSelected f) f = f.
Proof. destruct f; reflexivity. Qed.

Lemma setSelected_twice (a b : bool) (f : StatFileInfo) :
  setSelected a (setSelected b f) = setSelected a f.
Proof. reflexivity. Qed.

Lemma replace_length {A : Type} (i : nat) (v : A) (l : list A) :
  List.length (QList.replace i v l) = List.length l.
Proof.
  revert i; induction l as [|x l IH]; intros [|i]; simpl; try reflexivity.
  now rewrite IH.
Qed.

Lemma replace_nth {A : Type} (i : nat) (v x : A) (l : list A) :
  nth_error l i = Some x -> nth_error (QList.replace i v l) i = Some v.
Proof.
  revert i; induction l as [|y l IH]; intros [|i] H; simpl in *; try discriminate.
  - reflexivity.
  - now apply IH.
Qed.

Lemma replace_back {A : Type} (i : nat) (v x : A) (l : list A) :
  nth_error l i = Some x -> QList.replace i x (QList.replace i v l) = l.
Proof.
  revert i; induction l as [|y l IH]; intros [|i] H; simpl in *; try discriminate.
  - now inversion H.
  - f_equal. now apply IH.
Qed.

Lemma nth_error_in_range {A : Type} (l : list A) (i : Z) :
  0 <= i < Z.of_nat (List.length l) ->
  exists x, nth_error l (Z.to_nat i) = Some x.
Proof.
  intros H. destruct (nth_error l (Z.to_nat i)) as [x|] eqn:E; [now exists x|].
  apply nth_error_None in E. lia.
Qed.

Lemma in_range_guard (m : Model) (i : Z) :
  0 <= i < fileCount m -> (i >=? count m) || (i <? 0) = false.
Proof.
  unfold fileCount. intros H. apply orb_false_iff. split.
  - destruct (i >=? count m) eqn:E; [|reflexivity]. apply Z.geb_le in E. lia.
  - apply Z.ltb_ge. lia.
Qed.

(** The number of selected entries after one entry is replaced by a copy
    with the other selection state. *)
Lemma selected_after_flip (l : list StatFileInfo) (i : nat) (f : StatFileInfo) :
  nth_error l i = Some f ->
  Z.of_nat (List.length (filter isSelected
                           (QList.replace i (setSelected (negb (isSelected f)) f) l))) =
  Z.of_nat (List.length (filter isSelected l))
  + (if isSelected f then -1 else 1).
Proof.
  revert i; induction l as [|y l IH]; intros [|i] H;
    cbn -[Z.of_nat] in *; try discriminate.
  - inversion H; subst. destruct (isSelected f); cbn -[Z.of_nat]; lia.
  - specialize (IH i H). destruct (isSelected y); cbn -[Z.of_nat] in *; lia.
Qed.

Lemma toggleSelectedFile_in_range (m : Model) (i : Z) (f : StatFileInfo) :
  0 <= i < fileCount m ->
  nth_error (m_files m) (Z.to_nat i) = Some f ->
  toggleSelectedFile i m =
  emit selectedFileCountChanged
    (emit (dataChanged i)
       (withFiles (QList.replace (Z.to_nat i)
                     (setSelected (negb (isSelected f)) f) (m_files m))
          (withSelectedCount
             (m_selectedFileCount m + (if isSelected f then -1 else 1)) m))).
Proof.
  intros Hi Hf. unfold toggleSelectedFile.
  rewrite (in_range_guard m i Hi), Hf.
  destruct (isSelected f); reflexivity.
Qed.

(** Toggling a valid row flips the selection of that entry alone, keeps the
    counter in step with the entries, and announces the row and the count. *)
Theorem toggleSelectedFile_flips_one_entry :
  forall (m : Model) (i : Z) (f : StatFileInfo),
    0 <= i < fileCount m ->
    nth_error (m_files m) (Z.to_nat i) = Some f ->
    let m' := toggleSelectedFile i m in
    nth_error (m_files m') (Z.to_nat i)
      = Some (setSelected (negb (isSelected f)) f) /\
    (forall j, j <> Z.to_nat i ->
               nth_error (m_files m') j = nth_error (m_files m) j) /\
    (selectedCountAgrees m -> selectedCountAgrees m') /\
    signals m' = signals m ++ [dataChanged i; selectedFileCountChanged].
Proof.
  intros m i f Hi Hf m'. subst m'.
  rewrite (toggleSelectedFile_in_range m i f Hi Hf). simpl.
  split; [eapply replace_nth; exact Hf|]. split; [|split].
  - intros j Hj. clear Hi. revert j Hj Hf.
    generalize (Z.to_nat i) as k. generalize (m_files m) as l.
    induction l as [|y l IH]; intros [|k] [|j] Hj Hf; simpl in *;
      try discriminate; try reflexivity; try congruence.
    apply IH; [congruence | assumption].
  - unfold selectedCountAgrees. simpl. intros ->.
    now rewrite (selected_after_flip _ _ _ Hf).
  - now rewrite <- app_assoc.
Qed.

Lemma toggleSelectedFile_flips_witness :
  map isSelected (m_files (toggleSelectedFile 1 Sample.fruits))
    = [false; true; true] /\
  m_selectedFileCount (toggleSelectedFile 1 Sample.fruits) = 2.
Proof.
  destruct (toggleSelectedFile_flips_one_entry Sample.fruits 1
              (Sample.fruit "banana" false)) as (_ & _ & H & _).
  - vm_compute. split; [discriminate | reflexivity].
  - reflexivity.
  - split; [vm_compute; reflexivity|].
    rewrite H; [vm_compute; reflexivity|]. vm_compute. reflexivity.
Defined.

(** Toggling the same valid row twice gives back the entries and the
    counter. *)
Theorem toggleSelectedFile_twice_restores :
  forall (m : Model) (i : Z),
    0 <= i < fileCount m ->
    let m' := toggleSelectedFile i (toggleSelectedFile i m) in
    m_files m' = m_files m /\ m_selectedFileCount m' = m_selectedFileCount m.
Proof.
  intros m i Hi m'. subst m'.
  destruct (nth_error_in_range (m_files m) i Hi) as [f Hf].
  rewrite (toggleSelectedFile_in_range m i f Hi Hf).
  set (f1 := setSelected (negb (isSelected f)) f).
  set (m1 := emit _ _).
  assert (0 <= i < fileCount m1) as Hi1
    by (unfold fileCount, count, m1; simpl; rewrite replace_length; exact Hi).
  assert (nth_error (m_files m1) (Z.to_nat i) = Some f1) as Hf1
    by (unfold m1; simpl; eapply replace_nth; exact Hf).
  rewrite (toggleSelectedFile_in_range m1 i f1 Hi1 Hf1). simpl.
  unfold f1 at 1 2. rewrite setSelected_twice. simpl. rewrite negb_involutive.
  rewrite setSelected_same. split.
  - now apply replace_back.
  - destruct (isSelected f); simpl; lia.
Qed.

Lemma toggleSelectedFile_twice_witness :
  m_files (toggleSelectedFile 2 (toggleSelectedFile 2 Sample.fruits))
    = m_files Sample.fruits.
Proof.
  apply (toggleSelectedFile_twice_restores Sample.fruits 2).
  vm_compute. split; [discriminate | reflexivity].
Defined.

End ModelSelection.

Section ModelRanges.
Import FileModel.

Lemma selectRangeLoop_cons (lo hi : Z) (selected : bool) (info : StatFileInfo)
    (rest : list StatFileInfo) (row n : Z) :
  selectRangeLoop lo hi selected (info :: rest) row n =
  let change :=
    (row >=? lo) && (row <=? hi) && isMatched info
    && negb (Bool.eqb (isSelected info) selected) in
  let info' := rangeSelected lo hi selected row info in
  let '(fs, sg, n') :=
    selectRangeLoop lo hi selected rest (row + 1)
                    (if isSelected info' then n + 1 else n) in
  (info' :: fs, if change then dataChanged row :: sg else sg, n').
Proof.
  simpl. unfold rangeSelected. rewrite Z.geb_leb.
  destruct ((lo <=? row) && (row <=? hi) && isMatched info); simpl;
    [|reflexivity].
  destruct (Bool.eqb (isSelected info) selected) eqn:E; simpl; [|reflexivity].
  apply Bool.eqb_prop in E. subst selected. rewrite setSelected_same.
  reflexivity.
Qed.

Lemma selectRangeLoop_spec (lo hi : Z) (selected : bool) (files : list StatFileInfo) :
  forall row n fs sg n',
    selectRangeLoop lo hi selected files row n = (fs, sg, n') ->
    List.length fs = List.length files /\
    (forall k f, nth_error files k = Some f ->
       nth_error fs k = Some (rangeSelected lo hi selected (row + Z.of_nat k) f)) /\
    n' = n + Z.of_nat (List.length (filter isSelected fs)).
Proof.
  induction files as [|info rest IH]; intros row n fs sg n' H.
  - simpl in H. inversion H; subst. repeat split; [|simpl; lia].
    intros [|k] f X; discriminate.
  - rewrite selectRangeLoop_cons in H. cbv zeta in H.
    destruct (selectRangeLoop lo hi selected rest (row + 1) _)
      as [[fs0 sg0] n0] eqn:E.
    inversion H; subst; clear H.
    destruct (IH _ _ _ _ _ E) as (Hlen & Hnth & Hn).
    split; [simpl; now rewrite Hlen|]. split.
    + intros [|k] f X; simpl in X.
      * inversion X; subst. simpl. now rewrite Z.add_0_r.
      * simpl. rewrite (Hnth k f X). do 2 f_equal. lia.
    + rewrite Hn. cbn -[Z.of_nat].
      destruct (isSelected (rangeSelected lo hi selected row info));
        cbn -[Z.of_nat]; lia.
Qed.

(** [selectRange] with valid bounds gives every matched entry of the rows
    between the bounds, taken in either order, the requested selection state,
    leaves every other entry as it was, and publishes the number of selected
    entries. *)
Theorem selectRange_selects_matched_rows :
  forall (m : Model) (firstIndex lastIndex : Z) (selected : bool),
    0 <= firstIndex < fileCount m ->
    0 <= lastIndex < fileCount m ->
    let m' := selectRange firstIndex lastIndex selected m in
    let lo := Z.min firstIndex lastIndex in
    let hi := Z.max firstIndex lastIndex in
    fileCount m' = fileCount m /\
    (forall k f, nth_error (m_files m) k = Some f ->
       nth_error (m_files m') k
       = Some (rangeSelected lo hi selected (Z.of_nat k) f)) /\
    selectedCountAgrees m'.
Proof.
  intros m a b selected Ha Hb m' lo hi. subst m'. unfold selectRange.
  pose proof (in_range_guard m a Ha) as Ga.
  pose proof (in_range_guard m b Hb) as Gb.
  apply orb_false_iff in Ga as [Ga1 Ga2]. apply orb_false_iff in Gb as [Gb1 Gb2].
  rewrite Ga1, Ga2, Gb1, Gb2. cbn [orb].
  assert ((if a >? b then (b, a) else (a, b)) = (lo, hi)) as ->.
  { unfold lo, hi. destruct (a >? b) eqn:E.
    - apply Z.gtb_lt in E. rewrite Z.min_r, Z.max_l by lia. reflexivity.
    - assert (a <= b) by (destruct (Z.gtb_spec a b); [discriminate | lia]).
      rewrite Z.min_l, Z.max_r by lia. reflexivity. }
  destruct (selectRangeLoop lo hi selected (m_files m) 0 0) as [[fs sg] n] eqn:E.
  destruct (selectRangeLoop_spec _ _ _ _ _ _ _ _ _ E) as (Hlen & Hnth & Hn).
  assert (forall X : Model, m_files X = fs ->
            m_selectedFileCount X = n -> selectedCountAgrees X) as Hagree
    by (intros X HX1 HX2; unfold selectedCountAgrees; rewrite HX1, HX2, Hn; lia).
  destruct (negb (n =? m_selectedFileCount (emitAll sg (withFiles fs m)))) eqn:En;
    unfold fileCount, count; simpl.
  - split; [now rewrite Hlen|]. split; [exact Hnth|]. now apply Hagree.
  - split; [now rewrite Hlen|]. split; [exact Hnth|].
    apply Hagree; [reflexivity|]. simpl.
    apply negb_false_iff, Z.eqb_eq in En. simpl in En. now symmetry.
Qed.

Lemma selectRange_selects_witness :
  map isSelected (m_files (selectRange 1 0 true Sample.fruits))
    = [true; true; true] /\
  m_selectedFileCount (selectRange 1 0 true Sample.fruits) = 3.
Proof.
  destruct (selectRange_selects_matched_rows Sample.fruits 1 0 true)
    as (_ & _ & H).
  - vm_compute. split; [discriminate | reflexivity].
  - vm_compute. split; [discriminate | reflexivity].
  - split; [vm_compute; reflexivity|].
    rewrite H. vm_compute. reflexivity.
Defined.

(** The two bounds of [selectRange] can be given in either order. *)
Theorem selectRange_bounds_in_either_order :
  forall (m : Model) (firstIndex lastIndex : Z) (selected : bool),
    selectRange firstIndex lastIndex selected m
    = selectRange lastIndex firstIndex selected m.
Proof.
  intros m a b selected. unfold selectRange.
  destruct (a >=? count m), (a <? 0), (b >=? count m), (b <? 0);
    try reflexivity.
  cbn [orb].
  assert ((if a >? b then (b, a) else (a, b))
          = (if b >? a then (a, b) else (b, a))) as ->; [|reflexivity].
  destruct (Z.gtb_spec a b), (Z.gtb_spec b a); try reflexivity; try lia.
  assert (a = b) by lia. now subst.
Qed.

Lemma clearSelectedLoop_entries (files : list StatFileInfo) (row : Z) :
  fst (clearSelectedLoop files row) = map (setSelected false) files /\
  List.length (snd (clearSelectedLoop files row)) = List.length files.
Proof.
  revert row. induction files as [|f files IH]; intros row; [now split|].
  simpl. destruct (IH (row + 1)) as [H1 H2].
  destruct (clearSelectedLoop files (row + 1)) as [fs sg]. simpl in *.
  now rewrite H1, H2.
Qed.

Lemma none_selected (l : list StatFileInfo) :
  filter isSelected (map (setSelected false) l) = [].
Proof. induction l as [|f l IH]; simpl; [reflexivity | exact IH]. Qed.

Lemma clearSelectedLoop_signals (files : list StatFileInfo) :
  forall row,
    snd (clearSelectedLoop files row)
    = map (fun k => dataChanged (row + Z.of_nat k)) (seq 0 (List.length files)).
Proof.
  induction files as [|f files IH]; intros row; [reflexivity|].
  cbn [clearSelectedLoop]. specialize (IH (row + 1)).
  destruct (clearSelectedLoop files (row + 1)) as [fs sg]. cbn [snd] in IH |- *.
  cbn [List.length seq map]. rewrite Z.add_0_r. f_equal.
  rewrite IH, <- seq_shift, map_map. apply map_ext. intros k. f_equal. lia.
Qed.

(** [clearSelectedFiles] deselects every entry and touches nothing else of
    it; the counter is zero, in step with the entries, and [selectedFiles]
    is empty.  It emits [dataChanged] for every row, selected before or
    not, from the first row to the last, and then
    [selectedFileCountChanged], whether the count changed or not. *)
Theorem clearSelectedFiles_deselects_all :
  forall m : Model,
    let m' := clearSelectedFiles m in
    m_files m' = map (setSelected false) (m_files m) /\
    m_selectedFileCount m' = 0 /\
    selectedCountAgrees m' /\
    selectedFiles m' = [] /\
    signals m'
    = signals m
      ++ map (fun k => dataChanged (Z.of_nat k)) (seq 0 (List.length (m_files m)))
      ++ [selectedFileCountChanged].
Proof.
  intros m m'. subst m'. unfold clearSelectedFiles.
  destruct (clearSelectedLoop_entries (m_files m) 0) as [H1 _].
  pose proof (clearSelectedLoop_signals (m_files m) 0) as H2.
  destruct (clearSelectedLoop (m_files m) 0) as [fs sg]. simpl in H1, H2.
  subst fs sg. unfold selectedCountAgrees, selectedFiles. simpl.
  rewrite none_selected. repeat split.
  now rewrite <- app_assoc.
Qed.

Lemma selectAllLoop_spec (files : list StatFileInfo) :
  forall row n fs sg n',
    selectAllLoop files row n = (fs, sg, n') ->
    fs = map (fun f => if isMatched f then setSelected true f else f) files /\
    n' = n + Z.of_nat (List.length (filter isMatched files)).
Proof.
  induction files as [|f files IH]; intros row n fs sg n' H.
  - simpl in H. inversion H; subst. split; [reflexivity | simpl; lia].
  - simpl in H. destruct (isMatched f) eqn:Em; cbn [negb] in H.
    + destruct (selectAllLoop files (row + 1) (n + 1)) as [[fs0 sg0] n0] eqn:E.
      inversion H; subst; clear H.
      destruct (IH _ _ _ _ _ E) as [-> ->].
      cbn -[Z.of_nat]. rewrite Em. cbn -[Z.of_nat]. split; [reflexivity | lia].
    + destruct (selectAllLoop files (row + 1) n) as [[fs0 sg0] n0] eqn:E.
      inversion H; subst; clear H.
      destruct (IH _ _ _ _ _ E) as [-> ->].
      cbn -[Z.of_nat]. rewrite Em. split; reflexivity.
Qed.

Lemma selected_after_selectAll (l : list StatFileInfo) :
  (forall f, In f l -> isSelected f = true -> isMatched f = true) ->
  List.length (filter isSelected
                 (map (fun f => if isMatched f then setSelected true f else f) l))
  = List.length (filter isMatched l).
Proof.
  induction l as [|f l IH]; intros H; [reflexivity|].
  cbn [map filter].
  assert (isSelected (if isMatched f then setSelected true f else f)
          = isMatched f) as ->.
  { destruct (isMatched f) eqn:Em; [reflexivity|].
    destruct (isSelected f) eqn:Es; [|reflexivity].
    rewrite (H f (or_introl eq_refl) Es) in Em. discriminate. }
  specialize (IH (fun g Hg => H g (or_intror Hg))).
  destruct (isMatched f); simpl; now rewrite IH.
Qed.

(** [selectAllFiles] selects the matched entries and leaves the others; the
    counter becomes the number of matched entries, which is the number of
    selected ones provided no unmatched entry was selected. *)
Theorem selectAllFiles_selects_the_matched :
  forall m : Model,
    let m' := selectAllFiles m in
    m_files m'
      = map (fun f => if isMatched f then setSelected true f else f) (m_files m) /\
    m_selectedFileCount m'
      = Z.of_nat (List.length (filter isMatched (m_files m))) /\
    (selectionWithinMatches m -> selectedCountAgrees m').
Proof.
  intros m m'. subst m'. unfold selectAllFiles.
  destruct (selectAllLoop (m_files m) 0 0) as [[fs sg] n] eqn:E.
  destruct (selectAllLoop_spec _ _ _ _ _ _ E) as [-> ->]. simpl.
  split; [reflexivity|]. split; [reflexivity|].
  unfold selectionWithinMatches, selectedCountAgrees. simpl. intros H.
  f_equal. symmetry. now apply selected_after_selectAll.
Qed.

Lemma selectAllFiles_witness :
  selectedCountAgrees (selectAllFiles Sample.fruits) /\
  m_selectedFileCount (selectAllFiles Sample.fruits) = 3.
Proof.
  destruct (selectAllFiles_selects_the_matched Sample.fruits) as (_ & H2 & H3).
  split; [|rewrite H2; vm_compute; reflexivity].
  apply H3. intros f Hf _.
  vm_compute in Hf. destruct Hf as [<-|[<-|[<-|[]]]]; reflexivity.
Defined.

(** Dooming deselects.  After [markSelectedAsDoomed] no entry is selected,
    the entries that were selected are doomed and the others are as before;
    after [markAsDoomed] the same holds of the entries whose path is in the
    list.  Neither touches the published count of selected entries. *)
Theorem dooming_deselects :
  forall (m : Model) (absoluteFilePaths : list string),
    let m1 := markSelectedAsDoomed m in
    let m2 := markAsDoomed absoluteFilePaths m in
    let listed f := existsb (String.eqb (absoluteFilePath f)) absoluteFilePaths in
    m_files m1
      = map (fun f => if isSelected f then setSelected false (setDoomed true f)
                      else f) (m_files m) /\
    Forall (fun f => isSelected f = false) (m_files m1) /\
    m_files m2
      = map (fun f => if listed f then setSelected false (setDoomed true f)
                      else f) (m_files m) /\
    Forall (fun f => if listed f then isSelected f = false /\ isDoomed f = true
                     else True)
           (m_files m2) /\
    m_selectedFileCount m1 = m_selectedFileCount m /\
    m_selectedFileCount m2 = m_selectedFileCount m.
Proof.
  intros m paths m1 m2 listed. subst m1 m2.
  unfold markSelectedAsDoomed, markAsDoomed.
  pose proof (doomLoop_entries isSelected (m_files m) 0) as H1.
  pose proof (doomLoop_entries listed (m_files m) 0) as H2.
  fold listed.
  destruct (doomLoop isSelected (m_files m) 0) as [fs1 sg1].
  destruct (doomLoop listed (m_files m) 0) as [fs2 sg2].
  simpl in H1, H2. subst fs1 fs2. simpl.
  split; [reflexivity|]. split; [|split; [reflexivity|split; [|split; reflexivity]]].
  - apply Forall_forall. intros f Hf. apply in_map_iff in Hf as [g [<- _]].
    destruct (isSelected g) eqn:E; [reflexivity | exact E].
  - apply Forall_forall. intros f Hf. apply in_map_iff in Hf as [g [<- _]].
    destruct (listed g) eqn:E.
    + assert (listed (setSelected false (setDoomed true g)) = true) as ->
        by exact E.
      split; reflexivity.
    + now rewrite E.
Qed.

End ModelRanges.

Section ModelFilter.
Import FileModel.

Variable tr : string -> string.
Variable engine : string -> string -> bool.
Variable env : FileModelWorker.DirEnv.

Lemma matched_after_refilter (hasMatch : string -> bool) (l : list StatFileInfo) :
  List.length (filter isMatched (map (refiltered hasMatch) l))
  = List.length (filter (fun f => hasMatch (fileName f)) l).
Proof.
  induction l as [|f l IH]; [reflexivity|]. cbn [map filter].
  rewrite refiltered_matched. destruct (hasMatch (fileName f)); simpl;
    now rewrite IH.
Qed.

Lemma matching_after_refilter (hasMatch : string -> bool) (l : list StatFileInfo) :
  List.length (filter (fun f => hasMatch (fileName f)) (map (refiltered hasMatch) l))
  = List.length (filter (fun f => hasMatch (fileName f)) l).
Proof.
  induction l as [|f l IH]; [reflexivity|]. cbn [map filter].
  assert (fileName (refiltered hasMatch f) = fileName f) as ->.
  { pose proof (refiltered_identity hasMatch f) as H. unfold identity in H.
    now inversion H. }
  destruct (hasMatch (fileName f)); simpl; now rewrite IH.
Qed.

Lemma refiltered_fileName (hasMatch : string -> bool) (f : StatFileInfo) :
  fileName (refiltered hasMatch f) = fileName f.
Proof.
  pose proof (refiltered_identity hasMatch f) as H. unfold identity in H.
  now inversion H.
Qed.

Lemma applyFilterString_settled :
  forall m : Model,
    let m' := applyFilterString engine m in
    let hasMatch := QRegularExpression.hasMatch engine (filterPattern m) in
    Forall (fun f => isMatched f = hasMatch (fileName f)) (m_files m') /\
    selectionWithinMatches m' /\
    selectedCountAgrees m' /\ matchedCountAgrees m' /\
    map identity (m_files m') = map identity (m_files m) /\
    map isDoomed (m_files m') = map isDoomed (m_files m) /\
    map absoluteFilePath (m_files m') = map absoluteFilePath (m_files m).
Proof.
  intros m m' hasMatch. subst m'.
  destruct (applyFilterString_spec engine m) as (Hf & Hm & Hs & _).
  fold hasMatch in Hf, Hm.
  split; [|split; [|split; [|split; [|split; [|split]]]]].
  - rewrite Hf. apply Forall_forall. intros f Hin.
    apply in_map_iff in Hin as [g [<- _]].
    now rewrite refiltered_matched, refiltered_fileName.
  - intros f Hin Hsel. rewrite Hf in Hin.
    apply in_map_iff in Hin as [g [<- _]].
    rewrite refiltered_selected in Hsel. apply andb_true_iff in Hsel as [_ X].
    now rewrite refiltered_matched.
  - exact Hs.
  - unfold matchedCountAgrees. rewrite Hm, Hf. f_equal. symmetry.
    apply matched_after_refilter.
  - rewrite Hf, map_map. apply map_ext. apply refiltered_identity.
  - rewrite Hf, map_map. apply map_ext. apply refiltered_doomed.
  - rewrite Hf, map_map. apply map_ext. intros f. unfold refiltered.
    destruct (negb _ || _); [|reflexivity].
    destruct (negb _); reflexivity.
Qed.

(** After a filter pass the flags and the counters are in step: an entry is
    matched exactly when the pattern matches its name, only matched entries
    are selected, both counters agree with the flags, and nothing but the
    two flags of an entry has changed. *)
Theorem applyFilterString_settles_flags_and_counts :
  forall m : Model,
    let m' := applyFilterString engine m in
    let hasMatch := QRegularExpression.hasMatch engine (filterPattern m) in
    Forall (fun f => isMatched f = hasMatch (fileName f)) (m_files m') /\
    selectionWithinMatches m' /\
    selectedCountAgrees m' /\ matchedCountAgrees m' /\
    map identity (m_files m') = map identity (m_files m) /\
    map isDoomed (m_files m') = map isDoomed (m_files m) /\
    map absoluteFilePath (m_files m') = map absoluteFilePath (m_files m).
Proof. exact applyFilterString_settled. Qed.

Lemma plainFilter_untouched (s : string) :
  plainFilter s = true ->
  QString.replace "*" ".*?" (QString.replace "?" "." (QString.replace "." "\." s)) = s.
Proof.
  induction s as [|c s IH]; intros H; [reflexivity|].
  simpl in H. rewrite !andb_true_iff, !negb_true_iff in H.
  destruct H as [[[H1 H2] H3] H4].
  simpl. rewrite H1. simpl. rewrite H2. simpl. rewrite H3. now rewrite IH.
Qed.

Lemma filterLoop_stable (hasMatch : string -> bool) (files : list StatFileInfo) :
  forall row matched n,
    (forall f, In f files ->
       isMatched f = hasMatch (fileName f) /\
       (isSelected f = true -> hasMatch (fileName f) = true)) ->
    filterLoop hasMatch files row matched n =
    (files, [],
     matched + Z.of_nat (List.length (filter (fun f => hasMatch (fileName f)) files)),
     n + Z.of_nat (List.length (filter isSelected files))).
Proof.
  induction files as [|f files IH]; intros row matched n H.
  - simpl. now rewrite !Z.add_0_r.
  - destruct (H f (or_introl eq_refl)) as [Hm Hs].
    rewrite filterLoop_cons. cbv zeta.
    assert (refiltered hasMatch f = f) as Hr.
    { unfold refiltered. rewrite Hm, Bool.eqb_reflx. cbn [negb orb].
      destruct (hasMatch (fileName f)) eqn:E; [reflexivity|].
      destruct (isSelected f); [now specialize (Hs eq_refl) | reflexivity]. }
    rewrite Hr, IH by (intros g Hg; apply H; now right).
    assert (negb (Bool.eqb (isMatched f) (hasMatch (fileName f)))
            || negb (hasMatch (fileName f)) && isSelected f = false) as ->.
    { rewrite Hm, Bool.eqb_reflx. cbn [negb orb].
      destruct (hasMatch (fileName f)) eqn:E; [reflexivity|].
      destruct (isSelected f); [now specialize (Hs eq_refl) | reflexivity]. }
    cbn -[Z.of_nat].
    destruct (hasMatch (fileName f)), (isSelected f); cbn -[Z.of_nat];
      (apply f_equal2; [apply f_equal2; [reflexivity|] |]; lia).
Qed.

(** A filter pass on a model that a pass with the same plain filter string
    has settled changes nothing and emits nothing. *)
Lemma applyFilterString_stable (m : Model) :
  plainFilter (m_filterString m) = true ->
  (forall f, In f (m_files m) ->
     isMatched f = QRegularExpression.hasMatch engine (filterPattern m) (fileName f) /\
     (isSelected f = true ->
      QRegularExpression.hasMatch engine (filterPattern m) (fileName f) = true)) ->
  m_matchedFileCount m =
    Z.of_nat (List.length
                (filter (fun f => QRegularExpression.hasMatch engine (filterPattern m)
                                    (fileName f)) (m_files m))) ->
  selectedCountAgrees m ->
  applyFilterString engine m = m.
Proof.
  intros Hp Hf Hm Hs. unfold applyFilterString. unfold filterPattern in Hf, Hm.
  rewrite (plainFilter_untouched _ Hp) in *.
  cbn [m_filterString withFilterString m_files].
  rewrite (filterLoop_stable _ _ 0 0 0 Hf). cbn [Z.add].
  unfold selectedCountAgrees in Hs.
  cbn [m_selectedFileCount emitAll withFiles withMatchedCount withFilterString].
  rewrite <- Hs, Z.eqb_refl. cbn [negb].
  destruct m; unfold emitAll, withFiles, withMatchedCount, withFilterString;
    simpl in *. rewrite app_nil_r, <- Hm. reflexivity.
Qed.

(** For a filter string without [.], [?] and [*] a second filter pass leaves
    the model as the first one left it: no entry changes and no signal is
    emitted.  (With one of those characters the first pass rewrites the
    stored filter string, and the second matches with another pattern.) *)
Theorem applyFilterString_twice_with_plain_filter :
  forall m : Model,
    plainFilter (m_filterString m) = true ->
    applyFilterString engine (applyFilterString engine m)
    = applyFilterString engine m.
Proof.
  intros m Hp.
  destruct (applyFilterString_spec engine m) as (Hf & Hm & Hs & _).
  assert (m_filterString (applyFilterString engine m) = m_filterString m) as Hfs.
  { unfold applyFilterString. cbn [m_filterString withFilterString m_files].
    destruct (filterLoop _ _ 0 0 0) as [[[fs sg] matched] n].
    rewrite (plainFilter_untouched _ Hp).
    destruct (negb _); reflexivity. }
  assert (filterPattern (applyFilterString engine m) = filterPattern m) as Hpat
    by (unfold filterPattern; now rewrite Hfs).
  apply applyFilterString_stable.
  - now rewrite Hfs.
  - rewrite Hpat, Hf. intros f Hin. apply in_map_iff in Hin as [g [<- _]].
    rewrite refiltered_matched, refiltered_fileName, refiltered_selected.
    split; [reflexivity|]. intros X. now apply andb_true_iff in X as [_ X].
  - rewrite Hpat, Hm, Hf. now rewrite matching_after_refilter.
  - exact Hs.
Qed.

End ModelFilter.

Section ModelFilterWitness.
Import FileModel.

Lemma applyFilterString_twice_witness :
  let m := withFilterString "an" Sample.fruits in
  applyFilterString Sample.noEngine (applyFilterString Sample.noEngine m)
  = applyFilterString Sample.noEngine m /\
  map isMatched (m_files (applyFilterString Sample.noEngine m))
  = [false; true; false].
Proof.
  intros m. split.
  - apply (applyFilterString_twice_with_plain_filter Sample.noEngine m).
    reflexivity.
  - vm_compute. reflexivity.
Defined.

End ModelFilterWitness.

Section ModelReading.
Import FileModel.

Variable tr : string -> string.
Variable engine : string -> string -> bool.
Variable env : FileModelWorker.DirEnv.

Lemma recountSelectedFiles_settled :
  forall m : Model,
    let m' := recountSelectedFiles m in
    m_files m' = m_files m /\
    selectedCountAgrees m' /\ matchedCountAgrees m' /\
    (selectedCountAgrees m -> matchedCountAgrees m -> m' = m).
Proof.
  intros m m'. subst m'.
  unfold recountSelectedFiles, selectedCountAgrees, matchedCountAgrees.
  set (s := Z.of_nat (List.length (filter isSelected (m_files m)))).
  set (k := Z.of_nat (List.length (filter isMatched (m_files m)))).
  destruct (Z.eqb_spec (m_selectedFileCount m) s) as [E1|E1]; cbn [negb].
  - destruct (Z.eqb_spec (m_matchedFileCount m) k) as [E2|E2]; cbn [negb].
    + repeat split; assumption.
    + simpl. repeat split; try assumption. intros _ X. contradiction.
  - cbn [m_matchedFileCount emit emitAll withSelectedCount].
    destruct (Z.eqb_spec (m_matchedFileCount m) k) as [E2|E2]; cbn [negb].
    + simpl. repeat split; try assumption; try reflexivity.
      intros X. contradiction.
    + simpl. repeat split; try reflexivity. intros X. contradiction.
Qed.

(** [recountSelectedFiles] leaves the entries alone and brings both counters
    in step with them; a model whose counters are in step already is
    returned as it is, without a signal. *)
Theorem recountSelectedFiles_settles_counts :
  forall m : Model,
    let m' := recountSelectedFiles m in
    m_files m' = m_files m /\
    selectedCountAgrees m' /\ matchedCountAgrees m' /\
    (selectedCountAgrees m -> matchedCountAgrees m -> m' = m).
Proof. exact recountSelectedFiles_settled. Qed.

Lemma recountSelectedFiles_witness :
  recountSelectedFiles Sample.fruits = Sample.fruits.
Proof.
  apply (recountSelectedFiles_settles_counts Sample.fruits);
    vm_compute; reflexivity.
Defined.

Lemma recountSelectedFiles_other (m : Model) :
  m_dir (recountSelectedFiles m) = m_dir m /\
  m_errorMessage (recountSelectedFiles m) = m_errorMessage m /\
  m_dirty (recountSelectedFiles m) = m_dirty m /\
  m_active (recountSelectedFiles m) = m_active m /\
  m_watcher (recountSelectedFiles m) = m_watcher m /\
  m_filterString (recountSelectedFiles m) = m_filterString m.
Proof.
  unfold recountSelectedFiles.
  destruct (negb (m_selectedFileCount m =? _)); simpl;
    destruct (negb (_ =? _)); repeat split.
Qed.

Lemma recount_keeps_selection (m : Model) :
  selectionWithinMatches m -> selectionWithinMatches (recountSelectedFiles m).
Proof.
  unfold selectionWithinMatches.
  destruct (recountSelectedFiles_settled m) as (-> & _). auto.
Qed.

Lemma applyFilterString_other (m : Model) :
  m_errorMessage (applyFilterString engine m) = m_errorMessage m /\
  m_dir (applyFilterString engine m) = m_dir m /\
  m_active (applyFilterString engine m) = m_active m /\
  m_dirty (applyFilterString engine m) = m_dirty m /\
  m_watcher (applyFilterString engine m) = m_watcher m.
Proof.
  unfold applyFilterString. cbn [m_filterString withFilterString m_files].
  destruct (filterLoop _ _ 0 0 0) as [[[fs sg] matched] n].
  match goal with |- context [if ?b then _ else _] => destruct b end;
    repeat split.
Qed.

Lemma insertLoop_errorMessage (nf : list StatFileInfo) (k : nat) :
  forall i x, m_errorMessage (insertLoop nf k i x) = m_errorMessage x.
Proof.
  induction k as [|k IH]; intros i x; [reflexivity|].
  rewrite model_insertLoop_succ.
  destruct (nth_error nf i); [|reflexivity].
  destruct (filesContains (m_files x) s); cbn [negb]; rewrite IH; reflexivity.
Qed.

Lemma removeLoop_errorMessage (nf : list StatFileInfo) (k : nat) :
  forall x, m_errorMessage (removeLoop nf k x) = m_errorMessage x.
Proof.
  induction k as [|k IH]; intros x; [reflexivity|].
  rewrite model_removeLoop_succ.
  destruct (nth_error (m_files x) k); [|reflexivity].
  destruct (filesContains nf s); cbn [negb]; rewrite IH; reflexivity.
Qed.

Lemma isEmpty_false (s : string) : s <> "" -> QString.isEmpty s = false.
Proof. destruct s; [contradiction | reflexivity]. Qed.

(** [refreshEntries] on a directory that cannot be listed: the model is
    emptied and reset, the error message says why (none for an empty path),
    the three signals go out in this order, and the two counters keep the
    values they had. *)
Theorem refreshEntries_on_invalid_directory :
  forall (m : Model) (message : string),
    (m_dir m = "" /\ message = "") \/
    (m_dir m <> "" /\ FileModelWorker.exists_ env (m_dir m) = false /\
     message = tr "Folder does not exist") \/
    (m_dir m <> "" /\ FileModelWorker.exists_ env (m_dir m) = true /\
     FileModelWorker.isReadable env (m_dir m) = false /\
     message = tr "No permission to read the folder") ->
    let m' := refreshEntries tr engine env m in
    m_files m' = [] /\
    m_errorMessage m' = message /\
    signals m' = signals m ++ [modelReset; fileCountChanged; errorMessageChanged] /\
    m_selectedFileCount m' = m_selectedFileCount m /\
    m_matchedFileCount m' = m_matchedFileCount m.
Proof.
  intros m message H m'. subst m'. unfold refreshEntries.
  cbn [m_dir withErrorMessage].
  destruct H as [[Hd ->] | [(Hd & He & ->) | (Hd & He & Hr & ->)]].
  - rewrite Hd. simpl. rewrite <- !app_assoc. repeat split.
  - rewrite (isEmpty_false _ Hd), He. simpl. rewrite <- !app_assoc.
    repeat split.
  - rewrite (isEmpty_false _ Hd), He, Hr. simpl. rewrite <- !app_assoc.
    repeat split.
Qed.


(** [refreshEntries] on a directory that can be listed leaves a consistent
    model: no error message, the members of the fresh listing, both counters
    in step with the flags, and only matched entries selected. *)
Theorem refreshEntries_leaves_consistent_model :
  forall m : Model,
    m_dir m <> "" ->
    FileModelWorker.exists_ env (m_dir m) = true ->
    FileModelWorker.isReadable env (m_dir m) = true ->
    let m' := refreshEntries tr engine env m in
    m_errorMessage m' = "" /\
    sameMembers (m_files m') (FileModelWorker.entryInfos env (m_dir m)) /\
    selectedCountAgrees m' /\ matchedCountAgrees m' /\
    selectionWithinMatches m'.
Proof.
  intros m Hd He Hr m'.
  split; [|split; [now apply refreshEntries_members|]].
  - subst m'. unfold refreshEntries. cbn [m_dir withErrorMessage].
    rewrite (isEmpty_false _ Hd), He, Hr. cbn [negb]. cbv zeta.
    set (m1 := applyFilterString engine _).
    set (m2 := emit errorMessageChanged _).
    destruct (recountSelectedFiles_other m2) as (_ & -> & _).
    assert (m_errorMessage m2 = m_errorMessage m1) as ->
      by (unfold m2; destruct (negb _); reflexivity).
    unfold m1.
    set (m0 := reconcile _ _).
    assert (m_errorMessage (applyFilterString engine m0) = m_errorMessage m0) as Y
      by apply applyFilterString_other.
    assert (m_errorMessage m0 = "") as Z0
      by (unfold m0, reconcile; now rewrite insertLoop_errorMessage,
                                            removeLoop_errorMessage).
    rewrite Y; exact Z0.
  - subst m'. unfold refreshEntries. cbn [m_dir withErrorMessage].
    rewrite (isEmpty_false _ Hd), He, Hr. cbn [negb]. cbv zeta.
    set (m1 := applyFilterString engine _).
    set (m2 := emit errorMessageChanged _).
    destruct (recountSelectedFiles_settled m2) as (Hf & Hs & Hm & _).
    split; [exact Hs|]. split; [exact Hm|].
    apply recount_keeps_selection.
    assert (m_files m2 = m_files m1) as F
      by (unfold m2; destruct (negb _); reflexivity).
    unfold selectionWithinMatches. rewrite F.
    apply (applyFilterString_settled engine).
Qed.


End ModelReading.

Section ModelReadingWitnesses.
Import FileModel.

Lemma refreshEntries_on_invalid_witness :
  m_files (refreshEntries Sample.noTranslation Sample.noEngine Sample.unreadable
             Sample.fruits) = [] /\
  m_selectedFileCount
    (refreshEntries Sample.noTranslation Sample.noEngine Sample.unreadable
       Sample.fruits) = 1.
Proof.
  destruct (refreshEntries_on_invalid_directory Sample.noTranslation
              Sample.noEngine Sample.unreadable Sample.fruits
              "No permission to read the folder") as (H1 & _ & _ & H4 & _).
  - right; right. split; [discriminate|]. split; [reflexivity|].
    split; reflexivity.
  - split; [exact H1 | exact H4].
Defined.

Lemma refreshEntries_consistent_witness :
  selectedCountAgrees
    (refreshEntries Sample.noTranslation Sample.noEngine
       (Sample.listing [Sample.a_txt; Sample.b_txt]) Sample.fruits).
Proof.
  apply (refreshEntries_leaves_consistent_model Sample.noTranslation
           Sample.noEngine (Sample.listing [Sample.a_txt; Sample.b_txt])
           Sample.fruits).
  - discriminate.
  - reflexivity.
  - reflexivity.
Defined.

End ModelReadingWitnesses.

Section ModelDirectory.
Import FileModel.

Variable tr : string -> string.
Variable engine : string -> string -> bool.
Variable env : FileModelWorker.DirEnv.

Lemma sameSwitches_trans (a b c : Model) :
  sameSwitches a b -> sameSwitches b c -> sameSwitches a c.
Proof. unfold sameSwitches. intuition congruence. Qed.

Lemma applyFilterString_switches (m : Model) :
  sameSwitches m (applyFilterString engine m).
Proof.
  destruct (applyFilterString_other engine m) as (_ & H1 & H2 & H3 & H4).
  repeat split; assumption.
Qed.

Lemma recountSelectedFiles_switches (m : Model) :
  sameSwitches m (recountSelectedFiles m).
Proof.
  destruct (recountSelectedFiles_other m) as (H1 & _ & H3 & H2 & H4 & _).
  repeat split; assumption.
Qed.

Lemma insertLoop_switches (nf : list StatFileInfo) (k : nat) :
  forall i x, sameSwitches x (insertLoop nf k i x).
Proof.
  induction k as [|k IH]; intros i x; [repeat split|].
  rewrite model_insertLoop_succ.
  destruct (nth_error nf i); [|repeat split].
  destruct (filesContains (m_files x) s); cbn [negb]; [apply IH|].
  eapply sameSwitches_trans; [|apply IH]. repeat split.
Qed.

Lemma removeLoop_switches (nf : list StatFileInfo) (k : nat) :
  forall x, sameSwitches x (removeLoop nf k x).
Proof.
  induction k as [|k IH]; intros x; [repeat split|].
  rewrite model_removeLoop_succ.
  destruct (nth_error (m_files x) k); [|repeat split].
  destruct (filesContains nf s); cbn [negb]; [apply IH|].
  eapply sameSwitches_trans; [|apply IH]. repeat split.
Qed.

Lemma refreshEntries_switches (m : Model) :
  sameSwitches m (refreshEntries tr engine env m).
Proof.
  unfold refreshEntries. cbn [m_dir withErrorMessage].
  destruct (QString.isEmpty (m_dir m)); [repeat split|].
  destruct (negb (FileModelWorker.exists_ env (m_dir m))); [repeat split|].
  destruct (negb (FileModelWorker.isReadable env (m_dir m))); [repeat split|].
  cbv zeta.
  eapply sameSwitches_trans; [|apply recountSelectedFiles_switches].
  set (m1 := applyFilterString engine _).
  assert (sameSwitches m m1) as H.
  { unfold m1. eapply sameSwitches_trans; [|apply applyFilterString_switches].
    unfold reconcile.
    eapply sameSwitches_trans; [|apply insertLoop_switches].
    eapply sameSwitches_trans; [|apply removeLoop_switches]. repeat split. }
  destruct (negb _); exact H.
Qed.

Lemma readAllEntries_switches (m : Model) :
  sameSwitches m (readAllEntries tr engine env m).
Proof.
  unfold readAllEntries.
  destruct (negb (FileModelWorker.exists_ env (m_dir m))); [repeat split|].
  destruct (negb (FileModelWorker.isReadable env (m_dir m))); [repeat split|].
  eapply sameSwitches_trans; [|apply applyFilterString_switches]. repeat split.
Qed.

Lemma readDirectory_switches (m : Model) :
  sameSwitches m (readDirectory tr engine env m).
Proof.
  unfold readDirectory. cbv zeta.
  eapply sameSwitches_trans; [|apply recountSelectedFiles_switches].
  cbn [m_dir withErrorMessage withFiles].
  destruct (negb (QString.isEmpty (m_dir m))); [|repeat split].
  pose proof (readAllEntries_switches (withErrorMessage "" (withFiles [] m))) as H.
  exact H.
Qed.

(** An active model is never dirty: the state the constructor leaves has
    this property and [setDir], [setActive], [refresh] and [refreshFull]
    keep it.  So deactivating a model never reloads it. *)
Theorem active_model_is_never_dirty :
  (m_active new = true -> m_dirty new = false) /\
  forall m : Model,
    (m_active m = true -> m_dirty m = false) ->
    (forall dir, let m' := setDir tr engine env dir m in
                 m_active m' = true -> m_dirty m' = false) /\
    (forall active, let m' := setActive tr engine env active m in
                    m_active m' = true -> m_dirty m' = false) /\
    (let m' := refresh tr engine env m in
     m_active m' = true -> m_dirty m' = false) /\
    (forall localPath, let m' := refreshFull tr engine env localPath m in
                       m_active m' = true -> m_dirty m' = false) /\
    (m_active m = true ->
     m_files (setActive tr engine env false m) = m_files m).
Proof.
  split; [discriminate|]. intros m Inv.
  split; [|split; [|split; [|split]]].
  - intros dir m'. subst m'. unfold setDir.
    destruct (String.eqb (m_dir m) dir); [exact Inv | intros _; reflexivity].
  - intros active m'. subst m'. unfold setActive.
    destruct (Bool.eqb (m_active m) active); [exact Inv | intros _; reflexivity].
  - cbv zeta. unfold refresh.
    destruct (m_active m) eqn:E; cbn [negb]; [intros _; reflexivity|].
    simpl. intros X. congruence.
  - intros localPath m'. subst m'. unfold refreshFull.
    destruct (negb (QString.isEmpty localPath) && _); [exact Inv|].
    destruct (m_active m) eqn:E; cbn [negb]; [intros _; reflexivity|].
    simpl. intros X. congruence.
  - intros Ha. unfold setActive. rewrite Ha. cbn [Bool.eqb].
    cbn [m_dirty emit emitAll withActive]. rewrite (Inv Ha). reflexivity.
Qed.

(** A refresh asked of an inactive model is put off: the model only becomes
    dirty.  Activating it then does the refresh: the model is active, no
    longer dirty and, when its directory can be listed, holds the members of
    the current listing. *)
Theorem refresh_is_put_off_until_active :
  forall m : Model,
    m_active m = false ->
    refresh tr engine env m = withDirty true m /\
    let m' := setActive tr engine env true (refresh tr engine env m) in
    m_active m' = true /\ m_dirty m' = false /\
    m_dir m' = m_dir m /\
    (m_dir m <> "" ->
     FileModelWorker.exists_ env (m_dir m) = true ->
     FileModelWorker.isReadable env (m_dir m) = true ->
     sameMembers (m_files m') (FileModelWorker.entryInfos env (m_dir m))).
Proof.
  intros m Ha.
  assert (refresh tr engine env m = withDirty true m) as ->
    by (unfold refresh; now rewrite Ha).
  split; [reflexivity|]. cbv zeta. unfold setActive.
  cbn [m_active withDirty]. rewrite Ha. cbn [Bool.eqb].
  set (m1 := emit activeChanged (withActive true (withDirty true m))).
  change (m_dirty m1) with true. cbv iota.
  destruct (refreshEntries_switches m1) as (Hd & Hact & _).
  cbn [m_active m_dirty m_dir m_files withDirty].
  split; [exact Hact|]. split; [reflexivity|]. split; [exact Hd|].
  intros H1 H2 H3.
  apply (refreshEntries_members tr engine env m1); assumption.
Qed.

Lemma isEmpty_nonempty (s : string) : s <> "" -> negb (QString.isEmpty s) = true.
Proof. destruct s; [contradiction | reflexivity]. Qed.

Lemma addPath_there (path : string) (watched : list string) :
  In path (QFileSystemWatcher.addPath true path watched).
Proof.
  unfold QFileSystemWatcher.addPath. cbn [andb].
  destruct (existsb (String.eqb path) watched) eqn:E; cbn [negb].
  - apply existsb_exists in E as (p & Hin & Hp).
    apply String.eqb_eq in Hp. now subst p.
  - apply in_or_app. right. now left.
Qed.

Lemma addPath_In (there : bool) (path p : string) (watched : list string) :
  In p (QFileSystemWatcher.addPath there path watched) ->
  In p watched \/ path = p.
Proof.
  unfold QFileSystemWatcher.addPath. destruct (_ && _); [|now left].
  intros H. apply in_app_or in H as [H | [H | []]]; [now left | now right].
Qed.

(** [setDir] with the directory the model shows already does nothing.  With
    another directory that can be listed, the model shows that directory:
    the entries are those of the listing, matched against the filter the
    model keeps, there is no error message, the model is not dirty, both
    counters are in step, the new directory is watched and the old one is
    not, and [dirChanged] is the last signal. *)
Theorem setDir_loads_the_directory :
  forall (m : Model) (dir : string),
    (m_dir m = dir -> setDir tr engine env dir m = m) /\
    (m_dir m <> dir -> dir <> "" ->
     FileModelWorker.exists_ env dir = true ->
     FileModelWorker.isReadable env dir = true ->
     let m' := setDir tr engine env dir m in
     m_dir m' = dir /\ m_dirty m' = false /\ m_errorMessage m' = "" /\
     m_files m'
       = map (refiltered (QRegularExpression.hasMatch engine (filterPattern m)))
             (FileModelWorker.entryInfos env dir) /\
     selectedCountAgrees m' /\ matchedCountAgrees m' /\
     In dir (m_watcher m') /\
     (m_dir m <> "" -> ~ In (m_dir m) (m_watcher m')) /\
     exists pre, signals m' = pre ++ [dirChanged]).
Proof.
  intros m dir. split.
  { intros H. unfold setDir. apply String.eqb_eq in H. now rewrite H. }
  intros Hne Hd He Hr m'. subst m'. unfold setDir.
  apply String.eqb_neq in Hne. rewrite Hne.
  rewrite (isEmpty_nonempty _ Hd).
  unfold QFileSystemWatcher.removePath. rewrite He.
  set (w1 := if negb (QString.isEmpty (m_dir m))
             then withWatcher (filter (fun p => negb (String.eqb p (m_dir m)))
                                      (m_watcher m)) m
             else m).
  assert (m_files w1 = m_files m /\ m_filterString w1 = m_filterString m /\
          (forall p, In p (m_watcher w1) -> In p (m_watcher m)) /\
          (m_dir m <> "" -> ~ In (m_dir m) (m_watcher w1))) as (W1 & W2 & W3 & W4).
  { unfold w1. destruct (QString.isEmpty (m_dir m)) eqn:E; cbn [negb].
    - repeat split; auto. intros X. destruct (m_dir m); [now elim X | discriminate].
    - simpl. repeat split.
      + intros p Hp. now apply filter_In in Hp as [Hp _].
      + intros _ Hin. apply filter_In in Hin as [_ Hin].
        rewrite String.eqb_refl in Hin. discriminate. }
  set (m2 := withDir dir
               (withWatcher (QFileSystemWatcher.addPath true dir (m_watcher w1))
                            w1)).
  destruct (readDirectory_switches m2) as (S1 & S2 & S3 & S4).
  cbn [m_dir m_dirty m_errorMessage m_files m_watcher signals
       emit emitAll withDirty m_selectedFileCount m_matchedFileCount].
  unfold selectedCountAgrees, matchedCountAgrees.
  cbn [m_dir m_dirty m_errorMessage m_files m_watcher signals
       emit emitAll withDirty m_selectedFileCount m_matchedFileCount].
  unfold readDirectory in *. cbv zeta in *.
  cbn [m_dir withErrorMessage withFiles] in *.
  assert (m_dir m2 = dir) as D2 by reflexivity.
  rewrite D2 in *. rewrite (isEmpty_nonempty _ Hd) in *.
  unfold readAllEntries in *. cbn [m_dir withErrorMessage withFiles m_files] in *.
  rewrite D2, He, Hr in *. cbn [negb app] in *.
  set (m3 := applyFilterString engine _) in *.
  set (m4 := emit errorMessageChanged _) in *.
  destruct (recountSelectedFiles_settled m4) as (F & Cs & Cm & _).
  destruct (recountSelectedFiles_other m4) as (_ & Em & _).
  destruct (applyFilterString_spec engine
              (withFiles (FileModelWorker.entryInfos env dir)
                 (withErrorMessage "" (withFiles [] m2)))) as (F3 & _).
  destruct (applyFilterString_other engine
              (withFiles (FileModelWorker.entryInfos env dir)
                 (withErrorMessage "" (withFiles [] m2)))) as (E3 & _).
  fold m3 in F3, E3.
  assert (filterPattern (withFiles (FileModelWorker.entryInfos env dir)
                           (withErrorMessage "" (withFiles [] m2)))
          = filterPattern m) as P3
    by (unfold filterPattern; simpl; now rewrite W2).
  rewrite P3 in F3. cbn [m_files withFiles] in F3.
  split; [exact S1|]. split; [reflexivity|].
  split; [rewrite Em; exact E3|]. split; [rewrite F; exact F3|].
  split; [exact Cs|]. split; [exact Cm|]. split; [|split].
  - rewrite S4. simpl. apply addPath_there.
  - intros X Hin. rewrite S4 in Hin. simpl in Hin.
    apply addPath_In in Hin as [Hin | Hin].
    + now apply (W4 X).
    + apply String.eqb_neq in Hne. congruence.
  - eexists. reflexivity.
Qed.

End ModelDirectory.

Section ModelDirectoryWitnesses.
Import FileModel.

Lemma active_never_dirty_witness :
  m_files (setActive Sample.noTranslation Sample.noEngine Sample.unreadable false
             Sample.fruits) = m_files Sample.fruits.
Proof.
  apply (proj2 (active_model_is_never_dirty Sample.noTranslation Sample.noEngine
                  Sample.unreadable) Sample.fruits).
  - reflexivity.
  - reflexivity.
Defined.

Lemma refresh_put_off_witness :
  let m := withActive false Sample.fruits in
  let env := Sample.listing [Sample.b_txt; Sample.c_txt] in
  m_files (refresh Sample.noTranslation Sample.noEngine env m) = m_files m /\
  sameMembers
    (m_files (setActive Sample.noTranslation Sample.noEngine env true
                (refresh Sample.noTranslation Sample.noEngine env m)))
    [Sample.b_txt; Sample.c_txt].
Proof.
  intros m env.
  destruct (refresh_is_put_off_until_active Sample.noTranslation Sample.noEngine
              env m eq_refl) as (H1 & _ & _ & _ & H2).
  split; [now rewrite H1|].
  apply H2; [discriminate | reflexivity | reflexivity].
Defined.

Lemma setDir_loads_witness :
  let m' := setDir Sample.noTranslation Sample.noEngine
              (Sample.listing [Sample.a_txt; Sample.b_txt]) "/tmp/t" new in
  map fileName (m_files m') = ["a.txt"; "b.txt"] /\
  m_watcher m' = ["/tmp/t"].
Proof.
  intros m'.
  destruct (proj2 (setDir_loads_the_directory Sample.noTranslation Sample.noEngine
                     (Sample.listing [Sample.a_txt; Sample.b_txt]) new "/tmp/t"))
    as (_ & _ & _ & H & _).
  - discriminate.
  - discriminate.
  - reflexivity.
  - reflexivity.
  - split; [|vm_compute; reflexivity].
    fold m' in H. rewrite H. vm_compute. reflexivity.
Defined.

End ModelDirectoryWitnesses.

(** ** Further properties of the listing worker *)

Section WorkerCancellation.
Import FileModelWorker.

#[local] Arguments cancelIfCancelled : simpl never.

Lemma keptRunning_app {S : Type} (a b : list (action S)) :
  keptRunning a -> keptRunning b -> keptRunning (a ++ b).
Proof. intros Ha Hb H. apply in_app_or in H as [H|H]; contradiction. Qed.

Lemma keptRunning_nil {S : Type} : keptRunning (@nil (action S)).
Proof. intros []. Qed.

Lemma stage_refl (w : Worker) : stage true w w.
Proof.
  split; [reflexivity|]. exists []. rewrite app_nil_r.
  split; [reflexivity|]. split; [constructor | apply keptRunning_nil].
Qed.

Lemma stage_trans (b : bool) (w1 w2 w3 : Worker) :
  stage true w1 w2 -> stage b w2 w3 -> stage b w1 w3.
Proof.
  intros (C1 & d1 & L1 & E1 & K1) (C2 & d2 & L2 & E2 & K2).
  split; [congruence|]. exists (d1 ++ d2).
  split; [rewrite L2, L1, app_assoc; reflexivity|].
  split; [rewrite emitted_app; now apply Forall_app|].
  destruct b.
  - now apply keptRunning_app.
  - destruct K2 as [(d' & -> & K')|K2].
    + left. exists (d1 ++ d'). rewrite app_assoc. split; [reflexivity|].
      now apply keptRunning_app.
    + right. now apply keptRunning_app.
Qed.

Lemma stage_stop (w w' : Worker) : stage true w w' -> stage false w w'.
Proof.
  intros (C & d & L & E & K). split; [exact C|]. exists d.
  split; [exact L|]. split; [exact E|]. now right.
Qed.

Lemma cancelIfCancelled_stage (w : Worker) (c : bool) (w1 : Worker) :
  cancelIfCancelled w = (c, w1) ->
  stage (negb c) w w1 /\ m_finalEntries w1 = m_finalEntries w /\
  m_oldEntries w1 = m_oldEntries w /\ m_mode w1 = m_mode w /\
  m_settings w1 = m_settings w /\ m_cachedDir w1 = m_cachedDir w /\
  (cancelAt w = None -> c = false).
Proof.
  unfold cancelIfCancelled. intros H; inversion H; subst; clear H.
  split; [|repeat split; intros X; unfold flagAt; now rewrite X].
  split; [reflexivity|]. eexists. split; [reflexivity|].
  split; [constructor|].
  destruct (flagAt (cancelAt w) (log w)); simpl.
  - intros [X|[]]. discriminate.
  - left. exists []. split; [reflexivity | apply keptRunning_nil].
Qed.

Lemma edit_stage (s : signal) (l : list StatFileInfo) (w : Worker) :
  isEdit s = true -> stage true w (withFinal l (emit s w)).
Proof.
  intros H. split; [reflexivity|]. exists [Emit s].
  split; [reflexivity|]. split; [simpl; now repeat constructor|].
  intros [X|[]]. discriminate.
Qed.

Lemma applySettings_stage (w : Worker) (ok : bool) (w' : Worker) :
  applySettings w = (ok, w') -> stage ok w w'.
Proof.
  unfold applySettings.
  destruct (cancelIfCancelled w) as [c1 w1] eqn:E1.
  apply cancelIfCancelled_stage in E1 as (S1 & _ & _ & _ & Hs & _).
  destruct c1; [intros H; inversion H; subst; exact S1|]. rewrite Hs.
  destruct (m_settings w); cbn [negb];
    [|intros H; inversion H; subst; exact S1].
  destruct (cancelIfCancelled w1) as [c2 w2] eqn:E2.
  apply cancelIfCancelled_stage in E2 as (S2 & _).
  destruct c2;
    [intros H; inversion H; subst; eapply stage_trans; eassumption|].
  destruct (cancelIfCancelled w2) as [c3 w3] eqn:E3.
  apply cancelIfCancelled_stage in E3 as (S3 & _).
  pose proof (stage_trans _ _ _ _ S1 S2) as S12.
  destruct c3; intros H; inversion H; subst; eapply stage_trans; eassumption.
Qed.

Lemma readFullLoop_cons (info : StatFileInfo) (rest : list StatFileInfo) (w : Worker) :
  readFullLoop (info :: rest) w =
  let (c, w1) := cancelIfCancelled (withFinal (m_finalEntries w ++ [info]) w) in
  if c then (true, w1) else readFullLoop rest w1.
Proof. reflexivity. Qed.

Lemma readFullLoop_stage (fileList : list StatFileInfo) :
  forall (w : Worker) (c : bool) (w' : Worker),
    readFullLoop fileList w = (c, w') ->
    stage (negb c) w w' /\
    (exists d, log w' = log w ++ d /\ emitted d = []) /\
    m_mode w' = m_mode w /\ m_cachedDir w' = m_cachedDir w /\
    (c = false -> m_finalEntries w' = m_finalEntries w ++ fileList) /\
    (cancelAt w = None -> c = false).
Proof.
  induction fileList as [|info rest IH]; intros w c w' H.
  - simpl in H. inversion H; subst.
    split; [apply stage_refl|]. split; [exists []; now rewrite app_nil_r|].
    repeat split. intros _. now rewrite app_nil_r.
  - rewrite readFullLoop_cons in H.
    destruct (cancelIfCancelled _) as [c1 w1] eqn:E1.
    pose proof E1 as E1'. unfold cancelIfCancelled in E1'.
    inversion E1'; subst c1; clear E1'.
    apply cancelIfCancelled_stage in E1 as (S1 & F1 & _ & M1 & _ & C1 & N1).
    assert (log w1 = log w ++ [LoadAcquire (flagAt (cancelAt w) (log w))]) as L1
      by (subst w1; reflexivity).
    destruct (isCancelled (flagAt (cancelAt w) (log w))) eqn:Ec.
    + inversion H; subst c w'. split; [exact S1|].
      split; [eexists; split; [exact L1 | reflexivity]|].
      repeat split; try assumption; try discriminate.
    + destruct (IH _ _ _ H) as (S2 & (d2 & L2 & E2) & M2 & C2 & F2 & N2).
      split; [eapply stage_trans; [exact S1 | exact S2]|].
      split.
      { eexists. rewrite L2, L1, <- app_assoc. split; [reflexivity|].
        rewrite emitted_app. exact E2. }
      split; [rewrite M2, M1; reflexivity|].
      split; [rewrite C2, C1; reflexivity|]. split.
      * intros X. rewrite (F2 X), F1. simpl. now rewrite <- app_assoc.
      * intros X. apply N2. destruct S1 as [-> _]. exact X.
Qed.

Lemma readDiffLoop_stage (fileList : list StatFileInfo) :
  forall (newFiles : list StatFileInfo) (w : Worker)
         (r : option (list StatFileInfo)) (w' : Worker),
    readDiffLoop fileList newFiles w = (r, w') ->
    stage (match r with Some _ => true | None => false end) w w'.
Proof.
  induction fileList as [|info rest IH]; intros newFiles w r w' H.
  - simpl in H. inversion H; subst. apply stage_refl.
  - rewrite readDiffLoop_cons in H.
    destruct (cancelIfCancelled w) as [c w1] eqn:E1.
    apply cancelIfCancelled_stage in E1 as (S1 & _).
    destruct c; [inversion H; subst; exact S1|].
    eapply stage_trans; [exact S1 | eapply IH; exact H].
Qed.

Lemma removeLoop_stage (newFiles : list StatFileInfo) (n : nat) :
  forall (haveRemoved : bool) (w : Worker) (r : option bool) (w' : Worker),
    removeLoop newFiles n haveRemoved w = (r, w') ->
    stage (match r with Some _ => true | None => false end) w w'.
Proof.
  induction n as [|i IH]; intros haveRemoved w r w' H.
  - simpl in H. inversion H; subst. apply stage_refl.
  - rewrite removeLoop_succ in H.
    destruct (nth_error (m_oldEntries w) i) as [data|].
    2:{ inversion H; subst. apply stage_stop, stage_refl. }
    destruct (filesContains newFiles data); cbn [negb] in H;
      [eapply IH; exact H|].
    cbv zeta in H.
    destruct (cancelIfCancelled _) as [c w2] eqn:E2.
    apply cancelIfCancelled_stage in E2 as (S2 & _).
    pose proof (edit_stage (entryRemoved (Z.of_nat i) data)
                  (QList.removeAt i (m_finalEntries w)) w eq_refl) as S1.
    pose proof (stage_trans _ _ _ _ S1 S2) as S12.
    destruct c; [inversion H; subst; exact S12|].
    eapply stage_trans; [exact S12 | eapply IH; exact H].
Qed.

Lemma insertLoop_stage (newFiles : list StatFileInfo) (k : nat) :
  forall (i : nat) (w : Worker) (c : bool) (w' : Worker),
    insertLoop newFiles k i w = (c, w') -> stage (negb c) w w'.
Proof.
  induction k as [|k IH]; intros i w c w' H.
  - simpl in H. inversion H; subst. apply stage_refl.
  - rewrite insertLoop_succ in H.
    destruct (nth_error newFiles i) as [data|].
    2:{ inversion H; subst. apply stage_stop, stage_refl. }
    destruct (filesContains (m_oldEntries w) data); cbn [negb] in H;
      [eapply IH; exact H|].
    cbv zeta in H.
    destruct (cancelIfCancelled _) as [c1 w2] eqn:E2.
    apply cancelIfCancelled_stage in E2 as (S2 & _).
    pose proof (edit_stage (entryAdded (Z.of_nat i) data)
                  (QList.insert i data (m_finalEntries w)) w eq_refl) as S1.
    pose proof (stage_trans _ _ _ _ S1 S2) as S12.
    destruct c1; [inversion H; subst; exact S12|].
    eapply stage_trans; [exact S12 | eapply IH; exact H].
Qed.

Lemma cut_at_last_check {S : Type} (d' pre post : list (action S)) :
  keptRunning d' ->
  pre ++ LoadAcquire Cancelled :: post = d' ++ [LoadAcquire Cancelled] ->
  post = [].
Proof.
  revert pre. induction d' as [|a d' IH]; intros pre K H.
  - destruct pre as [|b pre]; simpl in H; inversion H; [reflexivity|].
    destruct pre; discriminate.
  - destruct pre as [|b pre]; simpl in H; inversion H; subst.
    + exfalso. apply K. now left.
    + apply (IH pre); [|assumption]. intros X. apply K. now right.
Qed.

(** What a task leaves in its record: it returned at a check that read
    [Cancelled], having emitted edits at most, or no check read
    [Cancelled]. *)
Lemma stopped_or_kept (w w' : Worker) :
  log w = [] -> stage false w w' ->
  (stoppedAtCheck (log w') \/ keptRunning (log w')) /\
  forall mode entries, ~ In (done mode entries) (emitted (log w')).
Proof.
  intros H0 (_ & d & L & E & K). rewrite H0 in L. simpl in L. rewrite L.
  split; [exact K|]. intros mode entries Hin.
  rewrite Forall_forall in E. specialize (E _ Hin). discriminate.
Qed.

Lemma doReadFull_outcome (env : DirEnv) (w : Worker) :
  emitted (log w) = [] ->
  let w' := doReadFull env w in
  let result := done (m_mode w) (m_finalEntries w ++ entryInfos env (m_cachedDir w)) in
  m_cachedDir w' = m_cachedDir w /\
  ((stage false w w' /\ emitted (log w') = []) \/
   (exists d, log w' = log w ++ d ++ [Emit result] /\ keptRunning d /\
              emitted d = [])) /\
  (cancelAt w = None -> emitted (log w') = [result]).
Proof.
  intros H0. cbv zeta. unfold doReadFull.
  destruct (applySettings w) as [ok w1] eqn:E1.
  pose proof (applySettings_stage _ _ _ E1) as S1.
  apply applySettings_spec in E1 as [L1 N1].
  destruct L1 as ((C1 & M1 & K1 & _) & _ & F1 & d1 & Ld1 & Ed1).
  destruct ok; cbn [negb].
  2:{ split; [exact C1|]. split.
      - left. split; [exact S1|]. now rewrite Ld1, emitted_app, H0, Ed1.
      - intros X. specialize (N1 X). discriminate. }
  destruct (readFullLoop (entryInfos env (m_cachedDir w1)) w1) as [c w2] eqn:E2.
  apply readFullLoop_stage in E2 as (S2 & (d2 & Ld2 & Ed2) & M2 & C2 & F2 & N2).
  pose proof (stage_trans _ _ _ _ S1 S2) as S12.
  assert (emitted (log w2) = []) as H2
    by (rewrite Ld2, Ld1, !emitted_app, H0, Ed1, Ed2; reflexivity).
  destruct c; cbn [negb] in *.
  - split; [congruence|]. split; [left; now split|].
    intros X. rewrite K1 in N2. specialize (N2 X). discriminate.
  - rewrite (F2 eq_refl), F1, M2, M1, C1.
    split; [simpl; congruence|]. split.
    + right. exists (d1 ++ d2). simpl. rewrite Ld2, Ld1, <- !app_assoc.
      split; [reflexivity|]. split.
      * destruct S1 as (_ & e1 & Le1 & _ & Ke1).
        destruct S2 as (_ & e2 & Le2 & _ & Ke2).
        rewrite Ld1 in Le1. apply app_inv_head in Le1. subst e1.
        rewrite Ld2 in Le2. apply app_inv_head in Le2. subst e2.
        now apply keptRunning_app.
      * now rewrite emitted_app, Ed1, Ed2.
    + intros _. simpl. now rewrite emitted_app, H2.
Qed.

Lemma doReadDiff_stage (env : DirEnv) (w : Worker) :
  let w' := doReadDiff env w in
  stage false w w' \/
  exists d mode entries,
    log w' = log w ++ d ++ [Emit (done mode entries)] /\ keptRunning d.
Proof.
  cbv zeta. unfold doReadDiff.
  destruct (applySettings w) as [ok w1] eqn:E1.
  apply applySettings_stage in E1. destruct ok; cbn [negb]; [|now left].
  destruct (readDiffLoop (entryInfos env (m_cachedDir w1)) [] w1)
    as [[newFiles|] w2] eqn:E2;
    apply readDiffLoop_stage in E2;
    pose proof (stage_trans _ _ _ _ E1 E2) as S12; [|now left].
  cbv zeta.
  assert (stage true w (withFinal (m_oldEntries w2) w2)) as S3 by exact S12.
  destruct (removeLoop newFiles
              (List.length (m_oldEntries (withFinal (m_oldEntries w2) w2)))
              false (withFinal (m_oldEntries w2) w2))
    as [[haveRemoved|] w4] eqn:E4;
    apply removeLoop_stage in E4;
    pose proof (stage_trans _ _ _ _ S3 E4) as S4; [|now left].
  set (w5 := if haveRemoved then withOld (m_finalEntries w4) w4 else w4).
  assert (stage true w w5) as S5 by (unfold w5; destruct haveRemoved; exact S4).
  destruct (insertLoop newFiles (List.length newFiles) 0 w5) as [c w6] eqn:E6.
  apply insertLoop_stage in E6.
  pose proof (stage_trans _ _ _ _ S5 E6) as S6.
  destruct c; cbn [negb] in *; [now left|].
  destruct (cancelIfCancelled w6) as [c' w7] eqn:E7.
  apply cancelIfCancelled_stage in E7 as (S7 & _).
  pose proof (stage_trans _ _ _ _ S6 S7) as S67.
  destruct c'; cbn [negb] in *; [now left|].
  right. destruct S67 as (_ & d & L & _ & K).
  exists d, (m_mode w7), (m_finalEntries w7). simpl.
  rewrite L, <- app_assoc. split; [reflexivity | exact K].
Qed.

(** A check of the flag that reads [Cancelled] is the last thing a task
    does: nothing follows it in the record, and a task whose record holds
    such a check has emitted no [done]. *)
Theorem cancelled_check_ends_the_task :
  forall (tr : string -> string) (env : DirEnv) (cancel : option nat)
         (mode : Mode) (old : list StatFileInfo) (dir nameFilter : string)
         (settings : bool) (w : Worker),
    isRunning w = false ->
    let w' := doStartThread tr env cancel mode old dir nameFilter settings w in
    (forall pre post,
       log w' = pre ++ LoadAcquire Cancelled :: post -> post = []) /\
    (In (LoadAcquire Cancelled) (log w') ->
     forall m entries, ~ In (done m entries) (emitted (log w'))).
Proof.
  intros tr env cancel mode old dir nameFilter settings w Hrun w'.
  assert ((stoppedAtCheck (log w') /\
           forall m entries, ~ In (done m entries) (emitted (log w')))
          \/ keptRunning (log w')) as [[(d' & Hd & K) Hdone] | K].
  { subst w'. unfold doStartThread. rewrite Hrun.
    set (w0 := mkWorker settings mode [] old dir nameFilter (m_cachedDir w)
                        false cancel []).
    unfold run, verifyOrAbort.
    destruct (String.eqb (m_dir w0) "");
      [right; intros [X|[]]; discriminate|].
    destruct (negb (exists_ env (m_dir w0)));
      [right; intros [X|[]]; discriminate|].
    destruct (negb (isReadable env (m_dir w0)));
      [right; intros [X|[]]; discriminate|].
    cbn [negb].
    set (w1 := if negb _ then withCachedDir (m_dir w0) w0 else w0).
    assert (log w1 = [] /\ m_mode w1 = mode) as [L1 M1]
      by (unfold w1; destruct (negb _); split; reflexivity).
    rewrite M1. destruct mode.
    - right. rewrite L1. apply keptRunning_nil.
    - destruct (doReadFull_outcome env w1) as (_ & [[S _] | (d & L & K & _)] & _);
        [now rewrite L1 | |].
      + destruct (stopped_or_kept _ _ L1 S) as [[X|X] Y];
          [left; now split | now right].
      + right. rewrite L, L1. simpl. apply keptRunning_app; [exact K|].
        intros [X|[]]. discriminate.
    - destruct (doReadDiff_stage env w1) as [S | (d & m & es & L & K)].
      + destruct (stopped_or_kept _ _ L1 S) as [[X|X] Y];
          [left; now split | now right].
      + right. rewrite L, L1. simpl. apply keptRunning_app; [exact K|].
        intros [X|[]]. discriminate. }
  - split.
    + intros pre post H. rewrite Hd in H. symmetry in H.
      eapply cut_at_last_check; eassumption.
    + intros _. exact Hdone.
  - split.
    + intros pre post H. exfalso. apply K. rewrite H.
      apply in_or_app. right. now left.
    + intros X. contradiction.
Qed.

Lemma cancelled_check_witness :
  let w' := startReadChanged Sample.noTranslation
              (Sample.listing [Sample.b_txt; Sample.c_txt]) (Some 4%nat)
              [Sample.a_txt; Sample.b_txt] "/tmp/t" "" false Sample.idle in
  emitted (log w') = [entryRemoved 0 Sample.a_txt] /\
  forall m entries, ~ In (done m entries) (emitted (log w')).
Proof.
  intros w'. split; [vm_compute; reflexivity|].
  apply (cancelled_check_ends_the_task Sample.noTranslation
           (Sample.listing [Sample.b_txt; Sample.c_txt]) (Some 4%nat) DiffMode
           [Sample.a_txt; Sample.b_txt] "/tmp/t" "" false Sample.idle eq_refl).
  vm_compute. do 4 right. now left.
Defined.

(** A full read of a directory that can be listed reports the whole listing
    in one [done], or nothing at all when it was cancelled; never a part of
    the listing.  Uncancelled it reports. *)
Theorem full_read_reports_whole_listing_or_nothing :
  forall (tr : string -> string) (env : DirEnv) (cancel : option nat)
         (dir nameFilter : string) (settings : bool) (w : Worker),
    isRunning w = false ->
    dir <> "" -> exists_ env dir = true -> isReadable env dir = true ->
    let w' := startReadFull tr env cancel dir nameFilter settings w in
    let listing := entryInfos env (m_cachedDir w') in
    (emitted (log w') = [] \/ emitted (log w') = [done FullMode listing]) /\
    (cancel = None -> emitted (log w') = [done FullMode listing]).
Proof.
  intros tr env cancel dir nameFilter settings w Hrun Hd He Hr w' listing.
  subst listing w'. unfold startReadFull, doStartThread. rewrite Hrun.
  set (w0 := mkWorker settings FullMode [] [] dir nameFilter (m_cachedDir w)
                      false cancel []).
  unfold run, verifyOrAbort.
  apply String.eqb_neq in Hd.
  replace (String.eqb (m_dir w0) "") with false by (symmetry; exact Hd).
  replace (exists_ env (m_dir w0)) with true by (symmetry; exact He).
  replace (isReadable env (m_dir w0)) with true by (symmetry; exact Hr).
  cbn [negb].
  set (w1 := if negb _ then withCachedDir (m_dir w0) w0 else w0).
  assert (log w1 = [] /\ m_mode w1 = FullMode /\ m_finalEntries w1 = [] /\
          cancelAt w1 = cancel) as (L1 & M1 & F1 & K1)
    by (unfold w1; destruct (negb _); repeat split).
  rewrite M1.
  destruct (doReadFull_outcome env w1) as (C & Hcase & Hnever);
    [now rewrite L1|].
  rewrite C, M1, F1 in *. simpl in Hcase, Hnever. split.
  - destruct Hcase as [[_ X] | (d & L & _ & E)]; [now left|].
    right. rewrite L, L1. simpl. now rewrite emitted_app, E.
  - intros X. apply Hnever. now rewrite K1.
Qed.

Lemma full_read_witness :
  emitted (log (startReadFull Sample.noTranslation
                  (Sample.listing [Sample.a_txt; Sample.b_txt]) None
                  "/tmp/t" "" false Sample.idle))
  = [done FullMode [Sample.a_txt; Sample.b_txt]].
Proof.
  apply (full_read_reports_whole_listing_or_nothing Sample.noTranslation
           (Sample.listing [Sample.a_txt; Sample.b_txt]) None "/tmp/t" ""
           false Sample.idle eq_refl);
    [discriminate | reflexivity | reflexivity | reflexivity].
Defined.

End WorkerCancellation.

Section WorkerEdits.
Import FileModelWorker.

#[local] Arguments cancelIfCancelled : simpl never.

Lemma indexedFrom_app (a b : list StatFileInfo) :
  forall k, indexedFrom k (a ++ b)
            = indexedFrom k a ++ indexedFrom (k + List.length a) b.
Proof.
  induction a as [|x a IH]; intros k; simpl.
  - now rewrite Nat.add_0_r.
  - rewrite IH. do 3 f_equal. lia.
Qed.

Lemma never_cancelled (w : Worker) (c : bool) (w1 : Worker) :
  cancelAt w = None -> cancelIfCancelled w = (c, w1) ->
  c = false /\ cancelAt w1 = None /\ m_oldEntries w1 = m_oldEntries w /\
  m_finalEntries w1 = m_finalEntries w /\
  log w1 = log w ++ [LoadAcquire KeepRunning].
Proof.
  intros Hc H. unfold cancelIfCancelled in H. rewrite Hc in H. simpl in H.
  inversion H; subst. repeat split. exact Hc.
Qed.

Lemma removeLoop_emits (newFiles : list StatFileInfo) (n : nat) :
  forall (haveRemoved : bool) (w : Worker) (r : option bool) (w' : Worker),
    removeLoop newFiles n haveRemoved w = (r, w') ->
    cancelAt w = None ->
    (n <= List.length (m_oldEntries w))%nat ->
    exists d,
      log w' = log w ++ d /\
      emitted d = expectedRemovals (firstn n (m_oldEntries w)) newFiles.
Proof.
  induction n as [|i IH]; intros haveRemoved w r w' H Hc Hn.
  - simpl in H. inversion H; subst. exists []. now rewrite app_nil_r.
  - rewrite removeLoop_succ in H.
    destruct (nth_error (m_oldEntries w) i) as [data|] eqn:Hnth.
    2:{ apply nth_error_None in Hnth. lia. }
    rewrite (firstn_snoc_nth _ _ _ Hnth).
    unfold expectedRemovals. rewrite indexedFrom_app, filter_app, rev_app_distr.
    rewrite length_firstn, Nat.min_l by lia. cbn [Nat.add indexedFrom filter snd].
    destruct (filesContains newFiles data) eqn:Hd; cbn [negb] in H |- *.
    + cbn [rev app]. apply (IH _ _ _ _ H Hc). lia.
    + cbv zeta in H.
      destruct (cancelIfCancelled _) as [c w2] eqn:E2.
      apply never_cancelled in E2 as (-> & Hc2 & O2 & _ & L2); [|exact Hc].
      destruct (IH _ _ _ _ H Hc2) as (d & Ld & Ed); [rewrite O2; simpl; lia|].
      rewrite O2 in Ed. simpl in Ed.
      exists ([Emit (entryRemoved (Z.of_nat i) data); LoadAcquire KeepRunning] ++ d).
      split.
      * rewrite Ld, L2. simpl. rewrite <- !app_assoc. reflexivity.
      * rewrite emitted_app, Ed. reflexivity.
Qed.

Lemma insertLoop_emits (newFiles : list StatFileInfo) (k : nat) :
  forall (i : nat) (w : Worker) (c : bool) (w' : Worker),
    insertLoop newFiles k i w = (c, w') ->
    cancelAt w = None ->
    (i + k <= List.length newFiles)%nat ->
    exists d,
      log w' = log w ++ d /\
      emitted d =
        map (fun ie => entryAdded (Z.of_nat (fst ie)) (snd ie))
            (filter (fun ie => negb (filesContains (m_oldEntries w) (snd ie)))
                    (indexedFrom i (firstn k (skipn i newFiles)))).
Proof.
  induction k as [|k IH]; intros i w c w' H Hc Hn.
  - simpl in H. inversion H; subst. exists []. now rewrite app_nil_r.
  - rewrite insertLoop_succ in H.
    destruct (nth_error newFiles i) as [data|] eqn:Hnth.
    2:{ apply nth_error_None in Hnth. lia. }
    rewrite (skipn_nth_cons _ _ _ Hnth). cbn [firstn indexedFrom filter snd].
    destruct (filesContains (m_oldEntries w) data) eqn:Hd; cbn [negb] in H |- *.
    + apply (IH _ _ _ _ H Hc). lia.
    + cbv zeta in H.
      destruct (cancelIfCancelled _) as [c1 w2] eqn:E2.
      apply never_cancelled in E2 as (-> & Hc2 & O2 & _ & L2); [|exact Hc].
      destruct (IH _ _ _ _ H Hc2) as (d & Ld & Ed); [lia|].
      rewrite O2 in Ed. simpl in Ed.
      exists ([Emit (entryAdded (Z.of_nat i) data); LoadAcquire KeepRunning] ++ d).
      split.
      * rewrite Ld, L2. simpl. rewrite <- !app_assoc. reflexivity.
      * rewrite emitted_app, Ed. reflexivity.
Qed.

(** The edits of an uncancelled diff-mode read, in the order of emission:
    for the old entries that the fresh listing does not contain a removal at
    the index in the old list, from the last index down; then, for the fresh
    entries that the kept old entries do not contain, an insertion at the
    index in the fresh listing, from the first index up; then [done]. *)
Theorem uncancelled_diff_emits_exact_edits :
  forall (tr : string -> string) (env : DirEnv) (old : list StatFileInfo)
         (dir nameFilter : string) (settings : bool) (w : Worker),
    isRunning w = false ->
    dir <> "" -> exists_ env dir = true -> isReadable env dir = true ->
    let w' := startReadChanged tr env None old dir nameFilter settings w in
    let new := entryInfos env (m_cachedDir w') in
    let kept := filter (filesContains new) old in
    emitted (log w') =
      expectedRemovals old new ++ expectedInsertions kept new
      ++ [done DiffMode (m_finalEntries w')].
Proof.
  intros tr env old dir nameFilter settings w Hrun Hd He Hr w' new kept.
  subst kept new w'. unfold startReadChanged, doStartThread. rewrite Hrun.
  set (w0 := mkWorker settings DiffMode [] old dir nameFilter (m_cachedDir w)
                      false None []).
  destruct (run_diff tr env w0 eq_refl eq_refl Hd He Hr)
    as (w1 & O1 & C1 & D1 & M1 & L1 & R1).
  simpl in O1, C1.
  destruct D1 as (_ & HC & _ & Hnever). rewrite HC.
  specialize (Hnever C1). rewrite M1 in Hnever. rewrite Hnever.
  rewrite app_assoc. f_equal. clear Hnever HC.
  unfold edits. rewrite R1. clear R1.
  set (new := entryInfos env (m_cachedDir w1)).
  unfold doReadDiff.
  destruct (applySettings w1) as [ok w2] eqn:E2.
  apply applySettings_spec in E2 as [L2 N2]. rewrite (N2 C1). cbn [negb].
  destruct L2 as ((C2 & _ & K2 & _) & O2 & _ & d2 & Ld2 & Ed2).
  rewrite C2. fold new.
  destruct (readDiffLoop new [] w2) as [r w3] eqn:E3.
  apply readDiffLoop_spec in E3 as (L3 & _ & N3).
  rewrite N3 by congruence. simpl app.
  destruct L3 as ((_ & _ & K3 & _) & O3 & _ & d3 & Ld3 & Ed3).
  cbv zeta.
  set (w4 := withFinal (m_oldEntries w3) w3).
  assert (m_oldEntries w4 = old) as O4 by (unfold w4; simpl; congruence).
  assert (cancelAt w4 = None) as K4 by (unfold w4; simpl; congruence).
  assert (emitted (log w4) = []) as H4
    by (unfold w4; simpl; rewrite Ld3, Ld2, !emitted_app, L1, Ed2, Ed3;
        reflexivity).
  rewrite O4.
  destruct (removeLoop new (List.length old) false w4) as [r5 w5] eqn:E5.
  pose proof E5 as E5'.
  apply (removeLoop_spec _ _ _ _ _ _ []) in E5' as (S5 & R5 & N5);
    [|rewrite O4; reflexivity
     |rewrite O4, firstn_all, app_nil_r; unfold w4; simpl; congruence].
  destruct (N5 K4) as [h ->].
  destruct (R5 _ eq_refl) as [F5 Kh].
  rewrite O4, firstn_all, app_nil_r in F5.
  apply removeLoop_emits in E5 as (d5 & Ld5 & Ed5);
    [|exact K4 | rewrite O4; reflexivity].
  rewrite O4, firstn_all in Ed5.
  set (w6 := if h then withOld (m_finalEntries w5) w5 else w5).
  assert (m_oldEntries w6 = filter (filesContains new) old /\
          log w6 = log w5 /\ cancelAt w6 = None) as (O6 & L6 & K6).
  { assert (cancelAt w5 = None) as K5
      by (rewrite (editsOnly_cancelAt _ _ S5); exact K4).
    unfold w6. destruct h; simpl.
    - repeat split; assumption.
    - destruct (Kh eq_refl) as [_ X]. rewrite F5 in X.
      assert (m_oldEntries w5 = m_oldEntries w4) as Y by apply S5.
      rewrite Y, O4. unfold w4 in X. simpl in X. rewrite O3, O2, O1 in X.
      repeat split; try assumption. now symmetry. }
  destruct (insertLoop new (List.length new) 0 w6) as [c w7] eqn:E7.
  pose proof E7 as E7'.
  apply insertLoop_spec in E7' as (S7 & _ & N7); [|simpl; lia].
  rewrite (N7 K6).
  apply insertLoop_emits in E7 as (d7 & Ld7 & Ed7); [|exact K6 | simpl; lia].
  rewrite O6, skipn_O, firstn_all in Ed7.
  destruct (cancelIfCancelled w7) as [c' w8] eqn:E8.
  assert (cancelAt w7 = None) as K7
    by (rewrite (editsOnly_cancelAt _ _ S7); exact K6).
  apply never_cancelled in E8 as (-> & _ & _ & _ & L8); [|exact K7].
  simpl. rewrite L8, Ld7, L6, Ld5, !emitted_app, H4, Ed5, Ed7. simpl.
  rewrite !app_nil_r, filter_app. simpl. rewrite app_nil_r.
  apply filter_all_edits. apply Forall_app. split.
  - unfold expectedRemovals. apply Forall_forall. intros s Hs.
    apply in_map_iff in Hs as [ie [<- _]]. reflexivity.
  - apply Forall_forall. intros s Hs.
    apply in_map_iff in Hs as [ie [<- _]]. reflexivity.
Qed.

Lemma uncancelled_diff_witness :
  emitted (log (startReadChanged Sample.noTranslation
                  (Sample.listing [Sample.b_txt; Sample.c_txt]) None
                  [Sample.a_txt; Sample.b_txt] "/tmp/t" "" false Sample.idle))
  = [entryRemoved 0 Sample.a_txt; entryAdded 1 Sample.c_txt;
     done DiffMode [Sample.b_txt; Sample.c_txt]].
Proof.
  rewrite (uncancelled_diff_emits_exact_edits Sample.noTranslation
             (Sample.listing [Sample.b_txt; Sample.c_txt])
             [Sample.a_txt; Sample.b_txt] "/tmp/t" "" false Sample.idle eq_refl);
    [vm_compute; reflexivity | discriminate | reflexivity | reflexivity].
Defined.

End WorkerEdits.

Section SearchReportFacts.
Import SearchWorker.

Variable root : Fs.node.
Variable toLower : string -> string.
Variable term : string.

Lemma accounted_nil (ps : list string) : matchesAccountedFor root toLower term ps [].
Proof. intros q []. Qed.

Lemma accounted_app (ps : list string) (l1 l2 : list signal) :
  matchesAccountedFor root toLower term ps l1 -> matchesAccountedFor root toLower term ps l2 ->
  matchesAccountedFor root toLower term ps (l1 ++ l2).
Proof.
  intros H1 H2 q Hq. apply in_app_or in Hq as [Hq|Hq].
  - destruct (H1 q Hq) as (p & [Hp|Hp] & Hm); exists p; (split; [|exact Hm]);
      [now left | right; apply in_or_app; now left].
  - destruct (H2 q Hq) as (p & [Hp|Hp] & Hm); exists p; (split; [|exact Hm]);
      [now left | right; apply in_or_app; now right].
Qed.

Lemma accounted_weaken (ps : list string) (l : list signal) :
  matchesAccountedFor root toLower term [] l -> matchesAccountedFor root toLower term ps l.
Proof.
  intros H q Hq. destruct (H q Hq) as (p & [[]|Hp] & Hm).
  exists p. split; [now right | exact Hm].
Qed.

Lemma accounted_enter (p : string) (l : list signal) :
  matchesAccountedFor root toLower term [p] l ->
  matchesAccountedFor root toLower term [] (progressChanged p :: l).
Proof.
  intros H q [Hq|Hq]; [discriminate|].
  destruct (H q Hq) as (p' & [[E|[]]|Hp] & Hm); exists p'; (split; [|exact Hm]);
    right; [left; now rewrite E | now right].
Qed.

(** What one turn of either loop emits. *)
Lemma turn_accounted (directory name : string) (w1 : Worker) :
  In name (Fs.entryListFiles root directory)
  \/ In name (Fs.entryListDirs root directory) ->
  exists d,
    log (if nameMatches toLower name term
         then emit (matchFound (Fs.absoluteFilePath directory name)) w1
         else w1) = log w1 ++ d /\
    matchesAccountedFor root toLower term [directory] (emitted d).
Proof.
  intros Hin. destruct (nameMatches toLower name term) eqn:Hm.
  - exists [Emit (matchFound (Fs.absoluteFilePath directory name))].
    split; [reflexivity|]. intros q [Hq|[]]. inversion Hq; subst.
    exists directory. split; [left; now left|]. now exists name.
  - exists []. rewrite app_nil_r. split; [reflexivity | apply accounted_nil].
Qed.

Lemma searchFiles_accounted (directory : string) (names : list string) :
  (forall name, In name names -> In name (Fs.entryListFiles root directory)) ->
  forall (w : Worker) (c : bool) (w' : Worker),
    searchFiles toLower directory term names w = (c, w') ->
    exists d, log w' = log w ++ d /\
              matchesAccountedFor root toLower term [directory] (emitted d).
Proof.
  induction names as [|filename rest IH]; intros Hsub w c w' H.
  - inversion H; subst. exists []. rewrite app_nil_r.
    split; [reflexivity | apply accounted_nil].
  - rewrite searchFiles_cons in H.
    destruct (loadCancelled w) as [c1 w1] eqn:E1.
    apply loadCancelled_spec in E1 as (_ & L1 & _).
    destruct c1.
    + inversion H; subst. eexists. split; [exact L1 | apply accounted_nil].
    + destruct (turn_accounted directory filename w1) as (d2 & L2 & A2);
        [left; apply Hsub; now left|].
      apply IH in H as (d3 & L3 & A3); [|intros n Hn; apply Hsub; now right].
      exists ([LoadAcquire (flagAt (cancelAt w) (log w))] ++ d2 ++ d3). split.
      * rewrite L3, L2, L1, <- !app_assoc. reflexivity.
      * rewrite !emitted_app. simpl. now apply accounted_app.
Qed.

Lemma searchDirs_accounted recurse (directory : string) (names : list string) :
  (forall name, In name names -> In name (Fs.entryListDirs root directory)) ->
  (forall (name : string) (w0 : Worker) (e0 : string) (w1 : Worker),
     recurse (Fs.absoluteFilePath directory name) term w0 = Some (e0, w1) ->
     exists d, log w1 = log w0 ++ d /\
               matchesAccountedFor root toLower term [] (emitted d)) ->
  forall (w : Worker) (e : string) (w' : Worker),
    searchDirs toLower recurse directory term names w = Some (e, w') ->
    exists d, log w' = log w ++ d /\
              matchesAccountedFor root toLower term [directory] (emitted d).
Proof.
  induction names as [|filename rest IH]; intros Hsub Hrec w e w' H.
  - inversion H; subst. exists []. rewrite app_nil_r.
    split; [reflexivity | apply accounted_nil].
  - rewrite searchDirs_cons in H.
    destruct (loadCancelled w) as [c1 w1] eqn:E1.
    apply loadCancelled_spec in E1 as (_ & L1 & _).
    destruct c1.
    + inversion H; subst. eexists. split; [exact L1 | apply accounted_nil].
    + destruct (turn_accounted directory filename w1) as (d2 & L2 & A2);
        [right; apply Hsub; now left|].
      destruct (recurse _ term _) as [[e3 w3]|] eqn:E3; [|discriminate].
      apply Hrec in E3 as (d3 & L3 & A3).
      assert (exists d4, log w' = log w3 ++ d4 /\
                matchesAccountedFor root toLower term [directory] (emitted d4))
        as (d4 & L4 & A4).
      { destruct (negb (QString.isEmpty e3)).
        - inversion H; subst. exists []. rewrite app_nil_r.
          split; [reflexivity | apply accounted_nil].
        - apply IH in H; [exact H | intros n Hn; apply Hsub; now right
                          | exact Hrec]. }
      exists ([LoadAcquire (flagAt (cancelAt w) (log w))] ++ d2 ++ d3 ++ d4).
      split.
      * rewrite L4, L3, L2, L1, <- !app_assoc. reflexivity.
      * rewrite !emitted_app. simpl.
        apply accounted_app; [exact A2|].
        apply accounted_app; [now apply accounted_weaken | exact A4].
Qed.

Lemma searchRecursively_accounted :
  forall (fuel : nat) (directory : string) (w : Worker) (e : string) (w' : Worker),
    searchRecursively root toLower fuel directory term w = Some (e, w') ->
    exists d, log w' = log w ++ d /\
              matchesAccountedFor root toLower term [] (emitted d).
Proof.
  assert (forall w : Worker, exists d, log w = log w ++ d /\
            matchesAccountedFor root toLower term [] (emitted d)) as Hskip
    by (intros w; exists []; rewrite app_nil_r; split;
        [reflexivity | apply accounted_nil]).
  induction fuel as [|fuel IH]; intros directory w e w' H; [discriminate|].
  rewrite searchRecursively_succ in H.
  destruct (_ || _); [inversion H; subst; apply Hskip|].
  destruct (Fs.isSymLink root directory); [inversion H; subst; apply Hskip|].
  destruct (negb _); [inversion H; subst; apply Hskip|].
  cbv zeta in H.
  destruct (searchFiles toLower directory term _ _) as [c w2] eqn:E2.
  apply searchFiles_accounted in E2 as (d2 & L2 & A2); [|now intros].
  assert (exists d3, log w' = log w2 ++ d3 /\
            matchesAccountedFor root toLower term [directory] (emitted d3))
    as (d3 & L3 & A3).
  { destruct c.
    - inversion H; subst. exists []. rewrite app_nil_r.
      split; [reflexivity | apply accounted_nil].
    - apply searchDirs_accounted in H; [exact H | now intros|].
      intros name w0 e0 w1. apply IH. }
  exists ([Emit (progressChanged directory)] ++ d2 ++ d3). split.
  - rewrite L3, L2. simpl. rewrite <- !app_assoc. reflexivity.
  - rewrite !emitted_app. simpl. apply accounted_enter.
    now apply accounted_app.
Qed.

(** *** Clean paths *)

Lemma listed_directory_legal (directory name : string) :
  Fs.wellFormed root = true ->
  In name (Fs.entryListDirs root directory) -> Fs.legalName name = true.
Proof.
  intros Hroot Hin. unfold Fs.entryListDirs, Fs.entriesOf in Hin.
  destruct (Fs.stat root directory) as [[|es|]|] eqn:Hst; try destruct Hin.
  apply in_map_iff in Hin as [[n c] [Hn Hin]]. simpl in Hn. subst n.
  apply filter_In in Hin as [Hin _].
  assert (Fs.wellFormed (Fs.Dir es) = true) as Hes
    by (eapply resolve_wellFormed; [exact Hroot | exact Hst]).
  now destruct (wellFormed_In _ _ _ Hes Hin).
Qed.

Lemma searchFiles_no_progress (directory : string) (names : list string) :
  forall (w : Worker) (c : bool) (w' : Worker),
    searchFiles toLower directory term names w = (c, w') ->
    exists d, log w' = log w ++ d /\
              forall p, ~ In (progressChanged p) (emitted d).
Proof.
  induction names as [|filename rest IH]; intros w c w' H.
  - inversion H; subst. exists []. rewrite app_nil_r.
    split; [reflexivity | intros p []].
  - rewrite searchFiles_cons in H.
    destruct (loadCancelled w) as [c1 w1] eqn:E1.
    apply loadCancelled_spec in E1 as (_ & L1 & _).
    destruct c1.
    + inversion H; subst. eexists. split; [exact L1 | intros p []].
    + apply IH in H as (d3 & L3 & A3).
      destruct (nameMatches toLower filename term).
      * exists ([LoadAcquire (flagAt (cancelAt w) (log w));
                 Emit (matchFound (Fs.absoluteFilePath directory filename))]
                ++ d3).
        split; [rewrite L3; unfold emit, record; cbn [log];
                rewrite L1, <- !app_assoc; reflexivity|].
        intros p [X|X]; [discriminate | exact (A3 p X)].
      * exists ([LoadAcquire (flagAt (cancelAt w) (log w))] ++ d3).
        split; [rewrite L3, L1, <- app_assoc; reflexivity|].
        intros p X. exact (A3 p X).
Qed.

Lemma searchDirs_clean recurse (directory : string) (names : list string) :
  (forall (name : string) (w0 : Worker) (e0 : string) (w1 : Worker),
     In name names ->
     recurse (Fs.absoluteFilePath directory name) term w0 = Some (e0, w1) ->
     exists d, log w1 = log w0 ++ d /\
               forall p, In (progressChanged p) (emitted d) ->
                         Fs.isClean p = true) ->
  forall (w : Worker) (e : string) (w' : Worker),
    searchDirs toLower recurse directory term names w = Some (e, w') ->
    exists d, log w' = log w ++ d /\
              forall p, In (progressChanged p) (emitted d) ->
                        Fs.isClean p = true.
Proof.
  induction names as [|filename rest IH]; intros Hrec w e w' H.
  - inversion H; subst. exists []. rewrite app_nil_r.
    split; [reflexivity | intros p []].
  - rewrite searchDirs_cons in H.
    destruct (loadCancelled w) as [c1 w1] eqn:E1.
    apply loadCancelled_spec in E1 as (_ & L1 & _).
    destruct c1.
    + inversion H; subst. eexists. split; [exact L1 | intros p []].
    + destruct (recurse _ term _) as [[e3 w3]|] eqn:E3; [|discriminate].
      apply Hrec in E3 as (d3 & L3 & A3); [|now left].
      assert (exists d4, log w' = log w3 ++ d4 /\
                forall p, In (progressChanged p) (emitted d4) ->
                          Fs.isClean p = true) as (d4 & L4 & A4).
      { destruct (negb (QString.isEmpty e3)).
        - inversion H; subst. exists []. rewrite app_nil_r.
          split; [reflexivity | intros p []].
        - apply IH in H; [exact H|].
          intros name w0 e0 w4 Hin. apply Hrec. now right. }
      destruct (nameMatches toLower filename term).
      * exists ([LoadAcquire (flagAt (cancelAt w) (log w));
                 Emit (matchFound (Fs.absoluteFilePath directory filename))]
                ++ d3 ++ d4).
        split; [rewrite L4, L3; unfold emit, record; cbn [log];
                rewrite L1, <- !app_assoc; reflexivity|].
        intros p X. simpl in X. destruct X as [X|X]; [discriminate|].
        rewrite emitted_app in X.
        apply in_app_or in X as [X|X]; [now apply A3 | now apply A4].
      * exists ([LoadAcquire (flagAt (cancelAt w) (log w))] ++ d3 ++ d4).
        split; [rewrite L4, L3, L1, <- !app_assoc; reflexivity|].
        intros p X. simpl in X. rewrite emitted_app in X.
        apply in_app_or in X as [X|X]; [now apply A3 | now apply A4].
Qed.

(** Started on a clean path the walk reports clean paths only. *)
Lemma searchRecursively_clean :
  Fs.wellFormed root = true ->
  forall (fuel : nat) (directory : string) (w : Worker) (e : string) (w' : Worker),
    Fs.isClean directory = true ->
    searchRecursively root toLower fuel directory term w = Some (e, w') ->
    exists d, log w' = log w ++ d /\
              forall p, In (progressChanged p) (emitted d) ->
                        Fs.isClean p = true.
Proof.
  intros Hroot.
  assert (forall w : Worker, exists d, log w = log w ++ d /\
            forall p, In (progressChanged p) (emitted d) ->
                      Fs.isClean p = true) as Hskip
    by (intros w; exists []; rewrite app_nil_r; split;
        [reflexivity | intros p []]).
  induction fuel as [|fuel IH]; intros directory w e w' Hd H; [discriminate|].
  rewrite searchRecursively_succ in H.
  destruct (_ || _); [inversion H; subst; apply Hskip|].
  destruct (Fs.isSymLink root directory); [inversion H; subst; apply Hskip|].
  destruct (negb _); [inversion H; subst; apply Hskip|].
  cbv zeta in H.
  destruct (searchFiles toLower directory term _ _) as [c w2] eqn:E2.
  apply searchFiles_no_progress in E2 as (d2 & L2 & A2).
  assert (exists d3, log w' = log w2 ++ d3 /\
            forall p, In (progressChanged p) (emitted d3) ->
                      Fs.isClean p = true) as (d3 & L3 & A3).
  { destruct c.
    - inversion H; subst. exists []. rewrite app_nil_r.
      split; [reflexivity | intros p []].
    - apply searchDirs_clean in H; [exact H|].
      intros name w0 e0 w1 Hin. apply IH.
      apply isClean_child; [exact Hd|].
      exact (listed_directory_legal directory name Hroot Hin). }
  exists ([Emit (progressChanged directory)] ++ d2 ++ d3). split.
  - rewrite L3, L2. simpl. rewrite <- !app_assoc. reflexivity.
  - intros p X. simpl in X. destruct X as [X|X]; [now inversion X; subst|].
    rewrite emitted_app in X. apply in_app_or in X as [X|X].
    + now apply A2 in X.
    + now apply A3.
Qed.

(** *** Exhaustiveness *)

Lemma searchedThrough_incl (p : string) (l l' : list signal) :
  incl l l' -> searchedThrough root toLower term p l -> searchedThrough root toLower term p l'.
Proof.
  intros Hi [H1 H2]. split.
  - intros name Hin Hm. apply Hi. now apply H1.
  - intros name Hin He. apply Hi. now apply H2.
Qed.

Lemma exhaustive_nil : exhaustive root toLower term [].
Proof. intros p []. Qed.

Lemma exhaustive_app (l1 l2 : list signal) :
  exhaustive root toLower term l1 -> exhaustive root toLower term l2 ->
  exhaustive root toLower term (l1 ++ l2).
Proof.
  intros H1 H2 p Hp. apply in_app_or in Hp as [Hp|Hp].
  - apply (searchedThrough_incl p l1); [apply incl_appl, incl_refl | now apply H1].
  - apply (searchedThrough_incl p l2); [apply incl_appr, incl_refl | now apply H2].
Qed.

Lemma load_never (w : Worker) (c : bool) (w1 : Worker) :
  cancelAt w = None -> loadCancelled w = (c, w1) ->
  c = false /\ cancelAt w1 = None /\ log w1 = log w ++ [LoadAcquire KeepRunning].
Proof.
  intros Hc H. apply loadCancelled_spec in H as (Hc1 & L1 & V1).
  rewrite Hc, flagAt_never in L1, V1. simpl in V1.
  repeat split; [exact V1 | congruence | exact L1].
Qed.

(** What one turn of either loop emits when its name matches. *)
Lemma turn_reports (directory name : string) (w1 : Worker) :
  cancelAt w1 = None ->
  let w2 := if nameMatches toLower name term
            then emit (matchFound (Fs.absoluteFilePath directory name)) w1
            else w1 in
  cancelAt w2 = None /\
  exists d, log w2 = log w1 ++ d /\
            (forall s, In s (emitted d) -> exists q, s = matchFound q) /\
            (nameMatches toLower name term = true ->
             In (matchFound (Fs.absoluteFilePath directory name)) (emitted d)).
Proof.
  intros Hc. destruct (nameMatches toLower name term); cbv zeta.
  - split; [exact Hc|].
    exists [Emit (matchFound (Fs.absoluteFilePath directory name))].
    split; [reflexivity|]. split.
    + intros s [<-|[]]. now eexists.
    + intros _. now left.
  - split; [exact Hc|]. exists []. rewrite app_nil_r.
    split; [reflexivity|]. split; [intros s [] | discriminate].
Qed.

Lemma searchFiles_reports (directory : string) (names : list string) :
  forall (w : Worker) (c : bool) (w' : Worker),
    cancelAt w = None ->
    searchFiles toLower directory term names w = (c, w') ->
    c = false /\ cancelAt w' = None /\
    exists d, log w' = log w ++ d /\
              (forall s, In s (emitted d) -> exists q, s = matchFound q) /\
              (forall name, In name names -> nameMatches toLower name term = true ->
                 In (matchFound (Fs.absoluteFilePath directory name)) (emitted d)).
Proof.
  induction names as [|filename rest IH]; intros w c w' Hc H.
  - inversion H; subst. split; [reflexivity|]. split; [exact Hc|].
    exists []. rewrite app_nil_r. split; [reflexivity|].
    split; [intros s [] | intros name []].
  - rewrite searchFiles_cons in H.
    destruct (loadCancelled w) as [c1 w1] eqn:E1.
    apply load_never in E1 as (-> & Hc1 & L1); [|exact Hc].
    destruct (turn_reports directory filename w1 Hc1) as (Hc2 & d2 & L2 & M2 & R2).
    apply IH in H as (-> & Hc' & d3 & L3 & M3 & R3); [|exact Hc2].
    split; [reflexivity|]. split; [exact Hc'|].
    exists ([LoadAcquire KeepRunning] ++ d2 ++ d3). split; [|split].
    + rewrite L3, L2, L1, <- !app_assoc. reflexivity.
    + rewrite !emitted_app. simpl. intros s Hs.
      apply in_app_or in Hs as [Hs|Hs]; [now apply M2 | now apply M3].
    + rewrite !emitted_app. simpl. intros name [<-|Hin] Hm; apply in_or_app.
      * left. now apply R2.
      * right. now apply R3.
Qed.

Lemma searchDirs_reports recurse (directory : string) (names : list string) :
  (forall (name : string) (w0 : Worker) (e0 : string) (w1 : Worker),
     cancelAt w0 = None ->
     recurse (Fs.absoluteFilePath directory name) term w0 = Some (e0, w1) ->
     e0 = "" /\ cancelAt w1 = None /\
     exists d, log w1 = log w0 ++ d /\ exhaustive root toLower term (emitted d) /\
               (entered root (Fs.absoluteFilePath directory name) ->
                In (progressChanged (Fs.absoluteFilePath directory name))
                   (emitted d))) ->
  forall (w : Worker) (e : string) (w' : Worker),
    cancelAt w = None ->
    searchDirs toLower recurse directory term names w = Some (e, w') ->
    e = "" /\ cancelAt w' = None /\
    exists d, log w' = log w ++ d /\ exhaustive root toLower term (emitted d) /\
              (forall name, In name names -> nameMatches toLower name term = true ->
                 In (matchFound (Fs.absoluteFilePath directory name)) (emitted d)) /\
              (forall name, In name names ->
                 entered root (Fs.absoluteFilePath directory name) ->
                 In (progressChanged (Fs.absoluteFilePath directory name))
                    (emitted d)).
Proof.
  intros Hrec.
  induction names as [|filename rest IH]; intros w e w' Hc H.
  - inversion H; subst. split; [reflexivity|]. split; [exact Hc|].
    exists []. rewrite app_nil_r. split; [reflexivity|].
    split; [apply exhaustive_nil|]. split; intros name [].
  - rewrite searchDirs_cons in H.
    destruct (loadCancelled w) as [c1 w1] eqn:E1.
    apply load_never in E1 as (-> & Hc1 & L1); [|exact Hc].
    destruct (turn_reports directory filename w1 Hc1) as (Hc2 & d2 & L2 & M2 & R2).
    destruct (recurse _ term _) as [[e3 w3]|] eqn:E3; [|discriminate].
    apply Hrec in E3 as (-> & Hc3 & d3 & L3 & X3 & P3); [|exact Hc2].
    cbn [QString.isEmpty negb] in H.
    apply IH in H as (-> & Hc' & d4 & L4 & X4 & R4 & P4); [|exact Hc3].
    split; [reflexivity|]. split; [exact Hc'|].
    exists ([LoadAcquire KeepRunning] ++ d2 ++ d3 ++ d4). split; [|split; [|split]].
    + rewrite L4, L3, L2, L1, <- !app_assoc. reflexivity.
    + rewrite !emitted_app. simpl. apply exhaustive_app.
      * intros p Hp. apply M2 in Hp as [q Hq]. discriminate.
      * now apply exhaustive_app.
    + rewrite !emitted_app. simpl. intros name [<-|Hin] Hm; apply in_or_app.
      * left. now apply R2.
      * right. apply in_or_app. right. now apply R4.
    + rewrite !emitted_app. simpl. intros name [<-|Hin] He;
        apply in_or_app; right; apply in_or_app.
      * left. now apply P3.
      * right. now apply P4.
Qed.

Lemma searchRecursively_reports :
  forall (fuel : nat) (directory : string) (w : Worker) (e : string) (w' : Worker),
    cancelAt w = None ->
    searchRecursively root toLower fuel directory term w = Some (e, w') ->
    e = "" /\ cancelAt w' = None /\
    exists d, log w' = log w ++ d /\ exhaustive root toLower term (emitted d) /\
              (entered root directory ->
               In (progressChanged directory) (emitted d)).
Proof.
  induction fuel as [|fuel IH]; intros directory w e w' Hc H; [discriminate|].
  rewrite searchRecursively_succ in H.
  destruct (QString.startsWith directory "/proc") eqn:Hp.
  { inversion H; subst. split; [reflexivity|]. split; [exact Hc|].
    exists []. rewrite app_nil_r. split; [reflexivity|].
    split; [apply exhaustive_nil|]. intros (_ & X & _). congruence. }
  destruct (QString.startsWith directory "/sys/block") eqn:Hb.
  { inversion H; subst. split; [reflexivity|]. split; [exact Hc|].
    exists []. rewrite app_nil_r. split; [reflexivity|].
    split; [apply exhaustive_nil|]. intros (_ & _ & X & _). congruence. }
  cbn [orb] in H.
  destruct (Fs.isSymLink root directory) eqn:Hl.
  { inversion H; subst. split; [reflexivity|]. split; [exact Hc|].
    exists []. rewrite app_nil_r. split; [reflexivity|].
    split; [apply exhaustive_nil|]. intros (_ & _ & _ & X & _). congruence. }
  destruct (Fs.dirExists root directory) eqn:He; cbn [negb] in H.
  2:{ inversion H; subst. split; [reflexivity|]. split; [exact Hc|].
      exists []. rewrite app_nil_r. split; [reflexivity|].
      split; [apply exhaustive_nil|]. intros (_ & _ & _ & _ & X). congruence. }
  cbv zeta in H.
  destruct (searchFiles toLower directory term _ _) as [c w2] eqn:E2.
  apply searchFiles_reports in E2 as (-> & Hc2 & d2 & L2 & M2 & R2); [|exact Hc].
  apply searchDirs_reports in H as (-> & Hc' & d3 & L3 & X3 & R3 & P3);
    [|intros name w0 e0 w1; apply IH | exact Hc2].
  split; [reflexivity|]. split; [exact Hc'|].
  exists ([Emit (progressChanged directory)] ++ d2 ++ d3). split; [|split].
  - rewrite L3, L2. simpl. rewrite <- !app_assoc. reflexivity.
  - rewrite !emitted_app. simpl. intros p [Hp'|Hp'].
    + inversion Hp'; subst p. split.
      * intros name [Hin|Hin] Hm; right; apply in_or_app;
          [left; now apply R2 | right; now apply R3].
      * intros name Hin Hent. right. apply in_or_app. right. now apply P3.
    + apply in_app_or in Hp' as [Hp'|Hp'].
      * apply M2 in Hp' as [q Hq]. discriminate.
      * apply (searchedThrough_incl p (emitted d3)); [|now apply X3].
        apply incl_tl, incl_appr, incl_refl.
  - intros _. rewrite !emitted_app. now left.
Qed.

End SearchReportFacts.

Section SearchReportTheorems.
Import SearchWorker.

(** Whatever a search reports as a match, cancelled or not, is the path of
    a file or directory whose name in lower case contains the search term in
    lower case, and that the listing of a directory holds which the walk
    entered and reported progress for.  The start directory is a clean
    absolute path, and so is every directory the walk reports. *)
Theorem search_reports_only_listed_matches :
  forall (root : Fs.node) (toLower tr : string -> string) (fuel : nat)
         (cancel : option nat) (directory searchTerm : string) (w : Worker),
    Fs.wellFormed root = true ->
    isRunning w = false ->
    Fs.isClean directory = true -> searchTerm <> "" ->
    (Fs.depth root directory < fuel)%nat ->
    exists w',
      startSearch root toLower tr fuel cancel directory searchTerm w = Some w' /\
      forall q,
        In (matchFound q) (emitted (log w')) ->
        exists p,
          In (progressChanged p) (emitted (log w')) /\
          entered root p /\ Fs.isClean p = true /\
          listedMatch root toLower (toLower searchTerm) p q.
Proof.
  intros root toLower tr fuel cancel directory searchTerm w Hroot Hrun Hd Ht Hfuel.
  destruct (started_search root toLower tr fuel cancel directory searchTerm w
              Hroot Hrun (isClean_not_empty _ Hd) Ht Hfuel)
    as (w1 & w' & E1 & _ & E & L & Hs).
  exists w'. split; [exact E|]. intros q Hq. rewrite L, emitted_app in Hq |- *.
  apply in_app_or in Hq as [Hq|[Hq|[Hq|[]]]]; try discriminate.
  pose proof (searchRecursively_clean root toLower _ Hroot _ _ _ _ _ Hd E1)
    as (d' & Ld' & C).
  apply searchRecursively_accounted in E1 as (d & Ld & A).
  simpl in Ld, Ld'. rewrite Ld in Hq, Hs |- *.
  destruct (A q Hq) as (p & [[]|Hp] & Hm).
  exists p. split; [apply in_or_app; now left|].
  split; [rewrite Forall_forall in Hs; exact (Hs _ Hp)|].
  split; [|exact Hm]. apply C. now rewrite <- Ld', Ld.
Qed.

Lemma search_reports_witness :
  exists w',
    startSearch Sample.tree Sample.asciiLower Sample.noTranslation 4
      (Some 5%nat) "/home" "A" Sample.searcher = Some w' /\
    forall q,
      In (matchFound q) (emitted (log w')) ->
      exists p,
        In (progressChanged p) (emitted (log w')) /\
        entered Sample.tree p /\ Fs.isClean p = true /\
        listedMatch Sample.tree Sample.asciiLower (Sample.asciiLower "A") p q.
Proof.
  apply (search_reports_only_listed_matches Sample.tree Sample.asciiLower
           Sample.noTranslation 4 (Some 5%nat) "/home" "A" Sample.searcher).
  - vm_compute. reflexivity.
  - reflexivity.
  - vm_compute. reflexivity.
  - discriminate.
  - vm_compute. lia.
Defined.

(** A search that is not cancelled is exhaustive.  Started on a clean
    absolute path, it reports the progress of the start directory when that
    can be entered; and for every directory whose progress it reports it
    reports every file and every directory that the directory lists (hidden
    entries are not listed) whose name in lower case contains the search term
    in lower case, and the progress of every listed directory that is no
    link, exists and whose path starts neither with the text [/proc] nor with
    the text [/sys/block]. *)
Theorem uncancelled_search_is_exhaustive :
  forall (root : Fs.node) (toLower tr : string -> string) (fuel : nat)
         (directory searchTerm : string) (w : Worker),
    Fs.wellFormed root = true ->
    isRunning w = false ->
    Fs.isClean directory = true -> searchTerm <> "" ->
    (Fs.depth root directory < fuel)%nat ->
    exists w',
      startSearch root toLower tr fuel None directory searchTerm w = Some w' /\
      (entered root directory ->
       In (progressChanged directory) (emitted (log w'))) /\
      forall p,
        p <> "" ->
        In (progressChanged p) (emitted (log w')) ->
        searchedThrough root toLower (toLower searchTerm) p (emitted (log w')).
Proof.
  intros root toLower tr fuel directory searchTerm w Hroot Hrun Hd Ht Hfuel.
  destruct (started_search root toLower tr fuel None directory searchTerm w
              Hroot Hrun (isClean_not_empty _ Hd) Ht Hfuel)
    as (w1 & w' & E1 & _ & E & L & Hs).
  exists w'. split; [exact E|]. rewrite L, emitted_app.
  apply searchRecursively_reports in E1 as (_ & _ & d & Ld & X & P);
    [|reflexivity].
  simpl in Ld. rewrite Ld. split.
  - intros He. apply in_or_app. left. now apply P.
  - intros p Hp Hin. apply in_app_or in Hin as [Hin|[Hin|[Hin|[]]]].
    + apply (searchedThrough_incl root toLower _ p (emitted d));
        [apply incl_appl, incl_refl | now apply X].
    + inversion Hin. congruence.
    + discriminate.
Qed.

Lemma uncancelled_search_witness :
  exists w',
    startSearch Sample.tree Sample.asciiLower Sample.noTranslation 4 None
      "/home" "A" Sample.searcher = Some w' /\
    (entered Sample.tree "/home" ->
     In (progressChanged "/home") (emitted (log w'))) /\
    forall p,
      p <> "" ->
      In (progressChanged p) (emitted (log w')) ->
      searchedThrough Sample.tree Sample.asciiLower (Sample.asciiLower "A") p
                      (emitted (log w')).
Proof.
  apply (uncancelled_search_is_exhaustive Sample.tree Sample.asciiLower
           Sample.noTranslation 4 "/home" "A" Sample.searcher).
  - vm_compute. reflexivity.
  - reflexivity.
  - vm_compute. reflexivity.
  - discriminate.
  - vm_compute. lia.
Defined.

End SearchReportTheorems.
